(** * ml-factor-sp500: walk-forward position builder and portfolio simulator

    A shallow embedding of [model.py] (walk-forward splitter, quantile
    long/short position builder) and [backtest.py] (portfolio simulator
    and performance analyzer), with the properties of the specification
    stated and settled against it.

    Numbers.  A Python float is modelled by an exact rational ([Q]); a
    missing value (NaN) is [None] in [flt].  Finite arithmetic is exact
    (no rounding, no overflow).  IEEE infinities are not modelled: a
    division by zero yields NaN.  The two transcendental operations of
    the analyzer (power and square root) are taken in the real numbers.

    Data.  A timestamp is a calendar date.  A pandas frame is a list of
    rows with named float columns; a series indexed by ticker is an
    association list; the schedule is a Python dict keyed by date.  Python
    exceptions are the [Raise] results of [result].

    Layout.  Definitions come first: the pandas layer, [model.py],
    [backtest.py], the properties as predicates, and the concrete inputs.
    The proofs follow, one section per component. *)

From Stdlib Require Import ZArith QArith Qabs Qminmax Qround Qreals String Bool List Lia Lqa.
From Stdlib Require Import Permutation Sorted Reals Lra.
Import ListNotations.

Set Implicit Arguments.

(* ================================================================= *)
(** ** Exceptions *)

Inductive exn : Type :=
| RuntimeError   (* raise RuntimeError("No positions provided for backtest") *)
| KeyError       (* a column label that is not in the frame *)
| ValueError.    (* unstack on duplicated index entries; quantile outside [0, 1] *)

Inductive result (A : Type) : Type :=
| Ok (a : A)
| Raise (e : exn).

Arguments Ok {A} a.
Arguments Raise {A} e.

Definition bind {A B : Type} (r : result A) (k : A -> result B) : result B :=
  match r with
  | Ok a => k a
  | Raise e => Raise e
  end.

Notation "x <- r ;; k" := (bind r (fun x => k))
  (at level 61, r at next level, right associativity).

Definition returns_value {A : Type} (r : result A) : Prop :=
  exists a, r = Ok a.

Definition raises {A : Type} (r : result A) : Prop :=
  exists e, r = Raise e.

(* ================================================================= *)
(** ** Timestamps (calendar dates) and [pd.DateOffset] *)

Module Dates.
Local Open Scope Z_scope.

Record Timestamp : Type := mkTs { year : Z; month : Z; day : Z }.

Definition ts_eqb (a b : Timestamp) : bool :=
  (year a =? year b) && (month a =? month b) && (day a =? day b).

(** Chronological order of calendar dates. *)
Definition ts_ltb (a b : Timestamp) : bool :=
  (year a <? year b)
  || ((year a =? year b)
      && ((month a <? month b)
          || ((month a =? month b) && (day a <? day b)))).

Definition ts_leb (a b : Timestamp) : bool := negb (ts_ltb b a).

Definition ts_lt (a b : Timestamp) : Prop := ts_ltb a b = true.
Definition ts_le (a b : Timestamp) : Prop := ts_leb a b = true.

Definition is_leap (y : Z) : bool :=
  ((y mod 4 =? 0) && negb (y mod 100 =? 0)) || (y mod 400 =? 0).

Definition days_in_month (y m : Z) : Z :=
  if m =? 2 then (if is_leap y then 29 else 28)
  else if (m =? 4) || (m =? 6) || (m =? 9) || (m =? 11) then 30
  else 31.

(** [ts + pd.DateOffset(months=n)]: the month is shifted and the day is
    clipped to the last day of the target month. *)
Definition add_months (t : Timestamp) (n : Z) : Timestamp :=
  let k := year t * 12 + (month t - 1) + n in
  let y := k / 12 in
  let m := k mod 12 + 1 in
  mkTs y m (Z.min (day t) (days_in_month y m)).

(** [ts - pd.DateOffset(years=n)]. *)
Definition sub_years (t : Timestamp) (n : Z) : Timestamp :=
  add_months t (- (12 * n)).

(** [Index.sort_values()]: insertion sort, ascending. *)
Fixpoint ts_insert (d : Timestamp) (l : list Timestamp) : list Timestamp :=
  match l with
  | [] => [d]
  | x :: r => if ts_leb d x then d :: l else x :: ts_insert d r
  end.

Definition sort_values (l : list Timestamp) : list Timestamp :=
  fold_right ts_insert [] l.

(** [max] and [min] of a date index; [None] on an empty index. *)
Definition ts_max (a b : Timestamp) : Timestamp := if ts_ltb a b then b else a.
Definition ts_min (a b : Timestamp) : Timestamp := if ts_ltb b a then b else a.

Definition max_date (l : list Timestamp) : option Timestamp :=
  match l with
  | [] => None
  | x :: r => Some (fold_left ts_max r x)
  end.

Definition min_date (l : list Timestamp) : option Timestamp :=
  match l with
  | [] => None
  | x :: r => Some (fold_left ts_min r x)
  end.

End Dates.
Export Dates.

(* ================================================================= *)
(** ** Floats, series and frames (the part of numpy/pandas the code uses) *)

Module Pandas.
Local Open Scope Q_scope.

(** A float that may be missing: [None] is NaN. *)
Definition flt : Type := option Q.
Definition NaN : flt := None.

Definition fillna (d : Q) (x : flt) : Q :=
  match x with Some q => q | None => d end.

(** [Series.dropna()] on bare values. *)
Definition dropna (l : list flt) : list Q :=
  flat_map (fun x => match x with Some q => [q] | None => [] end) l.

(** Float division; [x / 0] is not a finite number. *)
Definition fdiv (a b : Q) : flt :=
  if Qeq_bool b 0 then NaN else Some (a / b).

Definition Qlt_bool (a b : Q) : bool := negb (Qle_bool b a).

Definition Qsum (l : list Q) : Q := fold_right Qplus 0 l.

(** [sum] with pandas' default [skipna=True]. *)
Definition nansum (l : list flt) : Q := Qsum (dropna l).

(** [mean]: NaN on an empty series. *)
Definition mean (l : list Q) : flt :=
  match l with
  | [] => NaN
  | _ => Some (Qsum l / inject_Z (Z.of_nat (length l)))
  end.

Fixpoint map2 {A B C : Type} (f : A -> B -> C) (l : list A) (m : list B) : list C :=
  match l, m with
  | a :: l', b :: m' => f a b :: map2 f l' m'
  | _, _ => []
  end.

Definition ticker : Type := string.

Definition mem (t : ticker) (l : list ticker) : bool :=
  existsb (String.eqb t) l.

(** A series of finite floats indexed by ticker, in index order. *)
Definition Series : Type := list (ticker * Q).

(** Label lookup, as a column reindex sees it: NaN for an absent label. *)
Fixpoint series_get (t : ticker) (s : Series) : flt :=
  match s with
  | [] => NaN
  | (t', x) :: r => if String.eqb t t' then Some x else series_get t r
  end.

(** [w.loc[labels] = v]: every row whose label is listed is set. *)
Definition loc_set (w : Series) (labels : list ticker) (v : Q) : Series :=
  map (fun e => if mem (fst e) labels then (fst e, v) else e) w.

(** The labels of an index are pairwise distinct. *)
Fixpoint unique_labels (l : list ticker) : bool :=
  match l with
  | [] => true
  | t :: r => negb (mem t r) && unique_labels r
  end.

(** A Python [dict] keyed by date: insertion-ordered, keys unique;
    assignment to an existing key replaces its value in place. *)
Definition dict (V : Type) : Type := list (Timestamp * V).

Fixpoint dict_get {V : Type} (k : Timestamp) (m : dict V) : option V :=
  match m with
  | [] => None
  | (k', v) :: r => if ts_eqb k k' then Some v else dict_get k r
  end.

Fixpoint dict_set {V : Type} (k : Timestamp) (v : V) (m : dict V) : dict V :=
  match m with
  | [] => [(k, v)]
  | (k', v') :: r =>
      if ts_eqb k k' then (k, v) :: r else (k', v') :: dict_set k v r
  end.

(** A long frame with a (date, ticker) index and named float columns. *)
Record Row : Type := mkRow {
  r_date : Timestamp;
  r_ticker : ticker;
  r_values : list flt
}.

Record DataFrame : Type := mkDf {
  df_columns : list string;
  df_rows : list Row
}.

Fixpoint col_pos (name : string) (cols : list string) : option nat :=
  match cols with
  | [] => None
  | c :: r => if String.eqb name c then Some O
              else option_map S (col_pos name r)
  end.

Definition cell (r : Row) (i : nat) : flt := nth i (r_values r) NaN.

(** [panel[name]]: a long series; KeyError when the column is absent. *)
Definition getitem (df : DataFrame) (name : string)
  : result (list (Timestamp * ticker * flt)) :=
  match col_pos name (df_columns df) with
  | None => Raise KeyError
  | Some i => Ok (map (fun r => (r_date r, r_ticker r, cell r i)) (df_rows df))
  end.

(** A wide frame: one row per date, one column per ticker. *)
Record Wide (A : Type) : Type := mkWide {
  w_index : list Timestamp;
  w_columns : list ticker;
  w_values : list (list A)
}.

Fixpoint nodup_ts (l : list Timestamp) : list Timestamp :=
  match l with
  | [] => []
  | x :: r => if existsb (ts_eqb x) r then nodup_ts r else x :: nodup_ts r
  end.

Fixpoint nodup_str (l : list ticker) : list ticker :=
  match l with
  | [] => []
  | x :: r => if mem x r then nodup_str r else x :: nodup_str r
  end.

Fixpoint str_insert (t : ticker) (l : list ticker) : list ticker :=
  match l with
  | [] => [t]
  | x :: r => if String.leb t x then t :: l else x :: str_insert t r
  end.

Definition sort_str (l : list ticker) : list ticker :=
  fold_right str_insert [] l.

Definition same_key (d : Timestamp) (t : ticker) (e : Timestamp * ticker * flt) : bool :=
  ts_eqb d (fst (fst e)) && String.eqb t (snd (fst e)).

Fixpoint has_duplicates (l : list (Timestamp * ticker * flt)) : bool :=
  match l with
  | [] => false
  | e :: r => existsb (same_key (fst (fst e)) (snd (fst e))) r || has_duplicates r
  end.

Definition long_get (l : list (Timestamp * ticker * flt)) (d : Timestamp) (t : ticker) : flt :=
  match find (same_key d t) l with
  | Some e => snd e
  | None => NaN
  end.

(** [s.unstack("ticker").sort_index()]: ValueError on a duplicated
    (date, ticker) entry; rows are the dates in ascending order, columns
    the tickers in label order, absent cells NaN. *)
Definition unstack_ticker (l : list (Timestamp * ticker * flt)) : result (Wide flt) :=
  if has_duplicates l then Raise ValueError
  else
    let idx := sort_values (nodup_ts (map (fun e => fst (fst e)) l)) in
    let cols := sort_str (nodup_str (map (fun e => snd (fst e)) l)) in
    Ok (mkWide idx cols (map (fun d => map (long_get l d) cols) idx)).

(** One cell of [pct_change]: current over previous minus one. *)
Definition pct (prev cur : flt) : flt :=
  match prev, cur with
  | Some p, Some c => option_map (fun x => x - 1) (fdiv c p)
  | _, _ => NaN
  end.

Fixpoint pct_change_from (prev : list flt) (rows : list (list flt)) : list (list flt) :=
  match rows with
  | [] => []
  | r :: rest => map2 pct prev r :: pct_change_from r rest
  end.

(** [DataFrame.pct_change()]: the first row is NaN, and so is every cell
    whose current or previous price is missing (no forward fill of missing
    prices before the change is taken). *)
Definition pct_change (rows : list (list flt)) : list (list flt) :=
  match rows with
  | [] => []
  | r :: rest => map (fun _ => NaN) r :: pct_change_from r rest
  end.

Fixpoint diff_from (prev : list Q) (rows : list (list Q)) : list (list flt) :=
  match rows with
  | [] => []
  | r :: rest => map2 (fun p c => Some (c - p)) prev r :: diff_from r rest
  end.

(** [DataFrame.diff()]: the first row is NaN. *)
Definition diff (rows : list (list Q)) : list (list flt) :=
  match rows with
  | [] => []
  | r :: rest => map (fun _ => NaN) r :: diff_from r rest
  end.

(** [DataFrame.shift(1)]: rows move down by one, the first row is NaN. *)
Definition shift1 (rows : list (list Q)) : list (list flt) :=
  match rows with
  | [] => []
  | r :: _ => map (fun _ => NaN) r :: map (map Some) (removelast rows)
  end.

(** Insertion sort of the rows of a frame by date ([sort_index]). *)
Fixpoint row_insert {V : Type} (e : Timestamp * V) (l : list (Timestamp * V))
  : list (Timestamp * V) :=
  match l with
  | [] => [e]
  | x :: r => if ts_leb (fst e) (fst x) then e :: l else x :: row_insert e r
  end.

Definition sort_index {V : Type} (l : list (Timestamp * V)) : list (Timestamp * V) :=
  fold_right row_insert [] l.

(** One row of [reindex(index, method="ffill")]: the last row of the
    (sorted) frame dated on or before [d], NaN when there is none. *)
Definition asof {V : Type} (rows : list (Timestamp * V)) (d : Timestamp) : option V :=
  fold_left (fun cur e => if ts_leb (fst e) d then Some (snd e) else cur) rows None.

(** Ascending sort of floats. *)
Fixpoint q_insert (x : Q) (l : list Q) : list Q :=
  match l with
  | [] => [x]
  | y :: r => if Qle_bool x y then x :: l else y :: q_insert x r
  end.

Definition sort_q (l : list Q) : list Q := fold_right q_insert [] l.

(** [Series.quantile(q)], linear interpolation between order statistics:
    ValueError unless [0 <= q <= 1]; NaN on an empty series. *)
Definition quantile (s : list Q) (q : Q) : result flt :=
  if negb (Qle_bool 0 q && Qle_bool q 1) then Raise ValueError
  else
    match sort_q s with
    | [] => Ok NaN
    | (x0 :: _) as sorted =>
        let n := Z.of_nat (length sorted) in
        let h := inject_Z (n - 1) * q in
        let i := Qfloor h in
        let g := h - inject_Z i in
        let lo := nth (Z.to_nat i) sorted x0 in
        let hi := nth (Z.to_nat (Z.min (i + 1) (n - 1))) sorted x0 in
        Ok (Some (lo + g * (hi - lo)))
    end.

End Pandas.
Export Pandas.

(* ================================================================= *)
(** ** model.py: the walk-forward splitter *)

Module Model.

Definition TrainTestSplit : Type := (list Timestamp * list Timestamp)%type.

Definition min_train_dates : nat := 24.

(** The body of the [for test_start in rebal_dates] loop: the windows of
    one candidate date, or nothing when the guard [continue]s. *)
Definition split_at (rebal_dates : list Timestamp) (train_years test_months : Z)
    (test_start : Timestamp) : list TrainTestSplit :=
  let train_end := test_start in
  let train_start := sub_years train_end train_years in
  let test_end := add_months test_start test_months in
  let train_dates :=
    filter (fun d => ts_leb train_start d && ts_ltb d train_end) rebal_dates in
  let test_dates :=
    filter (fun d => ts_leb test_start d && ts_ltb d test_end) rebal_dates in
  if (length train_dates <? min_train_dates)%nat || (length test_dates <? 1)%nat
  then []
  else [(train_dates, test_dates)].

Definition make_walkforward_splits (rebal_dates : list Timestamp)
    (train_years test_months : Z) : list TrainTestSplit :=
  let rebal_dates := sort_values rebal_dates in
  flat_map (split_at rebal_dates train_years test_months) rebal_dates.


(* ----------------------------------------------------------------- *)
(** *** The position builder (lines 95-107 of [generate_monthly_positions]) *)

Local Open Scope Q_scope.

(** [s >= cut] and [s <= cut] on one score; every comparison with NaN
    is false. *)
Definition ge_cut (cut : flt) (x : Q) : bool :=
  match cut with Some c => Qle_bool c x | None => false end.

Definition le_cut (cut : flt) (x : Q) : bool :=
  match cut with Some c => Qle_bool x c | None => false end.

(** [s[s >= long_cut].index] and [s[s <= short_cut].index]. *)
Definition longs_of (long_cut : flt) (s : Series) : list ticker :=
  map fst (filter (fun e => ge_cut long_cut (snd e)) s).

Definition shorts_of (short_cut : flt) (s : Series) : list ticker :=
  map fst (filter (fun e => le_cut short_cut (snd e)) s).

Definition len (l : list ticker) : Q := inject_Z (Z.of_nat (length l)).

(** The weight vector of one cross-section, given the two thresholds:
    zeros, then the long assignment, then the short assignment. *)
Definition assign_weights (long_cut short_cut : flt) (s : Series) : Series :=
  let longs := longs_of long_cut s in
  let shorts := shorts_of short_cut s in
  let w := map (fun e => (fst e, 0)) s in
  let w := if (0 <? length longs)%nat then loc_set w longs (1 / len longs) else w in
  let w := if (0 <? length shorts)%nat then loc_set w shorts (-(1) / len shorts) else w in
  w.

(** Thresholds by quantile, then the assignment. *)
Definition position_weights (top_q bot_q : Q) (s : Series) : result Series :=
  long_cut <- quantile (map snd s) (1 - top_q) ;;
  short_cut <- quantile (map snd s) bot_q ;;
  Ok (assign_weights long_cut short_cut s).

(** Sum of the positive, and of the negative, entries of a weight vector. *)
Definition sum_positive (w : Series) : Q :=
  Qsum (map snd (filter (fun e => Qlt_bool 0 (snd e)) w)).

Definition sum_negative (w : Series) : Q :=
  Qsum (map snd (filter (fun e => Qlt_bool (snd e) 0) w)).

(** The weight the three assignments leave on a row, by its label. *)
Definition weight_of (longs shorts : list ticker) (t : ticker) : Q :=
  if mem t shorts && (0 <? length shorts)%nat then -(1) / len shorts
  else if mem t longs && (0 <? length longs)%nat then 1 / len longs
  else 0.

(* ----------------------------------------------------------------- *)
(** *** Walk-forward training and scoring *)

(** A row of [usable]: every feature and the target are present. *)
Record URow : Type := mkURow {
  u_date : Timestamp;
  u_ticker : ticker;
  u_x : list Q;
  u_y : Q
}.

Fixpoint col_positions (names cols : list string) : result (list nat) :=
  match names with
  | [] => Ok []
  | c :: r =>
      match col_pos c cols with
      | None => Raise KeyError
      | Some i => ps <- col_positions r cols ;; Ok (i :: ps)
      end
  end.

Fixpoint all_present (l : list flt) : option (list Q) :=
  match l with
  | [] => Some []
  | Some q :: r => option_map (cons q) (all_present r)
  | None :: _ => None
  end.

(** [panel.dropna(subset=feature_cols + ["y_fwd_3m"])], keeping of each
    surviving row the feature columns (in the order of [feature_cols])
    and the target. *)
Definition dropna_subset (panel : DataFrame) (feature_cols : list string)
  : result (list URow) :=
  xs <- col_positions feature_cols (df_columns panel) ;;
  ys <- col_positions ["y_fwd_3m"%string] (df_columns panel) ;;
  Ok (flat_map
        (fun r =>
           match all_present (map (cell r) xs), all_present (map (cell r) ys) with
           | Some x, Some (y :: _) => [mkURow (r_date r) (r_ticker r) x y]
           | _, _ => []
           end)
        (df_rows panel)).

Definition min_train_rows : nat := 1000.

Definition PositionSchedule : Type := dict Series.

Section Scorer.

(** The regressor behind [MLRegressor] is the library's: a fit from a
    seed, a feature matrix and a target vector to fitted parameters, and
    a prediction per feature row (NaN allowed).  [fit] replaces the
    parameters wholesale and every [predict] follows the [fit] of its own
    split, so the parameters are local to one iteration of the loop. *)
Variable Fitted : Type.
Variable fit : Z -> list (list Q) -> list Q -> Fitted.
Variable predict : Fitted -> list Q -> flt.

Variable usable : list URow.
Variables top_q bot_q : Q.
Variable min_universe : Z.
Variable seed : Z.

(** [pd.Series(preds, index=tickers).dropna()]. *)
Definition scores (model : Fitted) (X : list URow) : Series :=
  flat_map
    (fun u => match predict model (u_x u) with
              | Some p => [(u_ticker u, p)]
              | None => []
              end) X.

(** The body of [for d in test_dates]: [None] when the date is skipped. *)
Definition score_date (model : Fitted) (d : Timestamp) : result (option Series) :=
  let X := filter (fun u => ts_eqb (u_date u) d) usable in
  if (Z.of_nat (length X) <? min_universe)%Z then Ok None
  else w <- position_weights top_q bot_q (scores model X) ;; Ok (Some w).

Fixpoint score_dates (model : Fitted) (test_dates : list Timestamp)
    (monthly_positions : PositionSchedule) : result PositionSchedule :=
  match test_dates with
  | [] => Ok monthly_positions
  | d :: rest =>
      ow <- score_date model d ;;
      score_dates model rest
        (match ow with
         | Some w => dict_set d w monthly_positions
         | None => monthly_positions
         end)
  end.

(** The body of [for train_dates, test_dates in splits]. *)
Definition run_split (monthly_positions : PositionSchedule) (sp : TrainTestSplit)
  : result PositionSchedule :=
  let train := filter (fun u => existsb (ts_eqb (u_date u)) (fst sp)) usable in
  if (length train <? min_train_rows)%nat then Ok monthly_positions
  else
    let model := fit seed (map u_x train) (map u_y train) in
    score_dates model (snd sp) monthly_positions.

(** The loop over the splits, in the order given. *)
Fixpoint run_splits (splits : list TrainTestSplit)
    (monthly_positions : PositionSchedule) : result PositionSchedule :=
  match splits with
  | [] => Ok monthly_positions
  | sp :: rest =>
      mp <- run_split monthly_positions sp ;; run_splits rest mp
  end.

(** The entries one split contributes on its own. *)
Definition split_entries (sp : TrainTestSplit) : result PositionSchedule :=
  run_split [] sp.

(** Split [sp] produces an entry for date [d]. *)
Definition produces (sp : TrainTestSplit) (d : Timestamp) : Prop :=
  exists m w, split_entries sp = Ok m /\ dict_get d m = Some w.

End Scorer.

Definition generate_monthly_positions
    (Fitted : Type) (fit : Z -> list (list Q) -> list Q -> Fitted)
    (predict : Fitted -> list Q -> flt)
    (panel : DataFrame) (feature_cols : list string) (rebal_dates : list Timestamp)
    (top_q bot_q : Q) (min_universe : Z) (seed : Z) : result PositionSchedule :=
  usable <- dropna_subset panel feature_cols ;;
  let splits := make_walkforward_splits rebal_dates 5 6 in
  run_splits fit predict usable top_q bot_q min_universe seed splits [].

End Model.
Export Model.

(* ================================================================= *)
(** ** backtest.py: the performance analyzer and the portfolio simulator *)

Module Backtest.
Local Open Scope Q_scope.

(** The dict returned by [compute_perf_stats].  CAGR and Sharpe go through
    a power and a square root and live in the reals; MaxDD is rational. *)
Record PerfStats : Type := mkPerfStats {
  CAGR : option R;
  Sharpe : option R;
  MaxDD : flt
}.

Fixpoint cumprod_from (acc : Q) (l : list Q) : list Q :=
  match l with
  | [] => []
  | x :: r => (acc * x) :: cumprod_from (acc * x) r
  end.

Definition cumprod (l : list Q) : list Q :=
  match l with
  | [] => []
  | x :: r => x :: cumprod_from x r
  end.

Fixpoint cummax_from (acc : Q) (l : list Q) : list Q :=
  match l with
  | [] => []
  | x :: r => Qmax acc x :: cummax_from (Qmax acc x) r
  end.

Definition cummax (l : list Q) : list Q :=
  match l with
  | [] => []
  | x :: r => x :: cummax_from x r
  end.

(** [min] with [skipna=True]: NaN only when nothing is left. *)
Definition nanmin (l : list flt) : flt :=
  match dropna l with
  | [] => NaN
  | x :: r => Some (fold_left Qmin r x)
  end.

(** [equity / peak - 1], cell by cell. *)
Definition drawdown (equity peak : list Q) : list flt :=
  map2 (fun e p => option_map (fun x => x - 1) (fdiv e p)) equity peak.

(** [equity], [peak], [dd] and [mdd] of the analyzer. *)
Definition equity_curve (r : list Q) : list Q :=
  cumprod (map (fun x => 1 + x) r).

Definition max_drawdown (r : list Q) : flt :=
  let equity := equity_curve r in
  nanmin (drawdown equity (cummax equity)).

(** [b ** e] on floats, for the exponents the analyzer uses ([e > 0]):
    a real power of a positive base, [0] for a zero base, an integral power
    of a negative base and NaN for a fractional one. *)
Definition np_power (b e : Q) : option R :=
  if Qlt_bool 0 b then Some (Rpower (Q2R b) (Q2R e))
  else if Qeq_bool b 0 then Some 0%R
  else match Qred e with
       | Qmake n 1%positive => Some (Q2R (Qpower b n))
       | _ => None
       end.

(** [np.sqrt(freq)]: NaN below zero. *)
Definition np_sqrt (freq : Z) : option R :=
  if (freq <? 0)%Z then None else Some (sqrt (IZR freq)).

(** [Series.std()], sample standard deviation ([ddof=1]): NaN when there
    are fewer than two observations. *)
Definition std (r : list Q) : option R :=
  match r with
  | [] | [_] => None
  | _ =>
      let n := inject_Z (Z.of_nat (length r)) in
      let m := Qsum r / n in
      let var := Qsum (map (fun x => (x - m) * (x - m)) r) / (n - 1) in
      Some (sqrt (Q2R var))
  end.

Definition eps : Q := 1 # 1000000000000.

Definition compute_perf_stats (returns : list flt) (freq : Z) : PerfStats :=
  let r := dropna returns in
  match r with
  | [] => mkPerfStats (Some 0%R) (Some 0%R) (Some 0)
  | _ :: _ =>
      let equity := equity_curve r in
      let years :=
        if (0 <? freq)%Z then inject_Z (Z.of_nat (length r)) / inject_Z freq else 0 in
      let cagr :=
        if Qlt_bool 0 years
        then option_map (fun p => (p - 1)%R) (np_power (last equity 0) (1 / years))
        else Some 0%R in
      let sharpe :=
        match std r, np_sqrt freq with
        | Some s, Some f => Some ((Q2R (Qsum r / inject_Z (Z.of_nat (length r)))
                                   / (s + Q2R eps)) * f)%R
        | _, _ => None
        end in
      mkPerfStats cagr sharpe (max_drawdown r)
  end.

(** The local frames of [backtest_positions], one row per trading date. *)
Record Simulation : Type := mkSimulation {
  dates : list Timestamp;          (* daily_ret.index *)
  tickers : list ticker;           (* daily_ret.columns *)
  daily_ret : list (list flt);
  daily_w : list (list Q);
  turnover : list Q;
  tc : list Q;
  port_ret : list Q
}.

Definition zero_row (cols : list ticker) : list Q := map (fun _ => 0) cols.

(** The column reindex of [pos_df] needs unique labels: a weight vector
    with a duplicated ticker makes pandas raise ValueError. *)
Definition reindexable (monthly_positions : PositionSchedule) : bool :=
  forallb (fun e => unique_labels (map fst (snd e))) monthly_positions.

(** [pos_df]: the schedule as a frame sorted by date, its columns
    reindexed on the price columns, missing weights 0. *)
Definition position_frame (cols : list ticker) (monthly_positions : PositionSchedule)
  : list (Timestamp * list Q) :=
  map (fun e => (fst e, map (fun t => fillna 0 (series_get t (snd e))) cols))
      (sort_index monthly_positions).

(** [daily_w]: forward fill on the trading dates, 0 before the first entry. *)
Definition project_weights (idx : list Timestamp) (cols : list ticker)
    (pos_df : list (Timestamp * list Q)) : list (list Q) :=
  map (fun d => match asof pos_df d with
                | Some w => w
                | None => zero_row cols
                end) idx.

(** [turnover]: half the sum of absolute day-over-day weight changes. *)
Definition turnover_of (daily_w : list (list Q)) : list Q :=
  map (fun row => Qsum (map Qabs row) / 2) (map (map (fillna 0)) (diff daily_w)).

(** One cell of [weights * returns]. *)
Definition fmul (w : Q) (r : flt) : flt := option_map (Qmult w) r.

Definition simulate (px : Wide flt) (monthly_positions : PositionSchedule) (tc_bps : Q)
  : Simulation :=
  let daily_ret := pct_change (w_values px) in
  let pos_df := position_frame (w_columns px) monthly_positions in
  let daily_w := project_weights (w_index px) (w_columns px) pos_df in
  let turnover := turnover_of daily_w in
  let tc := map (fun t => t * (tc_bps / 10000)) turnover in
  let lagged := map (map (fillna 0)) (shift1 daily_w) in
  let gross := map2 (fun w r => nansum (map2 fmul w r)) lagged daily_ret in
  let port_ret := map2 Qminus gross tc in
  mkSimulation (w_index px) (w_columns px) daily_ret daily_w turnover tc port_ret.

Record BacktestStats : Type := mkBacktestStats {
  perf : PerfStats;
  AvgTurnover : flt
}.

(** [backtest_positions(panel, monthly_positions, tc_bps)].  The row sums
    and the costs are never NaN, so the final [fillna(0.0)] changes
    nothing and the returned series is [port_ret] itself. *)
Definition backtest_positions (panel : DataFrame)
    (monthly_positions : PositionSchedule) (tc_bps : Q)
  : result (list (Timestamp * Q) * BacktestStats) :=
  match monthly_positions with
  | [] => Raise RuntimeError
  | _ :: _ =>
      close <- getitem panel "close" ;;
      px <- unstack_ticker close ;;
      if negb (reindexable monthly_positions) then Raise ValueError
      else
      let sim := simulate px monthly_positions tc_bps in
      let stats := compute_perf_stats (map Some (port_ret sim)) 252 in
      Ok (combine (dates sim) (port_ret sim),
          mkBacktestStats stats (mean (turnover sim)))
  end.

End Backtest.
Export Backtest.

(* ================================================================= *)
(** ** The properties of the specification, as predicates on the code *)

Module Properties.
Local Open Scope Q_scope.

(** Two runs of the walk-forward loop end in the same date-to-weights
    mapping (or in the same exception). *)
Definition same_schedule (r1 r2 : result PositionSchedule) : Prop :=
  match r1, r2 with
  | Ok m1, Ok m2 => forall d, dict_get d m1 = dict_get d m2
  | Raise e1, Raise e2 => e1 = e2
  | _, _ => False
  end.

Definition override {V : Type} (a b : option V) : option V :=
  match a with Some x => Some x | None => b end.

(** How a run started from [mp] relates to the same run started from
    the empty schedule: the exception of the latter, or its entries laid
    over [mp]. *)
Definition laid_over (alone : result PositionSchedule) (mp : PositionSchedule)
    (r : result PositionSchedule) : Prop :=
  match alone with
  | Raise e => e = ValueError /\ r = Raise ValueError
  | Ok es =>
      exists mp', r = Ok mp'
        /\ forall d, dict_get d mp' = override (dict_get d es) (dict_get d mp)
  end.

(** The entry of a date at the end of a run; nothing when the run raised. *)
Definition schedule_lookup (r : result PositionSchedule) (d : Timestamp) : option Series :=
  match r with
  | Ok m => dict_get d m
  | Raise _ => None
  end.

Section Merge.
Variable Fitted : Type.
Variable fit : Z -> list (list Q) -> list Q -> Fitted.
Variable predict : Fitted -> list Q -> flt.
Variable usable : list URow.
Variables top_q bot_q : Q.
Variable min_universe : Z.
Variable seed : Z.

(** Every date is produced by one split only. *)
Definition single_producer (splits : list TrainTestSplit) : Prop :=
  forall sp1 sp2 d,
    In sp1 splits -> In sp2 splits ->
    produces fit predict usable top_q bot_q min_universe seed sp1 d ->
    produces fit predict usable top_q bot_q min_universe seed sp2 d ->
    sp1 = sp2.

(** Any processing order of the splits gives the same final schedule. *)
Definition order_irrelevant (splits : list TrainTestSplit) : Prop :=
  forall perm,
    Permutation splits perm ->
    same_schedule
      (run_splits fit predict usable top_q bot_q min_universe seed splits [])
      (run_splits fit predict usable top_q bot_q min_universe seed perm []).

(** Any two splits of the list that both write a date write the same
    weights there. *)
Definition agree (l : list TrainTestSplit) : Prop :=
  forall sp1 sp2 es1 es2 d w1 w2,
    In sp1 l -> In sp2 l ->
    split_entries fit predict usable top_q bot_q min_universe seed sp1 = Ok es1 ->
    split_entries fit predict usable top_q bot_q min_universe seed sp2 = Ok es2 ->
    dict_get d es1 = Some w1 -> dict_get d es2 = Some w2 -> w1 = w2.

(** Some split of the list writes [w] at [d]. *)
Definition some_writes (l : list TrainTestSplit) (d : Timestamp) (w : Series) : Prop :=
  exists sp es,
    In sp l
    /\ split_entries fit predict usable top_q bot_q min_universe seed sp = Ok es
    /\ dict_get d es = Some w.

(** No split of the list writes at [d]. *)
Definition none_writes (l : list TrainTestSplit) (d : Timestamp) : Prop :=
  forall sp es,
    In sp l ->
    split_entries fit predict usable top_q bot_q min_universe seed sp = Ok es ->
    dict_get d es = None.

(** The final entry of a date in terms of the splits alone. *)
Definition written (l : list TrainTestSplit) (mp : PositionSchedule)
    (d : Timestamp) (w : Series) : Prop :=
  some_writes l d w \/ (none_writes l d /\ dict_get d mp = Some w).

End Merge.

(** A list of floats that never decreases. *)
Fixpoint nondecreasing (l : list Q) : Prop :=
  match l with
  | [] => True
  | x :: r =>
      match r with
      | [] => True
      | y :: _ => x <= y /\ nondecreasing r
      end
  end.


(** The simulator raises exactly when the schedule is empty. *)
Definition fails_iff_empty (panel : DataFrame) (sched : PositionSchedule) (tc_bps : Q)
  : Prop :=
  raises (backtest_positions panel sched tc_bps) <-> sched = [].

(** The panel has a close column and no duplicated (date, ticker) entry. *)
Definition price_panel_ok (panel : DataFrame) (px : Wide flt) : Prop :=
  exists close, getitem panel "close" = Ok close /\ unstack_ticker close = Ok px.

(** The simulator returns this series of daily returns (up to the
    representation of each rational). *)
Definition returns_series (panel : DataFrame) (sched : PositionSchedule) (tc_bps : Q)
    (expected : list Q) : Prop :=
  exists series stats,
    backtest_positions panel sched tc_bps = Ok (series, stats)
    /\ Forall2 Qeq (map snd series) expected.

(** The simulator returns a series that is, day by day, within [tol] of
    the expected values. *)
Definition returns_series_within (tol : Q) (panel : DataFrame) (sched : PositionSchedule)
    (tc_bps : Q) (expected : list Q) : Prop :=
  exists series stats,
    backtest_positions panel sched tc_bps = Ok (series, stats)
    /\ Forall2 (fun x y => Qabs (x - y) <= tol) (map snd series) expected.

(** The simulator returns a series whose values after the first trading
    day are the expected ones (up to the representation of each
    rational). *)
Definition returns_after_first_day (panel : DataFrame) (sched : PositionSchedule)
    (tc_bps : Q) (expected : list Q) : Prop :=
  exists series stats,
    backtest_positions panel sched tc_bps = Ok (series, stats)
    /\ Forall2 Qeq (tl (map snd series)) expected.

(** Day [i] has a prior day and the projected weights are the same on both. *)
Definition unchanged_from_prior_day (sim : Simulation) (i : nat) : Prop :=
  exists j, i = S j /\ Forall2 Qeq (nth i (daily_w sim) []) (nth j (daily_w sim) []).

(** Every cell of a row, and of a frame, is zero. *)
Definition zero_cells (row : list Q) : Prop := Forall (fun x => x == 0) row.
Definition zero_frame (rows : list (list Q)) : Prop := Forall zero_cells rows.

Definition all_zero (sched : PositionSchedule) : Prop :=
  Forall (fun e => Forall (fun tw => snd tw == 0) (snd e)) sched.

End Properties.
Export Properties.

(* ================================================================= *)
(** ** Concrete inputs *)

Module Scenario.
Local Open Scope Q_scope.
Local Open Scope string_scope.

(** The lag-and-cost scenario: tickers A and B over trading days 0, 1, 2. *)
Definition day (n : Z) : Timestamp := mkTs 2024 1 (1 + n).

Definition panel : DataFrame :=
  mkDf ["close"]
    [ mkRow (day 0) "A" [Some 100]; mkRow (day 0) "B" [Some 50];
      mkRow (day 1) "A" [Some 110]; mkRow (day 1) "B" [Some 49];
      mkRow (day 2) "A" [Some 99];  mkRow (day 2) "B" [Some 52] ].

Definition px : Wide flt :=
  mkWide [day 0; day 1; day 2] ["A"; "B"]
    [ [Some 100; Some 50]; [Some 110; Some 49]; [Some 99; Some 52] ].

Definition schedule : PositionSchedule := [ (day 0, [("A", 1 # 2); ("B", 1 # 2)]) ].

(** A schedule holding one all-zero weight vector. *)
Definition zero_schedule : PositionSchedule := [ (day 0, [("A", 0); ("B", 0)]) ].

(** The same entry dated one trading day later. *)
Definition schedule_day1 : PositionSchedule := [ (day 1, [("A", 1 # 2); ("B", 1 # 2)]) ].

(** The same frame without its close column. *)
Definition panel_without_close : DataFrame :=
  mkDf ["open"] (df_rows panel).

End Scenario.

Module Toy.
Local Open Scope Q_scope.
Local Open Scope string_scope.

(** Twenty-six month ends from January 2020, fifty tickers per date, one
    feature ([close], the rank of the ticker) and a target that is 1 on
    the first twenty-four dates and -100 on the twenty-fifth. *)
Definition month_end (k : nat) : Timestamp :=
  let y := (2020 + Z.of_nat k / 12)%Z in
  let m := (Z.of_nat k mod 12 + 1)%Z in
  mkTs y m (days_in_month y m).

Definition rebal_dates : list Timestamp := map month_end (seq 0 26).

Definition digit (n : nat) : Ascii.ascii := Ascii.ascii_of_nat (48 + n).

Definition ticker_name (i : nat) : ticker :=
  "T" ++ String (digit (i / 10)) (String (digit (i mod 10)) "").

Definition target (k : nat) : Q :=
  if (k <? 24)%nat then 1 else if (k =? 24)%nat then - (100) else 0.

Definition panel : DataFrame :=
  mkDf ["close"; "y_fwd_3m"]
    (flat_map
       (fun k => map (fun i => mkRow (month_end k) (ticker_name i)
                                 [Some (inject_Z (Z.of_nat (S i))); Some (target k)])
                     (seq 0 50))
       (seq 0 26)).

Definition usable : list URow :=
  match dropna_subset panel ["close"] with
  | Ok u => u
  | Raise _ => []
  end.

(** A one-parameter regressor: the coefficient is the sum of the targets
    seen in training, the score of a row its first feature times it. *)
Definition fit (seed : Z) (X : list (list Q)) (y : list Q) : Q := Qred (Qsum y).
Definition predict (coef : Q) (x : list Q) : flt := Some (Qred (coef * hd 0 x)).

(** A regressor that gives every row the same score. *)
Definition predict_flat (coef : Q) (x : list Q) : flt := Some coef.

Definition run : list TrainTestSplit -> PositionSchedule -> result PositionSchedule :=
  run_splits fit predict usable (1 # 10) (1 # 10) 50 42.

(** The splits of [generate_monthly_positions] (five years, six months),
    and those of a one-month test window. *)
Definition splits : list TrainTestSplit := make_walkforward_splits rebal_dates 5 6.
Definition splits_1m : list TrainTestSplit := make_walkforward_splits rebal_dates 5 1.

(** Fifty tickers with one and the same score. *)
Definition flat_scores : Series := map (fun i => (ticker_name i, 1 # 100)) (seq 0 50).

End Toy.


(* ================================================================= *)
(** ** Orders on dates *)

Module DateOrder.

(** A date index in ascending order, and one without repeated dates. *)
Definition ascending (l : list Timestamp) : Prop := StronglySorted ts_le l.
Definition strictly_ascending (l : list Timestamp) : Prop := StronglySorted ts_lt l.

End DateOrder.
Export DateOrder.


(* ================================================================= *)
(** ** Well-formed frames *)

Module Frames.

(** The (date, ticker) index of a long frame has no repeated entry. *)
Definition unique_index (panel : DataFrame) : Prop :=
  NoDup (map (fun r => (r_date r, r_ticker r)) (df_rows panel)).

(** Every listed column is a column of the frame. *)
Definition has_columns (panel : DataFrame) (names : list string) : Prop :=
  forall c, In c names -> In c (df_columns panel).

(** A decision procedure for the uniqueness of (date, ticker) entries. *)
Definition key_eqb (a b : Timestamp * ticker) : bool :=
  ts_eqb (fst a) (fst b) && String.eqb (snd a) (snd b).

Fixpoint unique_keys (l : list (Timestamp * ticker)) : bool :=
  match l with
  | [] => true
  | k :: r => negb (existsb (key_eqb k) r) && unique_keys r
  end.

(** The (date, ticker) entries of the rows of [usable]. *)
Definition usable_key (u : URow) : Timestamp * ticker := (u_date u, u_ticker u).

End Frames.
Export Frames.


(* ================================================================= *)
(** ** What [generate_monthly_positions] hands to the simulator *)

Module Generated.
Local Open Scope Q_scope.
Local Open Scope string_scope.

(** The rows of the panel at one date. *)
Definition rows_on (panel : DataFrame) (d : Timestamp) : list Row :=
  filter (fun r => ts_eqb (r_date r) d) (df_rows panel).

Definition in_unit_range (w : Series) : Prop :=
  Forall (fun e => -(1) <= snd e /\ snd e <= 1) w.

(** A quantile level pandas accepts. *)
Definition valid_level (q : Q) : Prop := 0 <= q /\ q <= 1.

(** The columns [dropna(subset=...)] looks up. *)
Definition needed_columns (feature_cols : list string) : list string :=
  feature_cols ++ ["y_fwd_3m"].

(** The schedule of the toy run, and of the same run with a level of 2. *)
Definition toy_schedule : PositionSchedule :=
  match generate_monthly_positions Toy.fit Toy.predict Toy.panel ["close"]
          Toy.rebal_dates (1 # 10) (1 # 10) 50 42 with
  | Ok m => m
  | Raise _ => []
  end.

Definition toy_keys : list (Timestamp * ticker) :=
  map (fun r => (r_date r, r_ticker r)) (df_rows Toy.panel).

(** The first entry of the toy schedule. *)
Definition toy_entry : Timestamp * Series :=
  hd (Toy.month_end 0, []) toy_schedule.

End Generated.
Export Generated.


(* ================================================================= *)
(** ** backtest.py: [month_ends] *)

Module MonthEnds.

(** The group key [(s.dt.year, s.dt.month)] of a date, held as the first
    day of its month: tuples of year and month compare like these dates. *)
Definition month_key (d : Timestamp) : Timestamp := mkTs (year d) (month d) 1.

Definition same_month (a b : Timestamp) : Prop :=
  year a = year b /\ month a = month b.

(** [s.groupby([s.dt.year, s.dt.month]).max().values]: one value per
    distinct key, the keys in ascending order. *)
Definition groupby_month_max (s : list Timestamp) : list Timestamp :=
  flat_map
    (fun k => match max_date (filter (fun d => ts_eqb (month_key d) k) s) with
              | Some e => [e]
              | None => []
              end)
    (sort_values (nodup_ts (map month_key s))).

Definition month_ends (dates : list Timestamp) : list Timestamp :=
  let s := sort_values (nodup_ts dates) in
  groupby_month_max s.

(** A few trading days of three months, unordered and with a repeat. *)
Definition sample_days : list Timestamp :=
  [mkTs 2020 2 3; mkTs 2020 1 15; mkTs 2020 1 31; mkTs 2019 12 30;
   mkTs 2020 1 15; mkTs 2020 2 28].

End MonthEnds.
Export MonthEnds.


(* ================================================================= *)
(** ** Schedules against the trading calendar *)

Module Trading.
Local Open Scope Q_scope.
Local Open Scope string_scope.

(** The day lies before every rebalance date of the schedule. *)
Definition before_first_rebalance (m : PositionSchedule) (d : Timestamp) : Prop :=
  forall k, In k (map fst m) -> ts_lt d k.

(** [e] is the entry in force on day [d]: dated on or before [d], and no
    entry dated on or before [d] is later. *)
Definition in_force (m : PositionSchedule) (d : Timestamp) (e : Timestamp * Series) : Prop :=
  In e m
  /\ ts_le (fst e) d
  /\ forall e', In e' m -> ts_le (fst e') d -> ts_le (fst e') (fst e).

(** The weights of an entry laid on the price columns. *)
Definition on_columns (cols : list ticker) (w : Series) : list Q :=
  map (fun t => fillna 0 (series_get t w)) cols.

(** The outcome of a backtest as its input decides it. *)
Definition outcome_by_input (panel : DataFrame) (m : PositionSchedule)
    (r : result (list (Timestamp * Q) * BacktestStats)) : Prop :=
  match r with
  | Raise RuntimeError => m = []
  | Raise KeyError => m <> [] /\ ~ In "close" (df_columns panel)
  | Raise ValueError =>
      m <> [] /\ In "close" (df_columns panel)
      /\ (~ unique_index panel \/ reindexable m = false)
  | Ok _ =>
      m <> [] /\ In "close" (df_columns panel)
      /\ unique_index panel /\ reindexable m = true
  end.

(** The result of the scenario backtest at cost rate [tc_bps]. *)
Definition scenario_series (m : PositionSchedule) (tc_bps : Q) : list (Timestamp * Q) :=
  combine (dates (simulate Scenario.px m tc_bps))
          (port_ret (simulate Scenario.px m tc_bps)).

Definition scenario_stats (m : PositionSchedule) (tc_bps : Q) : BacktestStats :=
  mkBacktestStats
    (compute_perf_stats (map Some (port_ret (simulate Scenario.px m tc_bps))) 252)
    (mean (turnover (simulate Scenario.px m tc_bps))).

(** A long-short entry that starts on the second day of the scenario. *)
Definition late_schedule : PositionSchedule :=
  [ (Scenario.day 1, [("A", 1 # 2); ("B", -(1 # 2))]) ].

End Trading.
Export Trading.


(* ================================================================= *)
(** ** run.py: the benchmark statistics and the strategy pipeline *)

Module Run.
Local Open Scope Q_scope.
Local Open Scope string_scope.

(** [_perf_stats(r, freq)] for a positive [freq] (the default is 252 and
    [main] passes none).  A zero or negative [freq] is left out: there
    [freq ** 0.5] is a complex number and the power of a zero equity is
    infinite.  [freq / len(r)] is the exponent of the final equity and
    [freq ** 0.5] a power with exponent one half. *)
Definition _perf_stats (r : list flt) (freq : positive) : PerfStats :=
  let r := dropna r in
  match r with
  | [] => mkPerfStats None None NaN
  | _ :: _ =>
      let eq := equity_curve r in
      let cagr :=
        option_map (fun p => (p - 1)%R)
          (np_power (last eq 0)
             (inject_Z (Zpos freq) / inject_Z (Z.of_nat (length r)))) in
      let sharpe :=
        match std r with
        | Some s => Some ((Q2R (Qsum r / inject_Z (Z.of_nat (length r)))
                           / (s + Q2R eps))
                          * Rpower (IZR (Zpos freq)) (Q2R (1 # 2)))%R
        | None => None
        end in
      let peak := cummax eq in
      mkPerfStats cagr sharpe (nanmin (drawdown eq peak))
  end.

Section Main.
Variable Fitted : Type.
Variable fit : Z -> list (list Q) -> list Q -> Fitted.
Variable predict : Fitted -> list Q -> flt.

(** [feature_cols = [c for c in panel.columns if c != "y_fwd_3m"]]. *)
Definition feature_columns (panel : DataFrame) : list string :=
  filter (fun c => negb (String.eqb c "y_fwd_3m")) (df_columns panel).

(** Lines 63-72 of [main]: from the panel with features and target to
    the backtest of the generated schedule.  The download before, and
    the printing, the benchmark and the plots after, are left out. *)
Definition main (panel : DataFrame) (tc_bps : Q)
  : result (list (Timestamp * Q) * BacktestStats) :=
  let rebal_dates := month_ends (map r_date (df_rows panel)) in
  let feature_cols := feature_columns panel in
  monthly_positions <-
    generate_monthly_positions fit predict panel feature_cols rebal_dates
      (1 # 10) (1 # 10) 50 42 ;;
  backtest_positions panel monthly_positions tc_bps.

End Main.

(** Two tickers over three days, with a feature and the target. *)
Definition small_panel : DataFrame :=
  mkDf ["close"; "y_fwd_3m"]
    [ mkRow (Scenario.day 0) "A" [Some 100; Some (1 # 10)];
      mkRow (Scenario.day 0) "B" [Some 50; Some (1 # 20)];
      mkRow (Scenario.day 1) "A" [Some 110; NaN];
      mkRow (Scenario.day 1) "B" [Some 49; NaN] ].

End Run.
Export Run.

(* ================================================================= *)
(** * Proofs *)

(* ================================================================= *)
(** ** Facts about timestamps *)

Section DateFacts.
Local Open Scope Z_scope.

Lemma ts_ltb_iff (a b : Timestamp) :
  ts_ltb a b = true <->
  year a < year b
  \/ (year a = year b
      /\ (month a < month b \/ (month a = month b /\ day a < day b))).
Proof.
  unfold ts_ltb.
  rewrite Bool.orb_true_iff, Bool.andb_true_iff, Bool.orb_true_iff,
    Bool.andb_true_iff, !Z.ltb_lt, !Z.eqb_eq.
  tauto.
Qed.

Lemma ts_leb_iff (a b : Timestamp) :
  ts_leb a b = true <-> ~ ts_ltb b a = true.
Proof.
  unfold ts_leb. destruct (ts_ltb b a); simpl; split; intros; congruence.
Qed.

Lemma ts_eqb_eq (a b : Timestamp) : ts_eqb a b = true <-> a = b.
Proof.
  unfold ts_eqb. rewrite !Bool.andb_true_iff, !Z.eqb_eq.
  destruct a, b; simpl. split.
  - intros [[-> ->] ->]. reflexivity.
  - intros H. inversion H. auto.
Qed.

Lemma ts_eqb_refl (a : Timestamp) : ts_eqb a a = true.
Proof. apply ts_eqb_eq. reflexivity. Qed.

Lemma ts_eqb_neq (a b : Timestamp) : ts_eqb a b = false <-> a <> b.
Proof.
  split.
  - intros H E. apply ts_eqb_eq in E. congruence.
  - intros H. destruct (ts_eqb a b) eqn:E; [apply ts_eqb_eq in E; contradiction | reflexivity].
Qed.

Lemma ts_lt_irrefl (a : Timestamp) : ~ ts_lt a a.
Proof. unfold ts_lt. rewrite ts_ltb_iff. lia. Qed.

Lemma ts_lt_le_trans (a b c : Timestamp) : ts_lt a b -> ts_le b c -> ts_lt a c.
Proof.
  unfold ts_lt, ts_le. rewrite ts_leb_iff, !ts_ltb_iff. lia.
Qed.

Lemma fold_ts_max_in (r : list Timestamp) (x : Timestamp) :
  In (fold_left ts_max r x) (x :: r).
Proof.
  revert x. induction r as [|y r IH]; intros x; simpl.
  - left. reflexivity.
  - destruct (IH (ts_max x y)) as [E | HI].
    + unfold ts_max in E at 1. destruct (ts_ltb x y); [right; left | left]; exact E.
    + right. right. exact HI.
Qed.

Lemma fold_ts_min_in (r : list Timestamp) (x : Timestamp) :
  In (fold_left ts_min r x) (x :: r).
Proof.
  revert x. induction r as [|y r IH]; intros x; simpl.
  - left. reflexivity.
  - destruct (IH (ts_min x y)) as [E | HI].
    + unfold ts_min in E at 1. destruct (ts_ltb y x); [right; left | left]; exact E.
    + right. right. exact HI.
Qed.

Lemma max_date_in (l : list Timestamp) (m : Timestamp) :
  max_date l = Some m -> In m l.
Proof.
  destruct l as [|x r]; simpl; intros H; [discriminate|].
  injection H as <-. apply fold_ts_max_in.
Qed.

Lemma min_date_in (l : list Timestamp) (m : Timestamp) :
  min_date l = Some m -> In m l.
Proof.
  destruct l as [|x r]; simpl; intros H; [discriminate|].
  injection H as <-. apply fold_ts_min_in.
Qed.

End DateFacts.

(* ================================================================= *)
(** ** The walk-forward splitter *)

Section Splitter.

(** What the two masks of one candidate date say about the dates kept. *)
Lemma split_at_windows rebal_dates train_years test_months test_start tr te :
  In (tr, te) (split_at rebal_dates train_years test_months test_start) ->
  (forall d, In d tr -> ts_lt d test_start)
  /\ (forall d, In d te -> ts_le test_start d)
  /\ (min_train_dates <= length tr)%nat
  /\ (1 <= length te)%nat.
Proof.
  unfold split_at.
  set (trd := filter _ rebal_dates).
  set (ted := filter _ rebal_dates).
  destruct (length trd <? min_train_dates)%nat eqn:E1; simpl; [tauto|].
  destruct (length ted <? 1)%nat eqn:E2; simpl; [tauto|].
  intros [H | []]. inversion H; subst tr te; clear H.
  apply Nat.ltb_ge in E1. apply Nat.ltb_ge in E2.
  repeat split; try assumption.
  - intros d Hd. apply filter_In in Hd. destruct Hd as [_ Hd].
    apply Bool.andb_true_iff in Hd. exact (proj2 Hd).
  - intros d Hd. apply filter_In in Hd. destruct Hd as [_ Hd].
    apply Bool.andb_true_iff in Hd. exact (proj1 Hd).
Qed.

(** C4.  In every (train, test) pair emitted by the walk-forward splitter,
    the train dates and the test dates are disjoint, and the latest train
    date is strictly earlier than the earliest test date. *)
Theorem walkforward_train_precedes_test :
  forall rebal_dates train_years test_months train_dates test_dates,
    In (train_dates, test_dates)
       (make_walkforward_splits rebal_dates train_years test_months) ->
    (forall d, In d train_dates -> ~ In d test_dates)
    /\ exists a b,
         max_date train_dates = Some a
         /\ min_date test_dates = Some b
         /\ ts_lt a b.
Proof.
  intros rebal ty tm tr te Hin.
  unfold make_walkforward_splits in Hin.
  apply in_flat_map in Hin. destruct Hin as [test_start [_ Hin]].
  apply split_at_windows in Hin. destruct Hin as (Htr & Hte & Ltr & Lte).
  split.
  - intros d Hd Hd'. apply (ts_lt_irrefl (a := d)).
    apply ts_lt_le_trans with test_start; auto.
  - destruct tr as [|a0 tr']; [unfold min_train_dates in Ltr; simpl in Ltr; lia|].
    destruct te as [|b0 te']; [simpl in Lte; lia|].
    exists (fold_left ts_max tr' a0), (fold_left ts_min te' b0).
    split; [reflexivity|]. split; [reflexivity|].
    apply ts_lt_le_trans with test_start.
    + apply Htr. apply fold_ts_max_in.
    + apply Hte. apply fold_ts_min_in.
Qed.

Lemma walkforward_train_precedes_test_witness :
  let train := map Toy.month_end (seq 0 24) in
  let test := [Toy.month_end 24; Toy.month_end 25] in
  In (train, test) (make_walkforward_splits Toy.rebal_dates 5 6)
  /\ (forall d, In d train -> ~ In d test)
  /\ exists a b, max_date train = Some a /\ min_date test = Some b /\ ts_lt a b.
Proof.
  assert (H : In (map Toy.month_end (seq 0 24), [Toy.month_end 24; Toy.month_end 25])
                 (make_walkforward_splits Toy.rebal_dates 5 6)).
  { vm_compute. left. reflexivity. }
  split; [exact H|].
  exact (walkforward_train_precedes_test Toy.rebal_dates 5 6 _ _ H).
Defined.

End Splitter.

(* ================================================================= *)
(** ** The schedule as a dictionary *)

Section DictFacts.
Variable V : Type.

Lemma override_assoc (a b c : option V) :
  override (override a b) c = override a (override b c).
Proof. destruct a; reflexivity. Qed.

Lemma dict_get_set (d d' : Timestamp) (w : V) (m : dict V) :
  dict_get d' (dict_set d w m) = if ts_eqb d' d then Some w else dict_get d' m.
Proof.
  induction m as [|[k v] r IH]; simpl.
  - reflexivity.
  - destruct (ts_eqb d k) eqn:Edk; simpl.
    + apply ts_eqb_eq in Edk. subst k.
      destruct (ts_eqb d' d); reflexivity.
    + rewrite IH. destruct (ts_eqb d' k) eqn:E1; [|reflexivity].
      apply ts_eqb_eq in E1. subst k.
      destruct (ts_eqb d' d) eqn:E2; [|reflexivity].
      apply ts_eqb_eq in E2. subst d'. rewrite ts_eqb_refl in Edk. discriminate.
Qed.

Lemma option_eq_by_some (a b : option V) :
  (forall w, a = Some w <-> b = Some w) -> a = b.
Proof.
  intros H. destruct a as [x|].
  - symmetry. apply H. reflexivity.
  - destruct b as [y|]; [|reflexivity].
    apply H. reflexivity.
Qed.

End DictFacts.

(* ================================================================= *)
(** ** The walk-forward loop and the order of the splits *)

Lemma quantile_raises_ValueError (s : list Q) (q : Q) (e : exn) :
  quantile s q = Raise e -> e = ValueError.
Proof.
  unfold quantile.
  destruct (negb (Qle_bool 0 q && Qle_bool q 1)).
  - intros H. injection H as <-. reflexivity.
  - destruct (sort_q s); discriminate.
Qed.

Lemma position_weights_raises_ValueError (top_q bot_q : Q) (s : Series) (e : exn) :
  position_weights top_q bot_q s = Raise e -> e = ValueError.
Proof.
  unfold position_weights, bind.
  destruct (quantile (map snd s) (1 - top_q)) eqn:E1.
  - destruct (quantile (map snd s) bot_q) eqn:E2; [discriminate|].
    intros H. injection H as <-. eapply quantile_raises_ValueError; eassumption.
  - intros H. injection H as <-. eapply quantile_raises_ValueError; eassumption.
Qed.

Section WalkForward.
Variable Fitted : Type.
Variable fit : Z -> list (list Q) -> list Q -> Fitted.
Variable predict : Fitted -> list Q -> flt.
Variable usable : list URow.
Variables top_q bot_q : Q.
Variable min_universe : Z.
Variable seed : Z.

Local Notation "'score_date''" := (score_date predict usable top_q bot_q min_universe).
Local Notation "'score_dates''" := (score_dates predict usable top_q bot_q min_universe).
Local Notation "'run_split''" := (run_split fit predict usable top_q bot_q min_universe seed).
Local Notation "'run_splits''" := (run_splits fit predict usable top_q bot_q min_universe seed).
Local Notation "'split_entries''" :=
  (split_entries fit predict usable top_q bot_q min_universe seed).
Local Notation "'agree''" := (agree fit predict usable top_q bot_q min_universe seed).
Local Notation "'some_writes''" :=
  (some_writes fit predict usable top_q bot_q min_universe seed).
Local Notation "'none_writes''" :=
  (none_writes fit predict usable top_q bot_q min_universe seed).
Local Notation "'written''" := (written fit predict usable top_q bot_q min_universe seed).

Lemma score_date_raises_ValueError model d e :
  score_date' model d = Raise e -> e = ValueError.
Proof.
  unfold score_date.
  destruct (Z.of_nat _ <? min_universe)%Z; [discriminate|].
  unfold bind.
  destruct (position_weights top_q bot_q _) eqn:E; [discriminate|].
  intros H. injection H as <-. eapply position_weights_raises_ValueError; eassumption.
Qed.

Lemma score_dates_laid_over model ds :
  forall mp, laid_over (score_dates' model ds []) mp (score_dates' model ds mp).
Proof.
  induction ds as [|d rest IH]; intros mp.
  - simpl. exists mp. split; reflexivity.
  - cbn [score_dates]. destruct (score_date' model d) as [ow|e] eqn:E; cbn [bind].
    + pose (upd := fun (m : PositionSchedule) =>
                     match ow with Some w => dict_set d w m | None => m end).
      change (laid_over (score_dates' model rest (upd [])) mp
                        (score_dates' model rest (upd mp))).
      assert (HX : forall d', dict_get d' (upd mp)
                              = override (dict_get d' (upd [])) (dict_get d' mp)).
      { intros d'. subst upd. cbv beta. destruct ow as [w|]; [|reflexivity].
        rewrite dict_get_set. simpl. destruct (ts_eqb d' d); reflexivity. }
      generalize dependent (upd mp). generalize dependent (upd []).
      clear upd. intros X1 X2 HX.
      pose proof (IH X1) as H1. pose proof (IH X2) as H2.
      unfold laid_over in *.
      destruct (score_dates' model rest []) as [es0|e0].
      * destruct H1 as (es & E1 & Hes). destruct H2 as (mp' & E2 & Hmp').
        rewrite E1. exists mp'. split; [exact E2|].
        intros d'. rewrite Hmp', Hes, HX. symmetry. apply override_assoc.
      * destruct H1 as (E0 & E1). destruct H2 as (_ & E2).
        rewrite E1. split; [reflexivity | exact E2].
    + apply score_date_raises_ValueError in E. subst e. split; reflexivity.
Qed.

Lemma run_split_laid_over sp mp :
  laid_over (split_entries' sp) mp (run_split' mp sp).
Proof.
  unfold split_entries, run_split.
  destruct (length _ <? min_train_rows)%nat.
  - simpl. exists mp. split; reflexivity.
  - apply score_dates_laid_over.
Qed.

Lemma writes_or_not l d :
  (exists w, some_writes' l d w) \/ none_writes' l d.
Proof.
  induction l as [|sp r IH].
  - right. intros sp es [].
  - destruct IH as [[w (sp' & es & Hin & He & Hg)] | Hnone].
    + left. exists w, sp', es. repeat split; [right; exact Hin | exact He | exact Hg].
    + destruct (split_entries' sp) as [es|e] eqn:Ees.
      * destruct (dict_get d es) as [w|] eqn:Eg.
        -- left. exists w, sp, es. repeat split; [left; reflexivity | exact Ees | exact Eg].
        -- right. intros sp' es' [<- | Hin] He.
           ++ rewrite Ees in He. injection He as <-. exact Eg.
           ++ eapply Hnone; eassumption.
      * right. intros sp' es' [<- | Hin] He.
        -- rewrite Ees in He. discriminate.
        -- eapply Hnone; eassumption.
Qed.

Lemma run_splits_outcome l :
  agree' l ->
  forall mp,
    ((exists sp, In sp l /\ raises (split_entries' sp))
     /\ run_splits' l mp = Raise ValueError)
    \/ ((forall sp, In sp l -> returns_value (split_entries' sp))
        /\ exists m', run_splits' l mp = Ok m'
             /\ forall d w, dict_get d m' = Some w <-> written' l mp d w).
Proof.
  induction l as [|sp r IH]; intros Hag mp.
  - right. split; [intros sp []|].
    exists mp. split; [reflexivity|].
    intros d w. unfold written. split.
    + intros H. right. split; [intros sp es []|exact H].
    + intros [(sp & es & [] & _) | [_ H]]. exact H.
  - assert (Hag' : agree' r).
    { intros sp1 sp2 es1 es2 d w1 w2 H1 H2. apply Hag; right; assumption. }
    pose proof (run_split_laid_over sp mp) as Hsp. unfold laid_over in Hsp.
    simpl. destruct (split_entries' sp) as [es|e] eqn:Ees.
    + destruct Hsp as (mp1 & -> & Hmp1). simpl.
      destruct (IH Hag' mp1) as [[(sp' & Hin & Hr) ->] | [Hall (m' & -> & Hm')]].
      * left. split; [|reflexivity]. exists sp'. split; [right; exact Hin|exact Hr].
      * right. split.
        { intros sp' [<- | Hin]; [exists es; exact Ees | apply Hall; exact Hin]. }
        exists m'. split; [reflexivity|].
        intros d w. rewrite Hm'. unfold written. split.
        -- intros [(sp' & es' & Hin & He & Hg) | [Hnone Hg]].
           ++ left. exists sp', es'. repeat split; [right; exact Hin| exact He | exact Hg].
           ++ rewrite Hmp1 in Hg. destruct (dict_get d es) as [w0|] eqn:Eg; simpl in Hg.
              ** injection Hg as <-. left. exists sp, es.
                 repeat split; [left; reflexivity | exact Ees | exact Eg].
              ** right. split; [|exact Hg].
                 intros sp' es' [<- | Hin] He.
                 --- rewrite Ees in He. injection He as <-. exact Eg.
                 --- eapply Hnone; eassumption.
        -- intros [(sp' & es' & [<- | Hin] & He & Hg) | [Hnone Hg]].
           ++ rewrite Ees in He. injection He as <-.
              destruct (writes_or_not r d) as [[w2 (sp2 & es2 & Hin2 & He2 & Hg2)] | Hnone].
              ** left. exists sp2, es2. repeat split; try assumption.
                 rewrite Hg2. f_equal.
                 eapply (Hag sp2 sp es2 es d w2 w); try eassumption;
                   [right; exact Hin2 | left; reflexivity].
              ** right. split; [exact Hnone|]. rewrite Hmp1, Hg. reflexivity.
           ++ left. exists sp', es'. repeat split; assumption.
           ++ right. split.
              ** intros sp' es' Hin He. eapply Hnone; [right; exact Hin | exact He].
              ** rewrite Hmp1.
                 rewrite (Hnone sp es (or_introl eq_refl) Ees). exact Hg.
    + destruct Hsp as (-> & ->). simpl. left. split; [|reflexivity].
      exists sp. split; [left; reflexivity|]. exists ValueError. exact Ees.
Qed.

Lemma run_splits_app l1 l2 mp :
  run_splits' (l1 ++ l2) mp = (m <- run_splits' l1 mp ;; run_splits' l2 m).
Proof.
  revert mp. induction l1 as [|sp r IH]; intros mp; [reflexivity|].
  cbn [app run_splits]. destruct (run_split' mp sp) as [m|e]; [apply IH | reflexivity].
Qed.

(** In the sequential loop the split processed last decides the entry of
    every date it writes. *)
Lemma later_split_overwrites l sp mp m es d w :
  run_splits' l mp = Ok m ->
  split_entries' sp = Ok es ->
  dict_get d es = Some w ->
  exists m', run_splits' (l ++ [sp]) mp = Ok m' /\ dict_get d m' = Some w.
Proof.
  intros Hl Hes Hd. rewrite run_splits_app, Hl. cbn [bind run_splits].
  pose proof (run_split_laid_over sp m) as H. unfold laid_over in H. rewrite Hes in H.
  destruct H as (m' & E & Hget). rewrite E. exists m'. split; [reflexivity|].
  rewrite Hget, Hd. reflexivity.
Qed.

Lemma agree_of_single_producer l :
  single_producer fit predict usable top_q bot_q min_universe seed l -> agree' l.
Proof.
  intros Hs sp1 sp2 es1 es2 d w1 w2 H1 H2 E1 E2 G1 G2.
  assert (sp1 = sp2).
  { apply (Hs sp1 sp2 d H1 H2).
    - exists es1, w1. split; assumption.
    - exists es2, w2. split; assumption. }
  subst sp2. rewrite E1 in E2. injection E2 as <-. congruence.
Qed.

Lemma agree_perm l l' : Permutation l l' -> agree' l -> agree' l'.
Proof.
  intros HP Hag sp1 sp2 es1 es2 d w1 w2 H1 H2.
  apply Hag; eapply Permutation_in; try eassumption; apply Permutation_sym; exact HP.
Qed.

Lemma written_perm l l' mp d w : Permutation l l' -> written' l mp d w -> written' l' mp d w.
Proof.
  intros HP [(sp & es & Hin & He & Hg) | [Hnone Hg]].
  - left. exists sp, es. repeat split; try assumption.
    eapply Permutation_in; eassumption.
  - right. split; [|exact Hg].
    intros sp es Hin. apply Hnone.
    eapply Permutation_in; [apply Permutation_sym; exact HP | exact Hin].
Qed.

(** C3, amended.  When every date is produced by one split only, the
    walk-forward loop ends in the same date-to-weights mapping whatever
    the order in which the splits are processed. *)
Theorem merge_order_irrelevant_when_single_producer :
  forall splits,
    single_producer fit predict usable top_q bot_q min_universe seed splits ->
    order_irrelevant fit predict usable top_q bot_q min_universe seed splits.
Proof.
  intros splits Hs perm HP.
  pose proof (agree_of_single_producer Hs) as Hag.
  pose proof (agree_perm HP Hag) as Hag'.
  destruct (run_splits_outcome Hag []) as [[(sp & Hin & Hr) E1] | [Hall (m1 & E1 & Hm1)]];
    destruct (run_splits_outcome Hag' []) as [[(sp' & Hin' & Hr') E2] | [Hall' (m2 & E2 & Hm2)]];
    rewrite E1, E2; simpl.
  - reflexivity.
  - destruct Hr as [e He].
    destruct (Hall' sp (Permutation_in _ HP Hin)) as [a Ha]. congruence.
  - destruct Hr' as [e He].
    destruct (Hall sp' (Permutation_in _ (Permutation_sym HP) Hin')) as [a Ha]. congruence.
  - intros d. apply option_eq_by_some. intros w.
    rewrite Hm1, Hm2. split; apply written_perm; [exact HP | apply Permutation_sym; exact HP].
Qed.

End WalkForward.

Lemma same_schedule_lookup (r1 r2 : result PositionSchedule) (d : Timestamp) :
  same_schedule r1 r2 -> schedule_lookup r1 d = schedule_lookup r2 d.
Proof.
  destruct r1, r2; simpl; intros H; try contradiction; auto.
Qed.

Section WalkForwardToy.
Local Open Scope Q_scope.
Local Open Scope string_scope.

(** On the toy panel [generate_monthly_positions] is the loop over
    [Toy.splits] started from the empty schedule. *)
Lemma toy_generate_is_run :
  generate_monthly_positions Toy.fit Toy.predict Toy.panel ["close"] Toy.rebal_dates
    (1 # 10) (1 # 10) 50 42
  = Toy.run Toy.splits [].
Proof. vm_compute. reflexivity. Qed.

Lemma merge_order_irrelevant_witness :
  single_producer Toy.fit Toy.predict Toy.usable (1 # 10) (1 # 10) 50 42 Toy.splits_1m
  /\ order_irrelevant Toy.fit Toy.predict Toy.usable (1 # 10) (1 # 10) 50 42 Toy.splits_1m.
Proof.
  assert (H : single_producer Toy.fit Toy.predict Toy.usable (1 # 10) (1 # 10) 50 42
                Toy.splits_1m).
  { intros sp1 sp2 d H1 H2 (m1 & w1 & E1 & G1) (m2 & w2 & E2 & G2).
    vm_compute in H1. vm_compute in H2.
    destruct H1 as [<- | [<- | []]]; destruct H2 as [<- | [<- | []]];
      try reflexivity; exfalso;
      vm_compute in E1; vm_compute in E2;
      injection E1 as <-; injection E2 as <-;
      simpl in G1, G2;
      destruct (ts_eqb d _) eqn:T1 in G1; try discriminate G1;
      destruct (ts_eqb d _) eqn:T2 in G2; try discriminate G2;
      apply ts_eqb_eq in T1; apply ts_eqb_eq in T2; congruence. }
  split; [exact H|].
  exact (merge_order_irrelevant_when_single_producer H).
Defined.

(** C3 as stated fails on the splits of [generate_monthly_positions]: the
    test windows of the last two candidate dates both contain the last
    month end, both splits write an entry there, and processing them in
    reverse order changes that entry. *)
Lemma merge_order_counterexample :
  ~ single_producer Toy.fit Toy.predict Toy.usable (1 # 10) (1 # 10) 50 42 Toy.splits
  /\ ~ order_irrelevant Toy.fit Toy.predict Toy.usable (1 # 10) (1 # 10) 50 42 Toy.splits.
Proof.
  split.
  - intros H.
    assert (E : nth 0 Toy.splits ([], []) = nth 1 Toy.splits ([], [])).
    { apply (H _ _ (Toy.month_end 25)).
      - vm_compute. left. reflexivity.
      - vm_compute. right. left. reflexivity.
      - eexists. eexists. split; vm_compute; reflexivity.
      - eexists. eexists. split; vm_compute; reflexivity. }
    vm_compute in E. discriminate E.
  - intros H.
    specialize (H (rev Toy.splits) (Permutation_rev Toy.splits)).
    apply same_schedule_lookup with (d := Toy.month_end 25) in H.
    vm_compute in H. discriminate H.
Qed.

End WalkForwardToy.

(* ================================================================= *)
(** ** The position builder *)

Section Rationals.
Local Open Scope Q_scope.

Lemma Qlt_bool_iff (a b : Q) : Qlt_bool a b = true <-> a < b.
Proof.
  unfold Qlt_bool. rewrite Bool.negb_true_iff.
  split.
  - intros H. apply Qnot_le_lt. intros Hle.
    apply Qle_bool_iff in Hle. congruence.
  - intros H. destruct (Qle_bool b a) eqn:E; [|reflexivity].
    apply Qle_bool_iff in E. exfalso. apply (Qlt_not_le _ _ H). exact E.
Qed.

Lemma Qlt_bool_false_iff (a b : Q) : Qlt_bool a b = false <-> b <= a.
Proof.
  split.
  - intros H. apply Qnot_lt_le. intros Hlt. apply Qlt_bool_iff in Hlt. congruence.
  - intros H. destruct (Qlt_bool a b) eqn:E; [|reflexivity].
    apply Qlt_bool_iff in E. exfalso. apply (Qlt_not_le _ _ E). exact H.
Qed.

Lemma inject_nat_S (k : nat) :
  inject_Z (Z.of_nat (S k)) == 1 + inject_Z (Z.of_nat k).
Proof.
  rewrite Nat2Z.inj_succ. unfold Z.succ. rewrite inject_Z_plus. ring.
Qed.

Lemma inject_nat_pos (k : nat) : (0 < k)%nat -> 0 < inject_Z (Z.of_nat k).
Proof.
  intros H. change 0 with (inject_Z 0). rewrite <- Zlt_Qlt. lia.
Qed.

Lemma inject_nat_lt (k n : nat) :
  (k < n)%nat -> inject_Z (Z.of_nat k) < inject_Z (Z.of_nat n).
Proof. intros H. rewrite <- Zlt_Qlt. lia. Qed.

End Rationals.

Section PositionBuilder.
Local Open Scope Q_scope.

Lemma mem_In (t : ticker) (l : list ticker) : mem t l = true <-> In t l.
Proof.
  unfold mem. rewrite existsb_exists. split.
  - intros (y & Hy & E). apply String.eqb_eq in E. subst y. exact Hy.
  - intros H. exists t. split; [exact H | apply String.eqb_refl].
Qed.

Lemma NoDup_fst_inj (s : Series) (e e' : ticker * Q) :
  NoDup (map fst s) -> In e s -> In e' s -> fst e = fst e' -> e = e'.
Proof.
  induction s as [|a r IH]; simpl; intros Hnd He He' Hf; [contradiction|].
  inversion Hnd as [|? ? Hnotin Hnd']; subst.
  destruct He as [<- | He]; destruct He' as [<- | He'].
  - reflexivity.
  - exfalso. apply Hnotin. rewrite Hf. apply in_map. exact He'.
  - exfalso. apply Hnotin. rewrite <- Hf. apply in_map. exact He.
  - apply IH; assumption.
Qed.

(** With unique tickers, a row's label is among the labels selected by a
    test on the score exactly when the row itself passes the test. *)
Lemma mem_selected (p : Q -> bool) (s : Series) (e : ticker * Q) :
  NoDup (map fst s) -> In e s ->
  mem (fst e) (map fst (filter (fun e' => p (snd e')) s)) = p (snd e).
Proof.
  intros Hnd He.
  destruct (p (snd e)) eqn:Ep.
  - apply mem_In. apply in_map. apply filter_In. split; assumption.
  - destruct (mem _ _) eqn:Em; [|reflexivity].
    apply mem_In in Em. apply in_map_iff in Em. destruct Em as (e' & Hf & Hin).
    apply filter_In in Hin. destruct Hin as [Hin Hp].
    assert (e' = e) by (apply (NoDup_fst_inj s); assumption).
    subst e'. congruence.
Qed.

Lemma assign_weights_rows (long_cut short_cut : flt) (s : Series) :
  assign_weights long_cut short_cut s
  = map (fun e => (fst e, weight_of (longs_of long_cut s) (shorts_of short_cut s) (fst e))) s.
Proof.
  unfold assign_weights, weight_of, loc_set.
  destruct (0 <? length (longs_of long_cut s))%nat;
    destruct (0 <? length (shorts_of short_cut s))%nat;
    rewrite ?map_map; apply map_ext; intros e; simpl;
    rewrite ?Bool.andb_true_r, ?Bool.andb_false_r;
    destruct (mem (fst e) (longs_of long_cut s)); simpl;
    destruct (mem (fst e) (shorts_of short_cut s)); reflexivity.
Qed.

Lemma series_get_rows (f : ticker -> Q) (s : Series) (t : ticker) (x : Q) :
  In (t, x) s -> series_get t (map (fun e => (fst e, f (fst e))) s) = Some (f t).
Proof.
  induction s as [|[t' x'] r IH]; simpl; [contradiction|].
  intros [E | Hin].
  - injection E as -> ->. rewrite String.eqb_refl. reflexivity.
  - destruct (String.eqb t t') eqn:Et.
    + apply String.eqb_eq in Et. subst t'. reflexivity.
    + apply IH. exact Hin.
Qed.

Lemma nonempty_length (A : Type) (l : list A) (a : A) :
  In a l -> (0 <? length l)%nat = true.
Proof. destruct l; simpl; [contradiction | reflexivity]. Qed.

(** The sum of the positive entries counts the rows that end long. *)
Lemma sum_positive_rows (inS inL : ticker -> bool) (a b : Q) (s : Series) :
  0 < a -> b <= 0 ->
  sum_positive
    (map (fun e => (fst e, if inS (fst e) then b else if inL (fst e) then a else 0)) s)
  == inject_Z (Z.of_nat
       (length (filter (fun e => negb (inS (fst e)) && inL (fst e)) s))) * a.
Proof.
  intros Ha Hb. unfold sum_positive.
  assert (Eb : Qlt_bool 0 b = false) by (apply Qlt_bool_false_iff; exact Hb).
  assert (Ea : Qlt_bool 0 a = true) by (apply Qlt_bool_iff; exact Ha).
  assert (E0 : Qlt_bool 0 0 = false) by reflexivity.
  induction s as [|e r IH].
  - cbn. ring.
  - cbn [map filter fst snd].
    destruct (inS (fst e)); cbn [negb andb].
    + rewrite Eb. exact IH.
    + destruct (inL (fst e)).
      * rewrite Ea. cbn [map snd Qsum fold_right length].
        rewrite inject_nat_S. unfold Qsum in IH. rewrite IH. ring.
      * rewrite E0. exact IH.
Qed.

(** The sum of the negative entries counts the rows that end short. *)
Lemma sum_negative_rows (inS inL : ticker -> bool) (a b : Q) (s : Series) :
  0 <= a -> b < 0 ->
  sum_negative
    (map (fun e => (fst e, if inS (fst e) then b else if inL (fst e) then a else 0)) s)
  == inject_Z (Z.of_nat (length (filter (fun e => inS (fst e)) s))) * b.
Proof.
  intros Ha Hb. unfold sum_negative.
  assert (Eb : Qlt_bool b 0 = true) by (apply Qlt_bool_iff; exact Hb).
  assert (Ea : Qlt_bool a 0 = false) by (apply Qlt_bool_false_iff; exact Ha).
  assert (E0 : Qlt_bool 0 0 = false) by reflexivity.
  induction s as [|e r IH].
  - cbn. ring.
  - cbn [map filter fst snd].
    destruct (inS (fst e)).
    + rewrite Eb. cbn [map snd Qsum fold_right length].
      rewrite inject_nat_S. unfold Qsum in IH. rewrite IH. ring.
    + destruct (inL (fst e)).
      * rewrite Ea. exact IH.
      * rewrite E0. exact IH.
Qed.

Lemma filter_length_le (A : Type) (p q : A -> bool) (l : list A) :
  (length (filter (fun x => p x && q x) l) <= length (filter q l))%nat.
Proof.
  induction l as [|x r IH]; simpl; [lia|].
  destruct (q x); destruct (p x); simpl; lia.
Qed.

Lemma filter_length_lt (A : Type) (p q : A -> bool) (l : list A) (x0 : A) :
  In x0 l -> q x0 = true -> p x0 = false ->
  (length (filter (fun x => p x && q x) l) < length (filter q l))%nat.
Proof.
  induction l as [|x r IH]; simpl; [contradiction|].
  intros [-> | Hin] Hq Hp.
  - rewrite Hq, Hp. simpl. pose proof (filter_length_le p q r). lia.
  - specialize (IH Hin Hq Hp). destruct (q x); destruct (p x); simpl; lia.
Qed.

Lemma unique_labels_NoDup (l : list ticker) : unique_labels l = true -> NoDup l.
Proof.
  induction l as [|t r IH]; simpl; intros H; constructor.
  - apply Bool.andb_true_iff in H. destruct H as [H _].
    apply Bool.negb_true_iff in H. intros Hin. apply mem_In in Hin. congruence.
  - apply IH. apply Bool.andb_true_iff in H. exact (proj2 H).
Qed.

Lemma long_weight_pos (l : list ticker) : (0 < length l)%nat -> 0 < 1 / len l.
Proof.
  intros H. apply Qlt_shift_div_l; [apply inject_nat_pos; exact H|].
  rewrite Qmult_0_l. reflexivity.
Qed.

Lemma long_weight_nonneg (l : list ticker) : 0 <= 1 / len l.
Proof.
  destruct l as [|t r]; [discriminate|].
  apply Qlt_le_weak. apply long_weight_pos. simpl. lia.
Qed.

Lemma short_weight_neg (l : list ticker) : (0 < length l)%nat -> -(1) / len l < 0.
Proof.
  intros H. apply Qlt_shift_div_r; [apply inject_nat_pos; exact H|].
  rewrite Qmult_0_l. reflexivity.
Qed.

Lemma short_weight_nonpos (l : list ticker) : -(1) / len l <= 0.
Proof.
  destruct l as [|t r]; [discriminate|].
  apply Qlt_le_weak. apply short_weight_neg. simpl. lia.
Qed.

Lemma len_times_inv (l : list ticker) (c : Q) :
  (0 < length l)%nat -> len l * (c / len l) == c.
Proof.
  intros H. pose proof (inject_nat_pos H) as Hp. unfold len.
  field. intros E. rewrite E in Hp. discriminate Hp.
Qed.

Lemma count_over_len_lt_1 (k : nat) (l : list ticker) :
  (k < length l)%nat -> inject_Z (Z.of_nat k) * (1 / len l) < 1.
Proof.
  intros H.
  assert (Hp : 0 < len l) by (apply inject_nat_pos; lia).
  assert (E : inject_Z (Z.of_nat k) * (1 / len l) == inject_Z (Z.of_nat k) / len l).
  { field. intros E. rewrite E in Hp. discriminate Hp. }
  rewrite E. apply Qlt_shift_div_r; [exact Hp|].
  rewrite Qmult_1_l. apply inject_nat_lt. exact H.
Qed.

Section OneCrossSection.
Variables long_cut short_cut : flt.
Variable s : Series.
Hypothesis unique : NoDup (map fst s).

Local Notation "'longs'" := (longs_of long_cut s).
Local Notation "'shorts'" := (shorts_of short_cut s).
Local Notation "'w'" := (assign_weights long_cut short_cut s).

Lemma in_longs (e : ticker * Q) :
  In e s -> mem (fst e) longs = ge_cut long_cut (snd e).
Proof. intros H. apply (mem_selected (ge_cut long_cut) s e unique H). Qed.

Lemma in_shorts (e : ticker * Q) :
  In e s -> mem (fst e) shorts = le_cut short_cut (snd e).
Proof. intros H. apply (mem_selected (le_cut short_cut) s e unique H). Qed.

Lemma length_longs : length longs = length (filter (fun e => ge_cut long_cut (snd e)) s).
Proof. apply length_map. Qed.

Lemma length_shorts : length shorts = length (filter (fun e => le_cut short_cut (snd e)) s).
Proof. apply length_map. Qed.

(** The rows that end with the long weight are those in the long leg and
    not in the short leg. *)
Lemma sum_positive_count :
  (0 < length longs)%nat ->
  sum_positive w
  == inject_Z (Z.of_nat (length (filter
        (fun e => negb (le_cut short_cut (snd e)) && ge_cut long_cut (snd e)) s)))
     * (1 / len longs).
Proof.
  intros HL. rewrite assign_weights_rows. unfold weight_of.
  pose proof (sum_positive_rows
                (fun t => mem t (shorts_of short_cut s)
                          && (0 <? length (shorts_of short_cut s))%nat)
                (fun t => mem t (longs_of long_cut s)
                          && (0 <? length (longs_of long_cut s))%nat)
                s (long_weight_pos _ HL) (short_weight_nonpos (shorts_of short_cut s)))
    as Hsum.
  cbv beta in Hsum. rewrite Hsum. clear Hsum.
  apply Qmult_comp; [|reflexivity].
  f_equiv. do 2 f_equal. apply filter_ext_in. intros e He.
  rewrite (in_longs e He), (in_shorts e He).
  apply Nat.ltb_lt in HL. rewrite HL, Bool.andb_true_r.
  destruct (le_cut short_cut (snd e)) eqn:Els; simpl.
  - assert (Hs : (0 <? length shorts)%nat = true).
    { apply nonempty_length with (fst e). apply mem_In.
      rewrite (in_shorts e He). exact Els. }
    rewrite Hs. reflexivity.
  - reflexivity.
Qed.

(** With unique tickers the short leg always sums to minus one. *)
Lemma short_leg_sums_to_minus_one :
  (0 < length shorts)%nat -> sum_negative w == -(1).
Proof.
  intros HS. rewrite assign_weights_rows. unfold weight_of.
  pose proof (sum_negative_rows
                (fun t => mem t (shorts_of short_cut s)
                          && (0 <? length (shorts_of short_cut s))%nat)
                (fun t => mem t (longs_of long_cut s)
                          && (0 <? length (longs_of long_cut s))%nat)
                s (long_weight_nonneg (longs_of long_cut s)) (short_weight_neg _ HS))
    as Hsum.
  cbv beta in Hsum. rewrite Hsum. clear Hsum.
  assert (E : length (filter (fun e => mem (fst e) (shorts_of short_cut s)
                                        && (0 <? length (shorts_of short_cut s))%nat) s)
              = length (shorts_of short_cut s)).
  { etransitivity; [|symmetry; apply length_shorts].
    f_equal. apply filter_ext_in. intros e He.
    rewrite (in_shorts e He). apply Nat.ltb_lt in HS. rewrite HS.
    apply Bool.andb_true_r. }
  rewrite E. apply len_times_inv. exact HS.
Qed.

(** When no row is in both legs, the long leg sums to one. *)
Lemma long_leg_sums_to_one_when_disjoint :
  (forall e, In e s -> ge_cut long_cut (snd e) = true -> le_cut short_cut (snd e) = false) ->
  (0 < length longs)%nat -> sum_positive w == 1.
Proof.
  intros Hdisj HL. rewrite (sum_positive_count HL).
  assert (E : length (filter
                (fun e => negb (le_cut short_cut (snd e)) && ge_cut long_cut (snd e)) s)
              = length longs).
  { rewrite length_longs. f_equal. apply filter_ext_in. intros e He.
    destruct (ge_cut long_cut (snd e)) eqn:Eg.
    - rewrite (Hdisj e He Eg). reflexivity.
    - apply Bool.andb_false_r. }
  rewrite E. apply len_times_inv. exact HL.
Qed.

(** A ticker in neither leg keeps weight exactly zero. *)
Lemma unselected_weight_zero (t : ticker) (x : Q) :
  In (t, x) s -> ge_cut long_cut x = false -> le_cut short_cut x = false ->
  series_get t w = Some 0.
Proof.
  intros Hin Hg Hl. rewrite assign_weights_rows.
  rewrite (series_get_rows _ s t x Hin). unfold weight_of.
  pose proof (in_longs (t, x) Hin) as EL. pose proof (in_shorts (t, x) Hin) as ES.
  simpl in EL, ES. rewrite EL, ES, Hg, Hl. reflexivity.
Qed.

(** A row in both legs ends with the short weight, and the long leg then
    sums to less than one. *)
Lemma overlap_short_wins (t : ticker) (x : Q) :
  In (t, x) s -> ge_cut long_cut x = true -> le_cut short_cut x = true ->
  series_get t w = Some (-(1) / len shorts)
  /\ longs <> []
  /\ sum_positive w < 1.
Proof.
  intros Hin Hg Hl.
  pose proof (in_longs (t, x) Hin) as EL. pose proof (in_shorts (t, x) Hin) as ES.
  simpl in EL, ES. rewrite Hg in EL. rewrite Hl in ES.
  assert (HL : (0 <? length longs)%nat = true)
    by (apply nonempty_length with t; apply mem_In; exact EL).
  assert (HS : (0 <? length shorts)%nat = true)
    by (apply nonempty_length with t; apply mem_In; exact ES).
  repeat split.
  - rewrite assign_weights_rows.
    rewrite (series_get_rows _ s t x Hin). unfold weight_of.
    rewrite ES, HS. reflexivity.
  - intros E. rewrite E in HL. discriminate HL.
  - apply Nat.ltb_lt in HL. rewrite (sum_positive_count HL).
    apply count_over_len_lt_1. rewrite length_longs.
    apply (filter_length_lt (fun e => negb (le_cut short_cut (snd e)))
                            (fun e => ge_cut long_cut (snd e)) s (t, x)).
    + exact Hin.
    + exact Hg.
    + simpl. rewrite Hl. reflexivity.
Qed.

End OneCrossSection.

(** C10.  In a cross-section (tickers unique) where some ticker's score is
    at or above the long threshold and at or below the short threshold, the
    position builder leaves the short weight -1/|shorts| on that ticker,
    because the short assignment is written after the long one; the long
    leg is nonempty and yet the positive entries of the weight vector sum
    to strictly less than one. *)
Theorem short_leg_overwrites_long_leg :
  forall (top_q bot_q : Q) (s : Series) (long_cut short_cut : flt) (t : ticker) (x : Q),
    NoDup (map fst s) ->
    quantile (map snd s) (1 - top_q) = Ok long_cut ->
    quantile (map snd s) bot_q = Ok short_cut ->
    In (t, x) s ->
    ge_cut long_cut x = true ->
    le_cut short_cut x = true ->
    exists w,
      position_weights top_q bot_q s = Ok w
      /\ series_get t w = Some (-(1) / len (shorts_of short_cut s))
      /\ longs_of long_cut s <> []
      /\ sum_positive w < 1.
Proof.
  intros top_q bot_q s long_cut short_cut t x Hnd HQ1 HQ2 Hin Hg Hl.
  exists (assign_weights long_cut short_cut s). split.
  - unfold position_weights. rewrite HQ1, HQ2. reflexivity.
  - exact (overlap_short_wins long_cut short_cut s Hnd t x Hin Hg Hl).
Qed.

End PositionBuilder.

Section FlatScores.
Local Open Scope Q_scope.
Local Open Scope string_scope.

Lemma flat_scores_unique : NoDup (map fst Toy.flat_scores).
Proof. apply unique_labels_NoDup. vm_compute. reflexivity. Qed.

Lemma short_leg_overwrites_long_leg_witness :
  exists long_cut short_cut,
    quantile (map snd Toy.flat_scores) (1 - (1 # 10)) = Ok long_cut
    /\ quantile (map snd Toy.flat_scores) (1 # 10) = Ok short_cut
    /\ In ("T00", 1 # 100) Toy.flat_scores
    /\ ge_cut long_cut (1 # 100) = true
    /\ le_cut short_cut (1 # 100) = true
    /\ exists w,
         position_weights (1 # 10) (1 # 10) Toy.flat_scores = Ok w
         /\ series_get "T00" w = Some (-(1) / len (shorts_of short_cut Toy.flat_scores))
         /\ longs_of long_cut Toy.flat_scores <> []
         /\ sum_positive w < 1.
Proof.
  eexists. eexists.
  assert (HL : quantile (map snd Toy.flat_scores) (1 - (1 # 10))
               = Ok (Some (100000 # 10000000))) by (vm_compute; reflexivity).
  assert (HS : quantile (map snd Toy.flat_scores) (1 # 10)
               = Ok (Some (100000 # 10000000))) by (vm_compute; reflexivity).
  assert (Hin : In ("T00", 1 # 100) Toy.flat_scores) by (vm_compute; left; reflexivity).
  split; [exact HL|]. split; [exact HS|]. split; [exact Hin|].
  split; [reflexivity|]. split; [reflexivity|].
  apply (@short_leg_overwrites_long_leg (1 # 10) (1 # 10) Toy.flat_scores
           _ _ "T00" (1 # 100) flat_scores_unique HL HS Hin); reflexivity.
Defined.

(** C2, at a failing input.  Fifty tickers with one and the same score,
    top_q = bot_q = 0.10: both thresholds equal that score, every ticker
    is in both legs, and the weight vector is -1/50 everywhere.  The long
    leg is nonempty but the positive entries sum to 0, not to 1; the
    negative entries do sum to -1.  The walk-forward loop, run with a
    regressor that scores every row alike, puts such a vector into the
    schedule. *)
Theorem flat_scores_lose_the_long_leg :
  (exists long_cut w,
     quantile (map snd Toy.flat_scores) (1 - (1 # 10)) = Ok long_cut
     /\ position_weights (1 # 10) (1 # 10) Toy.flat_scores = Ok w
     /\ w = map (fun e => (fst e, -1 # 50)) Toy.flat_scores
     /\ length (longs_of long_cut Toy.flat_scores) = 50%nat
     /\ sum_positive w == 0
     /\ ~ Qabs (sum_positive w - 1) <= 1 # 1000000000
     /\ sum_negative w == -(1))
  /\ (exists m,
        generate_monthly_positions Toy.fit Toy.predict_flat Toy.panel ["close"]
          Toy.rebal_dates (1 # 10) (1 # 10) 50 42 = Ok m
        /\ dict_get (Toy.month_end 25) m
           = Some (map (fun e => (fst e, -1 # 50)) Toy.flat_scores)).
Proof.
  split.
  - eexists. eexists.
    split; [vm_compute; reflexivity|].
    split; [vm_compute; reflexivity|].
    split; [vm_compute; reflexivity|].
    split; [vm_compute; reflexivity|].
    split; [vm_compute; reflexivity|].
    split; [|vm_compute; reflexivity].
    vm_compute. intros H. apply H. reflexivity.
  - eexists. split; vm_compute; reflexivity.
Qed.

End FlatScores.

(* ================================================================= *)
(** ** The portfolio simulator *)

Section Simulator.
Local Open Scope Q_scope.

Lemma map2_length (A B C : Type) (f : A -> B -> C) (l : list A) (m : list B) :
  length (map2 f l m) = Nat.min (length l) (length m).
Proof.
  revert m. induction l as [|a l IH]; intros [|b m]; simpl; auto.
Qed.

Lemma Forall_map2 (A B C : Type) (P : A -> Prop) (R : C -> Prop)
    (f : A -> B -> C) (l : list A) (m : list B) :
  (forall a b, P a -> R (f a b)) -> Forall P l -> Forall R (map2 f l m).
Proof.
  intros Hf Hl. revert m. induction Hl as [|a l Ha Hl IH]; intros [|b m]; simpl;
    constructor; auto.
Qed.

Lemma Forall_map2_both (A B C : Type) (P : A -> Prop) (Q' : B -> Prop) (R : C -> Prop)
    (f : A -> B -> C) (l : list A) (m : list B) :
  (forall a b, P a -> Q' b -> R (f a b)) ->
  Forall P l -> Forall Q' m -> Forall R (map2 f l m).
Proof.
  intros Hf Hl. revert m. induction Hl as [|a l Ha Hl IH]; intros [|b m] Hm; simpl;
    try constructor; inversion Hm; subst; auto.
Qed.

(** With a usable price panel and a nonempty schedule the simulator
    returns the series and statistics of [simulate]. *)
Lemma backtest_positions_returns panel px sched tc_bps :
  sched <> [] ->
  price_panel_ok panel px ->
  reindexable sched = true ->
  backtest_positions panel sched tc_bps
  = Ok (combine (dates (simulate px sched tc_bps)) (port_ret (simulate px sched tc_bps)),
        mkBacktestStats
          (compute_perf_stats (map Some (port_ret (simulate px sched tc_bps))) 252)
          (mean (turnover (simulate px sched tc_bps)))).
Proof.
  intros Hne (close & Hc & Hpx) Hu.
  unfold backtest_positions. destruct sched as [|e r]; [contradiction|].
  rewrite Hc. cbn [bind]. rewrite Hpx. cbn [bind]. rewrite Hu. reflexivity.
Qed.

Lemma empty_schedule_raises panel tc_bps :
  backtest_positions panel [] tc_bps = Raise RuntimeError.
Proof. reflexivity. Qed.

(** C8, amended.  On a price panel that has its close column and no
    duplicated (date, ticker) entry, and with weight vectors whose tickers
    are unique, the simulator raises exactly when the schedule is empty (a
    RuntimeError), and returns a result for every nonempty schedule. *)
Theorem simulator_fails_iff_empty_on_valid_input :
  forall panel px sched tc_bps,
    price_panel_ok panel px ->
    reindexable sched = true ->
    fails_iff_empty panel sched tc_bps
    /\ (sched = [] -> backtest_positions panel sched tc_bps = Raise RuntimeError)
    /\ (sched <> [] -> returns_value (backtest_positions panel sched tc_bps)).
Proof.
  intros panel px sched tc_bps Hok Hu.
  assert (Hret : sched <> [] -> returns_value (backtest_positions panel sched tc_bps)).
  { intros Hne. eexists. apply backtest_positions_returns; eassumption. }
  split; [|split].
  - split.
    + intros [e He]. destruct sched as [|x r]; [reflexivity|].
      destruct Hret as [a Ha]; [discriminate|]. congruence.
    + intros ->. exists RuntimeError. reflexivity.
  - intros ->. reflexivity.
  - exact Hret.
Qed.

Lemma scenario_panel_ok : price_panel_ok Scenario.panel Scenario.px.
Proof. eexists. split; vm_compute; reflexivity. Qed.

Lemma simulator_fails_iff_empty_witness :
  price_panel_ok Scenario.panel Scenario.px
  /\ reindexable Scenario.schedule = true
  /\ fails_iff_empty Scenario.panel Scenario.schedule 5
  /\ (Scenario.schedule = [] ->
      backtest_positions Scenario.panel Scenario.schedule 5 = Raise RuntimeError)
  /\ (Scenario.schedule <> [] ->
      returns_value (backtest_positions Scenario.panel Scenario.schedule 5)).
Proof.
  split; [exact scenario_panel_ok|]. split; [reflexivity|].
  exact (@simulator_fails_iff_empty_on_valid_input
           Scenario.panel Scenario.px Scenario.schedule 5 scenario_panel_ok eq_refl).
Defined.

(** C8 as stated fails: a nonempty schedule with a panel that has no
    close column raises (KeyError) instead of returning a result. *)
Lemma simulator_raises_on_nonempty_schedule :
  ~ fails_iff_empty Scenario.panel_without_close Scenario.schedule 5.
Proof.
  intros [H _].
  assert (E : Scenario.schedule = []).
  { apply H. exists KeyError. reflexivity. }
  discriminate E.
Qed.

(** C1, amended.  The cost of a weight change is charged on the day the
    projected weights change, not on the day after.  In the two-ticker
    scenario with the entry dated day 0 the weights are the same on day 0
    and day 1, so the turnover of day 1 and of day 2 is zero and the
    returns of day 1 and day 2 are 0.5*(110/100-1) + 0.5*(49/50-1) = 0.04
    and 0.5*(99/110-1) + 0.5*(52/49-1) = -19/980 (about -0.019388), both
    without cost.  With the same entry dated day 1 the turnover is 0, 0.5
    and 0: the cost 0.5*0.0005 falls on day 1, whose return is -0.00025,
    day 0 returns 0 and day 2 returns -19/980. *)
Theorem scenario_returns :
  returns_after_first_day Scenario.panel Scenario.schedule 5 [1 # 25; -19 # 980]
  /\ Forall (fun t => t == 0) (tl (turnover (simulate Scenario.px Scenario.schedule 5)))
  /\ returns_series Scenario.panel Scenario.schedule_day1 5 [0; -(1 # 4000); -19 # 980]
  /\ Forall2 Qeq (turnover (simulate Scenario.px Scenario.schedule_day1 5)) [0; 1 # 2; 0].
Proof.
  split; [|split; [|split]].
  - eexists. eexists. split.
    + apply (@backtest_positions_returns Scenario.panel Scenario.px);
        [discriminate | exact scenario_panel_ok | reflexivity].
    + vm_compute. repeat constructor.
  - vm_compute. repeat constructor.
  - eexists. eexists. split.
    + apply (@backtest_positions_returns Scenario.panel Scenario.px);
        [discriminate | exact scenario_panel_ok | reflexivity].
    + vm_compute. repeat constructor.
  - vm_compute. repeat constructor.
Qed.

(** C1 as stated fails: the day-1 return is 0.04, not 0.03975, not even
    within one basis point; day 1 carries no cost, since the weights do
    not change between day 0 and day 1. *)
Lemma scenario_returns_counterexample :
  ~ returns_series_within (1 # 10000) Scenario.panel Scenario.schedule 5
      [0; 3975 # 100000; -194 # 10000].
Proof.
  intros (series & stats & E & H).
  rewrite (@backtest_positions_returns Scenario.panel Scenario.px) in E;
    [|discriminate | exact scenario_panel_ok | reflexivity].
  injection E as <- _.
  vm_compute in H.
  apply Forall2_cons_iff in H. destruct H as [_ H].
  apply Forall2_cons_iff in H. destruct H as [H _].
  apply H. reflexivity.
Qed.

(* ----------------------------------------------------------------- *)
(** *** Turnover *)

Lemma Qsum_abs_nonneg (row : list Q) : 0 <= Qsum (map Qabs row).
Proof.
  induction row as [|x r IH]; simpl; [apply Qle_refl|].
  rewrite <- (Qplus_0_l 0). apply Qplus_le_compat; [apply Qabs_nonneg | exact IH].
Qed.

Lemma Qsum_zero (l : list Q) : Forall (fun x => x == 0) l -> Qsum l == 0.
Proof.
  induction 1 as [|x r Hx _ IH]; simpl; [reflexivity|].
  rewrite Hx, IH. ring.
Qed.

Lemma half_zero (x : Q) : x == 0 -> x / 2 == 0.
Proof. intros ->. reflexivity. Qed.

Lemma turnover_nonneg (dw : list (list Q)) :
  Forall (fun t => 0 <= t) (turnover_of dw).
Proof.
  unfold turnover_of. apply Forall_forall. intros t Ht.
  apply in_map_iff in Ht. destruct Ht as (row & <- & _).
  apply Qle_shift_div_l; [reflexivity|].
  rewrite Qmult_0_l. apply Qsum_abs_nonneg.
Qed.

Lemma nth_diff_from (prev : list Q) (rows : list (list Q)) (j : nat) :
  (j < length rows)%nat ->
  nth j (diff_from prev rows) []
  = map2 (fun p c => Some (c - p)) (nth j (prev :: rows) []) (nth (S j) (prev :: rows) []).
Proof.
  revert prev j. induction rows as [|r rest IH]; intros prev j Hj; simpl in Hj; [lia|].
  destruct j as [|j]; [reflexivity|].
  cbn [diff_from nth]. rewrite IH by lia. reflexivity.
Qed.

Lemma nth_diff (dw : list (list Q)) (j : nat) :
  (S j < length dw)%nat ->
  nth (S j) (diff dw) []
  = map2 (fun p c => Some (c - p)) (nth j dw []) (nth (S j) dw []).
Proof.
  destruct dw as [|r rest]; simpl; intros Hj; [lia|].
  apply nth_diff_from. lia.
Qed.

Lemma length_diff_from (prev : list Q) (rows : list (list Q)) :
  length (diff_from prev rows) = length rows.
Proof.
  revert prev. induction rows as [|r rest IH]; intros prev; simpl; [reflexivity|].
  rewrite IH. reflexivity.
Qed.

Lemma length_diff (dw : list (list Q)) : length (diff dw) = length dw.
Proof. destruct dw; simpl; [reflexivity | rewrite length_diff_from; reflexivity]. Qed.

Lemma length_turnover_of (dw : list (list Q)) : length (turnover_of dw) = length dw.
Proof. unfold turnover_of. rewrite !length_map. apply length_diff. Qed.

Lemma unchanged_rows_no_change (cur prev : list Q) :
  Forall2 Qeq cur prev ->
  Forall (fun x => x == 0)
    (map Qabs (map (fillna 0) (map2 (fun p c => Some (c - p)) prev cur))).
Proof.
  induction 1 as [|c p cur prev Hcp _ IH]; cbn [map map2 fillna]; constructor.
  - assert (E : c - p == 0) by (rewrite Hcp; ring).
    rewrite E. reflexivity.
  - exact IH.
Qed.

Lemma turnover_unchanged (dw : list (list Q)) (j : nat) :
  (S j < length dw)%nat ->
  Forall2 Qeq (nth (S j) dw []) (nth j dw []) ->
  nth (S j) (turnover_of dw) 0 == 0.
Proof.
  intros Hj Hsame.
  rewrite (nth_indep _ 0 (Qsum (map Qabs (map (fillna 0) [])) / 2))
    by (rewrite length_turnover_of; exact Hj).
  unfold turnover_of.
  rewrite (map_nth (fun row => Qsum (map Qabs row) / 2)).
  rewrite (map_nth (map (fillna 0))).
  rewrite (nth_diff dw Hj).
  apply half_zero. apply Qsum_zero. apply unchanged_rows_no_change. exact Hsame.
Qed.

(** C9.  On every day of the simulation turnover is at least zero, and it
    is zero on any day whose projected weight vector is the same as the
    prior day's. *)
Theorem turnover_nonneg_and_zero_when_unchanged :
  forall px sched tc_bps i,
    let sim := simulate px sched tc_bps in
    (i < length (dates sim))%nat ->
    0 <= nth i (turnover sim) 0
    /\ (unchanged_from_prior_day sim i -> nth i (turnover sim) 0 == 0).
Proof.
  intros px sched tc_bps i sim Hi.
  assert (Hlen : length (daily_w sim) = length (dates sim)).
  { unfold sim, simulate, project_weights. cbn [daily_w dates]. apply length_map. }
  change (turnover sim) with (turnover_of (daily_w sim)).
  split.
  - pose proof (turnover_nonneg (daily_w sim)) as H.
    rewrite Forall_forall in H. apply H. apply nth_In.
    rewrite length_turnover_of, Hlen. exact Hi.
  - intros (j & -> & Hsame).
    apply turnover_unchanged; [rewrite Hlen; exact Hi | exact Hsame].
Qed.

Lemma turnover_witness :
  (1 < length (dates (simulate Scenario.px Scenario.schedule 5)))%nat
  /\ unchanged_from_prior_day (simulate Scenario.px Scenario.schedule 5) 1
  /\ 0 <= nth 1 (turnover (simulate Scenario.px Scenario.schedule 5)) 0
  /\ nth 1 (turnover (simulate Scenario.px Scenario.schedule 5)) 0 == 0.
Proof.
  assert (Hi : (1 < length (dates (simulate Scenario.px Scenario.schedule 5)))%nat)
    by (vm_compute; lia).
  assert (Hu : unchanged_from_prior_day (simulate Scenario.px Scenario.schedule 5) 1).
  { exists 0%nat. split; [reflexivity|]. vm_compute. repeat constructor. }
  destruct (@turnover_nonneg_and_zero_when_unchanged
              Scenario.px Scenario.schedule 5 1%nat Hi) as [H0 H1].
  split; [exact Hi|]. split; [exact Hu|]. split; [exact H0 | exact (H1 Hu)].
Defined.

(* ----------------------------------------------------------------- *)
(** *** An all-zero schedule *)

Lemma In_row_insert (V : Type) (e x : Timestamp * V) (l : list (Timestamp * V)) :
  In e (row_insert x l) -> e = x \/ In e l.
Proof.
  induction l as [|y r IH]; simpl.
  - intros [<- | []]. left. reflexivity.
  - destruct (ts_leb (fst x) (fst y)); simpl.
    + intros [<- | H]; [left; reflexivity | right; exact H].
    + intros [<- | H]; [right; left; reflexivity|].
      destruct (IH H) as [-> | H']; [left; reflexivity | right; right; exact H'].
Qed.

Lemma In_sort_index (V : Type) (e : Timestamp * V) (l : list (Timestamp * V)) :
  In e (sort_index l) -> In e l.
Proof.
  induction l as [|x r IH]; simpl; [tauto|].
  intros H. apply In_row_insert in H. destruct H as [-> | H]; [left; reflexivity|].
  right. apply IH. exact H.
Qed.

Lemma asof_from (V : Type) (rows : list (Timestamp * V)) (d : Timestamp)
    (cur : option V) (w : V) :
  fold_left (fun c e => if ts_leb (fst e) d then Some (snd e) else c) rows cur = Some w ->
  cur = Some w \/ In w (map snd rows).
Proof.
  revert cur. induction rows as [|e r IH]; simpl; intros cur H; [left; exact H|].
  apply IH in H. destruct H as [H | H]; [|right; right; exact H].
  destruct (ts_leb (fst e) d); [|left; exact H].
  injection H as <-. right. left. reflexivity.
Qed.

Lemma asof_in (V : Type) (rows : list (Timestamp * V)) (d : Timestamp) (w : V) :
  asof rows d = Some w -> In w (map snd rows).
Proof.
  unfold asof. intros H. apply asof_from in H. destruct H as [H | H]; [discriminate | exact H].
Qed.

Lemma series_get_in (t : ticker) (s : Series) (x : Q) :
  series_get t s = Some x -> In (t, x) s.
Proof.
  induction s as [|[t' x'] r IH]; simpl; [discriminate|].
  destruct (String.eqb t t') eqn:E.
  - apply String.eqb_eq in E. subst t'. intros H. injection H as <-. left. reflexivity.
  - intros H. right. apply IH. exact H.
Qed.

Lemma zero_row_cells (cols : list ticker) : zero_cells (zero_row cols).
Proof.
  unfold zero_cells, zero_row. apply Forall_forall. intros x Hx.
  apply in_map_iff in Hx. destruct Hx as (_ & <- & _). reflexivity.
Qed.

Lemma position_frame_zero (cols : list ticker) (sched : PositionSchedule) :
  all_zero sched ->
  forall row, In row (map snd (position_frame cols sched)) -> zero_cells row.
Proof.
  intros Hz row Hrow. unfold position_frame in Hrow. rewrite map_map in Hrow. simpl in Hrow.
  apply in_map_iff in Hrow. destruct Hrow as (e & <- & He).
  apply In_sort_index in He.
  unfold all_zero in Hz. rewrite Forall_forall in Hz. specialize (Hz e He).
  rewrite Forall_forall in Hz.
  apply Forall_forall. intros x Hx. apply in_map_iff in Hx. destruct Hx as (t & <- & _).
  destruct (series_get t (snd e)) as [q|] eqn:Eg; simpl; [|reflexivity].
  apply series_get_in in Eg. exact (Hz _ Eg).
Qed.

Lemma project_weights_zero idx cols sched :
  all_zero sched ->
  zero_frame (project_weights idx cols (position_frame cols sched)).
Proof.
  intros Hz. unfold zero_frame, project_weights. apply Forall_forall. intros row Hrow.
  apply in_map_iff in Hrow. destruct Hrow as (d & <- & _).
  destruct (asof _ d) as [w|] eqn:Ea.
  - apply asof_in in Ea. eapply position_frame_zero; eassumption.
  - apply zero_row_cells.
Qed.

Lemma nan_row_filled (A : Type) (r : list A) :
  zero_cells (map (fillna 0) (map (fun _ => NaN) r)).
Proof.
  unfold zero_cells. rewrite map_map. apply Forall_forall. intros x Hx.
  apply in_map_iff in Hx. destruct Hx as (_ & <- & _). reflexivity.
Qed.

Lemma diff_from_zero (prev : list Q) (rows : list (list Q)) :
  zero_cells prev -> zero_frame rows ->
  zero_frame (map (map (fillna 0)) (diff_from prev rows)).
Proof.
  intros Hp Hr. revert prev Hp.
  induction Hr as [|r rest Hr0 _ IH]; intros prev Hp; simpl; constructor.
  - unfold zero_cells. clear IH. revert r Hr0.
    induction Hp as [|p prev Hp0 _ IHp]; intros [|c r] Hr0; simpl; constructor.
    + inversion Hr0; subst. rewrite Hp0. setoid_replace c with 0 by assumption. reflexivity.
    + inversion Hr0; subst. apply IHp. assumption.
  - apply IH. exact Hr0.
Qed.

Lemma diff_zero (dw : list (list Q)) :
  zero_frame dw -> zero_frame (map (map (fillna 0)) (diff dw)).
Proof.
  intros H. destruct H as [|r rest Hr Hrest]; simpl; constructor.
  - apply nan_row_filled.
  - apply diff_from_zero; assumption.
Qed.

Lemma turnover_zero (dw : list (list Q)) :
  zero_frame dw -> Forall (fun t => t == 0) (turnover_of dw).
Proof.
  intros H. apply diff_zero in H. unfold turnover_of.
  apply Forall_forall. intros t Ht. apply in_map_iff in Ht. destruct Ht as (row & <- & Hrow).
  unfold zero_frame in H. rewrite Forall_forall in H. specialize (H row Hrow).
  apply half_zero. apply Qsum_zero.
  apply Forall_forall. intros x Hx. apply in_map_iff in Hx. destruct Hx as (y & <- & Hy).
  unfold zero_cells in H. rewrite Forall_forall in H. rewrite (H y Hy). reflexivity.
Qed.

Lemma Forall_removelast (A : Type) (P : A -> Prop) (l : list A) :
  Forall P l -> Forall P (removelast l).
Proof.
  induction 1 as [|x r Hx Hr IH]; simpl; [constructor|].
  destruct r; [constructor|]. constructor; assumption.
Qed.

Lemma length_removelast_cons (A : Type) (x : A) (l : list A) :
  length (removelast (x :: l)) = length l.
Proof.
  revert x. induction l as [|y r IH]; intros x; [reflexivity|].
  change (S (length (removelast (y :: r))) = S (length r)).
  f_equal. apply IH.
Qed.

Lemma length_shift1 (dw : list (list Q)) : length (shift1 dw) = length dw.
Proof.
  destruct dw as [|r rest]; [reflexivity|].
  unfold shift1. cbn [length]. rewrite length_map, length_removelast_cons. reflexivity.
Qed.

Lemma shift1_zero (dw : list (list Q)) :
  zero_frame dw -> zero_frame (map (map (fillna 0)) (shift1 dw)).
Proof.
  intros H. destruct dw as [|r rest]; [constructor|].
  unfold shift1. cbn [map]. constructor; [apply nan_row_filled|].
  apply Forall_removelast in H.
  unfold zero_frame in *. rewrite Forall_forall in *.
  intros row Hrow. rewrite map_map in Hrow.
  apply in_map_iff in Hrow. destruct Hrow as (row0 & <- & Hrow0).
  rewrite map_map. cbn [fillna]. rewrite map_id. apply H. exact Hrow0.
Qed.

(** Zero weights earn nothing, whatever the returns (NaN included). *)
Lemma zero_weights_earn_nothing (w : list Q) (r : list flt) :
  zero_cells w -> nansum (map2 fmul w r) == 0.
Proof.
  intros H. unfold nansum. apply Qsum_zero. revert r.
  induction H as [|x w Hx _ IH]; intros [|[q|] r]; simpl; try constructor; auto.
  rewrite Hx. ring.
Qed.

Lemma length_pct_change_from (prev : list flt) (rows : list (list flt)) :
  length (pct_change_from prev rows) = length rows.
Proof.
  revert prev. induction rows as [|r rest IH]; intros prev; simpl; [reflexivity|].
  rewrite IH. reflexivity.
Qed.

Lemma length_pct_change (rows : list (list flt)) :
  length (pct_change rows) = length rows.
Proof.
  destruct rows; simpl; [reflexivity | rewrite length_pct_change_from; reflexivity].
Qed.

Lemma unstack_ticker_shape close px :
  unstack_ticker close = Ok px -> length (w_values px) = length (w_index px).
Proof.
  unfold unstack_ticker. destruct (has_duplicates close); [discriminate|].
  intros H. injection H as <-. simpl. apply length_map.
Qed.

Lemma map_fst_combine (A B : Type) (l : list A) (m : list B) :
  length l = length m -> map fst (combine l m) = l.
Proof.
  revert m. induction l as [|a l IH]; intros [|b m] H; simpl in *; try discriminate;
    [reflexivity|]. f_equal. apply IH. lia.
Qed.

(** One row per trading date in the returned series. *)
Lemma length_port_ret px sched tc_bps :
  length (w_values px) = length (w_index px) ->
  length (port_ret (simulate px sched tc_bps)) = length (w_index px).
Proof.
  intros Hshape. unfold simulate. cbn [port_ret].
  rewrite !map2_length, !length_map, length_shift1, length_turnover_of, length_pct_change.
  unfold project_weights. rewrite length_map, Hshape. lia.
Qed.

Lemma port_ret_zero px sched tc_bps :
  all_zero sched ->
  Forall (fun x => x == 0) (port_ret (simulate px sched tc_bps)).
Proof.
  intros Hz. unfold simulate. cbn [port_ret].
  pose proof (project_weights_zero (w_index px) (w_columns px) Hz) as Hdw.
  apply Forall_map2_both
    with (P := fun g => g == 0) (Q' := fun c => c == 0).
  - intros g c Hg Hc. rewrite Hg, Hc. reflexivity.
  - apply Forall_map2 with (P := zero_cells).
    + intros w r Hw. apply zero_weights_earn_nothing. exact Hw.
    + apply shift1_zero. exact Hdw.
  - apply turnover_zero in Hdw. apply Forall_forall. intros c Hc.
    apply in_map_iff in Hc. destruct Hc as (t & <- & Ht).
    rewrite Forall_forall in Hdw. rewrite (Hdw t Ht). ring.
Qed.

(** C5.  Given a usable price panel, a (nonempty) schedule whose every
    entry is an all-zero weight vector (over distinct tickers) yields a
    daily return series that has one entry per trading date and is zero on
    every one of them. *)
Theorem zero_schedule_zero_returns :
  forall panel px sched tc_bps,
    price_panel_ok panel px ->
    reindexable sched = true ->
    sched <> [] ->
    all_zero sched ->
    exists series stats,
      backtest_positions panel sched tc_bps = Ok (series, stats)
      /\ map fst series = w_index px
      /\ Forall (fun e => snd e == 0) series.
Proof.
  intros panel px sched tc_bps Hok Hu Hne Hz.
  eexists. eexists. split; [apply backtest_positions_returns; eassumption|].
  destruct Hok as (close & _ & Hpx). apply unstack_ticker_shape in Hpx.
  pose proof (length_port_ret px sched tc_bps Hpx) as Hlen.
  split.
  - apply map_fst_combine. cbn [dates simulate]. symmetry. exact Hlen.
  - pose proof (port_ret_zero px tc_bps Hz) as H0. rewrite Forall_forall in H0.
    apply Forall_forall. intros [d x] Hin. apply in_combine_r in Hin.
    simpl. apply H0. exact Hin.
Qed.

Lemma zero_schedule_zero_returns_witness :
  price_panel_ok Scenario.panel Scenario.px
  /\ reindexable Scenario.zero_schedule = true
  /\ Scenario.zero_schedule <> []
  /\ all_zero Scenario.zero_schedule
  /\ exists series stats,
       backtest_positions Scenario.panel Scenario.zero_schedule 5 = Ok (series, stats)
       /\ map fst series = w_index Scenario.px
       /\ Forall (fun e => snd e == 0) series.
Proof.
  assert (Hu : reindexable Scenario.zero_schedule = true) by reflexivity.
  assert (Hne : Scenario.zero_schedule <> []) by discriminate.
  assert (Hz : all_zero Scenario.zero_schedule).
  { unfold all_zero, Scenario.zero_schedule. repeat constructor. }
  split; [exact scenario_panel_ok|]. split; [exact Hu|].
  split; [exact Hne|]. split; [exact Hz|].
  exact (@zero_schedule_zero_returns
           Scenario.panel Scenario.px Scenario.zero_schedule 5
           scenario_panel_ok Hu Hne Hz).
Defined.

End Simulator.

(* ================================================================= *)
(** ** The performance analyzer *)

Section Analyzer.
Local Open Scope Q_scope.

Lemma dropna_map_Some (l : list Q) : dropna (map Some l) = l.
Proof. induction l as [|x r IH]; simpl; [reflexivity | rewrite IH; reflexivity]. Qed.

Lemma MaxDD_nonempty (returns : list flt) (freq : Z) (x : Q) (rest : list Q) :
  dropna returns = x :: rest ->
  MaxDD (compute_perf_stats returns freq) = max_drawdown (x :: rest).
Proof. unfold compute_perf_stats. intros ->. reflexivity. Qed.

Lemma empty_series_stats (returns : list flt) (freq : Z) :
  dropna returns = [] ->
  compute_perf_stats returns freq = mkPerfStats (Some 0%R) (Some 0%R) (Some 0).
Proof. unfold compute_perf_stats. intros ->. reflexivity. Qed.

(* ----------------------------------------------------------------- *)
(** *** Drawdown of a positive equity curve *)

Lemma nondecreasing_head (a b : Q) (l : list Q) :
  a == b -> nondecreasing (a :: l) -> nondecreasing (b :: l).
Proof.
  intros E. destruct l as [|y r]; simpl; [trivial|].
  intros [H1 H2]. split; [rewrite <- E; exact H1 | exact H2].
Qed.

Lemma dd_nonpos (y p : Q) : 0 < p -> y <= p -> y / p - 1 <= 0.
Proof.
  intros Hp Hy.
  assert (H : y / p <= 1).
  { apply Qle_shift_div_r; [exact Hp | rewrite Qmult_1_l; exact Hy]. }
  apply (Qplus_le_l _ _ 1). ring_simplify. exact H.
Qed.

Lemma dd_zero_iff (y p : Q) : 0 < p -> (y / p - 1 == 0 <-> y == p).
Proof.
  intros Hp.
  assert (Hnz : ~ p == 0) by (intros E; rewrite E in Hp; discriminate Hp).
  split; intros H.
  - assert (H1 : y / p == 1).
    { setoid_replace (y / p) with ((y / p - 1) + 1) by ring.
      rewrite H. reflexivity. }
    rewrite <- (Qmult_div_r y p Hnz). rewrite H1. ring.
  - rewrite H. field. exact Hnz.
Qed.

Lemma fdiv_pos (y p : Q) : 0 < p -> fdiv y p = Some (y / p).
Proof.
  intros Hp. unfold fdiv.
  destruct (Qeq_bool p 0) eqn:E; [|reflexivity].
  apply Qeq_bool_iff in E. rewrite E in Hp. discriminate Hp.
Qed.

Lemma drawdown_from_spec (l : list Q) :
  forall acc,
    0 < acc -> Forall (fun x => 0 < x) l ->
    exists dds,
      drawdown l (cummax_from acc l) = map Some dds
      /\ Forall (fun d => d <= 0) dds
      /\ (Forall (fun d => d == 0) dds <-> nondecreasing (acc :: l)).
Proof.
  induction l as [|y l IH]; intros acc Hacc Hl.
  - exists []. simpl. repeat split; constructor.
  - inversion Hl as [|? ? Hy Hl']; subst.
    assert (Hp : 0 < Qmax acc y).
    { apply Qlt_le_trans with acc; [exact Hacc | apply Q.le_max_l]. }
    destruct (IH (Qmax acc y) Hp Hl') as (dds & Edd & Hle & Hiff).
    exists ((y / Qmax acc y - 1) :: dds).
    split; [|split].
    + cbn [cummax_from drawdown map2 map]. fold (drawdown l (cummax_from (Qmax acc y) l)).
      rewrite (fdiv_pos y Hp). cbn [option_map]. rewrite Edd. reflexivity.
    + constructor; [|exact Hle]. apply dd_nonpos; [exact Hp | apply Q.le_max_r].
    + split.
      * intros H. inversion H as [|? ? H0 Hrest]; subst.
        apply (dd_zero_iff y Hp) in H0.
        split.
        -- rewrite H0. apply Q.le_max_l.
        -- apply nondecreasing_head with (Qmax acc y); [symmetry; exact H0|].
           apply Hiff. exact Hrest.
      * intros [Hay Hnd].
        assert (E : y == Qmax acc y) by (symmetry; apply Q.max_r; exact Hay).
        constructor.
        -- apply (dd_zero_iff y Hp). exact E.
        -- apply Hiff. apply nondecreasing_head with y; [exact E | exact Hnd].
Qed.

Lemma fold_min_spec (l : list Q) :
  forall x,
    fold_left Qmin l x <= x
    /\ Forall (fun y => fold_left Qmin l x <= y) l
    /\ (fold_left Qmin l x == x \/ Exists (fun y => fold_left Qmin l x == y) l).
Proof.
  induction l as [|y l IH]; intros x; simpl.
  - split; [apply Qle_refl|]. split; [constructor | left; reflexivity].
  - destruct (IH (Qmin x y)) as (H1 & H2 & H3).
    split; [eapply Qle_trans; [exact H1 | apply Q.le_min_l]|].
    split.
    + constructor; [eapply Qle_trans; [exact H1 | apply Q.le_min_r] | exact H2].
    + destruct H3 as [H3 | H3].
      * destruct (Q.min_dec x y) as [E | E].
        -- left. rewrite H3. exact E.
        -- right. constructor. rewrite H3. exact E.
      * right. apply Exists_cons_tl. exact H3.
Qed.

Lemma min_of_nonpos (x : Q) (l : list Q) :
  Forall (fun d => d <= 0) (x :: l) ->
  fold_left Qmin l x <= 0
  /\ (fold_left Qmin l x == 0 <-> Forall (fun d => d == 0) (x :: l)).
Proof.
  intros Hall. inversion Hall as [|? ? Hx Hl]; subst.
  destruct (fold_min_spec l x) as (H1 & H2 & H3).
  split; [eapply Qle_trans; eassumption|].
  split.
  - intros Hm. constructor.
    + apply Qle_antisym; [exact Hx | rewrite <- Hm; exact H1].
    + rewrite Forall_forall in *. intros y Hy.
      apply Qle_antisym; [apply Hl; exact Hy | rewrite <- Hm; apply H2; exact Hy].
  - intros Hz. inversion Hz as [|? ? Hx0 Hl0]; subst.
    destruct H3 as [H3 | H3].
    + rewrite H3. exact Hx0.
    + apply Exists_exists in H3. destruct H3 as (y & Hy & Ey).
      rewrite Ey. rewrite Forall_forall in Hl0. apply Hl0. exact Hy.
Qed.

Lemma maxdd_positive_equity (e : Q) (rest : list Q) :
  Forall (fun x => 0 < x) (e :: rest) ->
  exists m,
    nanmin (drawdown (e :: rest) (cummax (e :: rest))) = Some m
    /\ m <= 0
    /\ (m == 0 <-> nondecreasing (e :: rest)).
Proof.
  intros Hpos. inversion Hpos as [|? ? He Hrest]; subst.
  destruct (drawdown_from_spec He Hrest) as (dds & Edd & Hle & Hiff).
  assert (Hd0 : e / e - 1 == 0) by (apply (dd_zero_iff e He); reflexivity).
  assert (Hall : Forall (fun d => d <= 0) ((e / e - 1) :: dds)).
  { constructor; [rewrite Hd0; apply Qle_refl | exact Hle]. }
  destruct (min_of_nonpos Hall) as [Hm Hmz].
  exists (fold_left Qmin dds (e / e - 1)).
  split; [|split].
  - unfold nanmin. cbn [cummax drawdown map2].
    fold (drawdown rest (cummax_from e rest)).
    rewrite (fdiv_pos e He), Edd. cbn [option_map].
    change (Some (e / e - 1) :: map Some dds) with (map Some ((e / e - 1) :: dds)).
    rewrite dropna_map_Some. reflexivity.
  - exact Hm.
  - rewrite Hmz. rewrite <- Hiff. split.
    + intros H. inversion H; subst. assumption.
    + intros H. constructor; assumption.
Qed.

Lemma cumprod_from_pos (acc : Q) (l : list Q) :
  0 < acc -> Forall (fun x => 0 < x) l -> Forall (fun x => 0 < x) (cumprod_from acc l).
Proof.
  intros Hacc Hl. revert acc Hacc.
  induction Hl as [|x l Hx _ IH]; intros acc Hacc; simpl; constructor.
  - apply Qmult_lt_0_compat; assumption.
  - apply IH. apply Qmult_lt_0_compat; assumption.
Qed.

Lemma equity_curve_pos (r : list Q) :
  (forall x, In x r -> -(1) < x) -> Forall (fun x => 0 < x) (equity_curve r).
Proof.
  intros H. unfold equity_curve.
  assert (Hpos : Forall (fun x => 0 < x) (map (fun x => 1 + x) r)).
  { apply Forall_forall. intros y Hy. apply in_map_iff in Hy.
    destruct Hy as (x & <- & Hx). specialize (H x Hx).
    apply (Qplus_lt_r _ _ (- (1))). ring_simplify. exact H. }
  destruct Hpos as [|y l Hy Hl]; simpl; constructor; [exact Hy|].
  apply cumprod_from_pos; assumption.
Qed.

Lemma equity_curve_nonempty (x : Q) (rest : list Q) :
  exists e es, equity_curve (x :: rest) = e :: es.
Proof. unfold equity_curve. simpl. eexists. eexists. reflexivity. Qed.




(* ----------------------------------------------------------------- *)
(** *** Constant and single-observation series *)

Lemma Q2R_one : Q2R 1 = 1%R.
Proof. unfold Q2R. simpl. lra. Qed.

Lemma Q2R_zero (q : Q) : q == 0 -> Q2R q = 0%R.
Proof. intros H. rewrite (Qeq_eqR _ _ H). unfold Q2R. simpl. lra. Qed.

Lemma Rpower_one (x : R) : Rpower 1 x = 1%R.
Proof. unfold Rpower. rewrite ln_1, Rmult_0_r. apply exp_0. Qed.

Lemma np_power_one (e : Q) : np_power 1 e = Some 1%R.
Proof.
  unfold np_power. change (Qlt_bool 0 1) with true. cbv iota.
  rewrite Q2R_one, Rpower_one. reflexivity.
Qed.

Lemma CAGR_nonempty (returns : list flt) (freq : Z) (x : Q) (rest : list Q) :
  dropna returns = x :: rest ->
  CAGR (compute_perf_stats returns freq)
  = if Qlt_bool 0 (if (0 <? freq)%Z
                   then inject_Z (Z.of_nat (length (x :: rest))) / inject_Z freq
                   else 0)
    then option_map (fun p => (p - 1)%R)
           (np_power (last (equity_curve (x :: rest)) 0)
              (1 / (if (0 <? freq)%Z
                    then inject_Z (Z.of_nat (length (x :: rest))) / inject_Z freq
                    else 0)))
    else Some 0%R.
Proof. unfold compute_perf_stats. intros ->. reflexivity. Qed.

Lemma Sharpe_nonempty (returns : list flt) (freq : Z) (x : Q) (rest : list Q) :
  dropna returns = x :: rest ->
  Sharpe (compute_perf_stats returns freq)
  = match std (x :: rest), np_sqrt freq with
    | Some s, Some f =>
        Some ((Q2R (Qsum (x :: rest) / inject_Z (Z.of_nat (length (x :: rest))))
               / (s + Q2R eps)) * f)%R
    | _, _ => None
    end.
Proof. unfold compute_perf_stats. intros ->. reflexivity. Qed.

(** C7, at a failing input.  On the all-zero series with a single
    observation the analyzer returns CAGR = 0 and MaxDD = 0, but Sharpe is
    NaN: the sample standard deviation of one observation is undefined,
    and the guard against a zero deviation does not cover it. *)
Theorem single_zero_return_has_no_sharpe :
  CAGR (compute_perf_stats [Some 0] 252) = Some 0%R
  /\ Sharpe (compute_perf_stats [Some 0] 252) = None
  /\ (exists m, MaxDD (compute_perf_stats [Some 0] 252) = Some m /\ m == 0).
Proof.
  split; [|split].
  - rewrite (@CAGR_nonempty [Some 0] 252 0 [] eq_refl).
    change (equity_curve [0]) with [1]. cbn [last].
    replace (Qlt_bool 0 _) with true by (vm_compute; reflexivity).
    rewrite np_power_one. cbn [option_map]. f_equal. lra.
  - rewrite (@Sharpe_nonempty [Some 0] 252 0 [] eq_refl). reflexivity.
  - rewrite (@MaxDD_nonempty [Some 0] 252 0 [] eq_refl).
    eexists. split; [vm_compute; reflexivity | reflexivity].
Qed.

Lemma dropna_repeat_zero (n : nat) : dropna (repeat (Some 0) n) = repeat 0 n.
Proof. induction n as [|n IH]; simpl; [reflexivity | rewrite IH; reflexivity]. Qed.

Lemma cumprod_from_ones (n : nat) : cumprod_from 1 (repeat (1 + 0) n) = repeat 1 n.
Proof.
  induction n as [|n IH]; [reflexivity|].
  cbn [repeat cumprod_from]. change (1 * (1 + 0)) with 1. rewrite IH. reflexivity.
Qed.

Lemma equity_curve_zeros (n : nat) : equity_curve (repeat 0 n) = repeat 1 n.
Proof.
  unfold equity_curve. rewrite map_repeat.
  destruct n as [|n]; [reflexivity|].
  cbn [repeat cumprod]. change (1 + 0) with 1 at 1 2.
  rewrite cumprod_from_ones. reflexivity.
Qed.

Lemma last_repeat (A : Type) (a d : A) (n : nat) : last (repeat a (S n)) d = a.
Proof.
  induction n as [|n IH]; [reflexivity|].
  change (last (repeat a (S (S n))) d) with (last (repeat a (S n)) d). exact IH.
Qed.

Lemma Qsum_repeat_zero (n : nat) : Qsum (repeat 0 n) == 0.
Proof. induction n as [|n IH]; simpl; [reflexivity | rewrite IH; reflexivity]. Qed.

Lemma nondecreasing_repeat (a : Q) (n : nat) : nondecreasing (repeat a n).
Proof.
  induction n as [|n IH]; [exact I|].
  destruct n as [|n]; [exact I|].
  split; [apply Qle_refl | exact IH].
Qed.

(** The all-zero series with at least two observations, and any
    non-negative annualization frequency: all three metrics are zero. *)
Lemma zero_series_stats (n : nat) (freq : Z) :
  (0 <= freq)%Z ->
  CAGR (compute_perf_stats (repeat (Some 0) (S (S n))) freq) = Some 0%R
  /\ Sharpe (compute_perf_stats (repeat (Some 0) (S (S n))) freq) = Some 0%R
  /\ (exists m, MaxDD (compute_perf_stats (repeat (Some 0) (S (S n))) freq) = Some m
                /\ m == 0).
Proof.
  intros Hfreq.
  assert (Er : dropna (repeat (Some 0) (S (S n))) = 0 :: repeat 0 (S n))
    by apply dropna_repeat_zero.
  split; [|split].
  - rewrite (CAGR_nonempty _ freq Er).
    destruct (Qlt_bool 0 _); [|reflexivity].
    change (0 :: repeat 0 (S n)) with (repeat 0 (S (S n))).
    rewrite equity_curve_zeros, last_repeat, np_power_one.
    cbn [option_map]. f_equal. lra.
  - rewrite (Sharpe_nonempty _ freq Er).
    unfold np_sqrt. destruct (freq <? 0)%Z eqn:E; [apply Z.ltb_lt in E; lia|].
    change (repeat 0 (S n)) with (0 :: repeat 0 n). cbn [std].
    f_equal. rewrite Q2R_zero.
    + unfold Rdiv. rewrite !Rmult_0_l. reflexivity.
    + change (0 :: 0 :: repeat 0 n) with (repeat 0 (S (S n))).
      rewrite Qsum_repeat_zero. unfold Qdiv. apply Qmult_0_l.
  - rewrite (MaxDD_nonempty _ freq Er). unfold max_drawdown.
    change (0 :: repeat 0 (S n)) with (repeat 0 (S (S n))).
    rewrite equity_curve_zeros.
    assert (Hpos : Forall (fun x => 0 < x) (repeat 1 (S (S n)))).
    { apply Forall_forall. intros x Hx. apply repeat_spec in Hx. subst x. reflexivity. }
    destruct (maxdd_positive_equity Hpos) as (m & Em & _ & Hz).
    exists m. split; [exact Em|].
    apply Hz. apply (nondecreasing_repeat 1 (S (S n))).
Qed.

End Analyzer.


(* ================================================================= *)
(** ** Sorted date indexes *)

Section DateSorting.
Local Open Scope Z_scope.

Lemma ts_le_iff (a b : Timestamp) :
  ts_le a b <->
  year a < year b
  \/ (year a = year b
      /\ (month a < month b \/ (month a = month b /\ day a <= day b))).
Proof.
  unfold ts_le. rewrite ts_leb_iff, ts_ltb_iff. lia.
Qed.

Lemma ts_le_refl (a : Timestamp) : ts_le a a.
Proof. apply ts_le_iff. lia. Qed.

Lemma ts_le_trans (a b c : Timestamp) : ts_le a b -> ts_le b c -> ts_le a c.
Proof. rewrite !ts_le_iff. lia. Qed.

Lemma ts_le_antisym (a b : Timestamp) : ts_le a b -> ts_le b a -> a = b.
Proof.
  rewrite !ts_le_iff. destruct a as [ya ma da], b as [yb mb db]. simpl.
  intros H1 H2. assert (ya = yb /\ ma = mb /\ da = db) as (-> & -> & ->) by lia.
  reflexivity.
Qed.

Lemma ts_lt_le (a b : Timestamp) : ts_lt a b -> ts_le a b.
Proof. unfold ts_lt. rewrite ts_le_iff, ts_ltb_iff. lia. Qed.

Lemma ts_le_lt_trans (a b c : Timestamp) : ts_le a b -> ts_lt b c -> ts_lt a c.
Proof. unfold ts_lt. rewrite ts_le_iff, !ts_ltb_iff. lia. Qed.

Lemma ts_lt_trans (a b c : Timestamp) : ts_lt a b -> ts_lt b c -> ts_lt a c.
Proof. unfold ts_lt. rewrite !ts_ltb_iff. lia. Qed.

Lemma ts_leb_false (a b : Timestamp) : ts_leb a b = false -> ts_lt b a.
Proof.
  unfold ts_leb, ts_lt. destruct (ts_ltb b a); simpl; congruence.
Qed.

Lemma ts_le_neq_lt (a b : Timestamp) : ts_le a b -> a <> b -> ts_lt a b.
Proof.
  intros Hle Hne. destruct (ts_ltb a b) eqn:E; [exact E|].
  exfalso. apply Hne. apply ts_le_antisym; [exact Hle|].
  apply ts_leb_iff. congruence.
Qed.

Lemma In_ts_insert (x d : Timestamp) (l : list Timestamp) :
  In x (ts_insert d l) <-> x = d \/ In x l.
Proof.
  induction l as [|y r IH]; simpl.
  - intuition congruence.
  - destruct (ts_leb d y); simpl; [intuition congruence|].
    rewrite IH. intuition congruence.
Qed.

Lemma In_sort_values (x : Timestamp) (l : list Timestamp) :
  In x (sort_values l) <-> In x l.
Proof.
  induction l as [|y r IH]; simpl; [tauto|].
  rewrite In_ts_insert, IH. intuition congruence.
Qed.

Lemma length_ts_insert (d : Timestamp) (l : list Timestamp) :
  length (ts_insert d l) = S (length l).
Proof.
  induction l as [|y r IH]; simpl; [reflexivity|].
  destruct (ts_leb d y); simpl; [reflexivity | rewrite IH; reflexivity].
Qed.

Lemma length_sort_values (l : list Timestamp) : length (sort_values l) = length l.
Proof.
  induction l as [|y r IH]; simpl; [reflexivity|].
  rewrite length_ts_insert, IH. reflexivity.
Qed.

Lemma ts_insert_ascending (d : Timestamp) (l : list Timestamp) :
  ascending l -> ascending (ts_insert d l).
Proof.
  unfold ascending. induction 1 as [|y r Hr IH Hy]; simpl.
  - constructor; constructor.
  - destruct (ts_leb d y) eqn:E.
    + constructor; [constructor; assumption|].
      constructor; [exact E|].
      rewrite Forall_forall in *. intros z Hz. apply ts_le_trans with y; [exact E | auto].
    + constructor; [exact IH|].
      apply Forall_forall. intros z Hz. apply In_ts_insert in Hz.
      destruct Hz as [-> | Hz].
      * apply ts_lt_le. apply ts_leb_false. exact E.
      * rewrite Forall_forall in Hy. auto.
Qed.

Lemma sort_values_ascending (l : list Timestamp) : ascending (sort_values l).
Proof.
  induction l as [|y r IH]; simpl; [constructor|].
  apply ts_insert_ascending. exact IH.
Qed.

Lemma ts_insert_strict (d : Timestamp) (l : list Timestamp) :
  strictly_ascending l -> ~ In d l -> strictly_ascending (ts_insert d l).
Proof.
  unfold strictly_ascending. induction 1 as [|y r Hr IH Hy]; simpl; intros Hd.
  - constructor; constructor.
  - destruct (ts_leb d y) eqn:E.
    + assert (Hdy : ts_lt d y) by (apply ts_le_neq_lt; [exact E | intros ->; apply Hd; left; reflexivity]).
      constructor; [constructor; assumption|].
      constructor; [exact Hdy|].
      rewrite Forall_forall in *. intros z Hz. apply ts_lt_trans with y; auto.
    + constructor; [apply IH; intros H; apply Hd; right; exact H|].
      apply Forall_forall. intros z Hz. apply In_ts_insert in Hz.
      destruct Hz as [-> | Hz].
      * apply ts_leb_false. exact E.
      * rewrite Forall_forall in Hy. auto.
Qed.

Lemma sort_values_strict (l : list Timestamp) :
  NoDup l -> strictly_ascending (sort_values l).
Proof.
  induction 1 as [|y r Hy Hr IH]; simpl; [constructor|].
  apply ts_insert_strict; [exact IH|]. rewrite In_sort_values. exact Hy.
Qed.

Lemma In_nodup_ts (x : Timestamp) (l : list Timestamp) :
  In x (nodup_ts l) <-> In x l.
Proof.
  induction l as [|y r IH]; simpl; [tauto|].
  destruct (existsb (ts_eqb y) r) eqn:E.
  - rewrite IH. split; [tauto|]. intros [<- | H]; [|exact H].
    apply existsb_exists in E. destruct E as (z & Hz & Ez).
    apply ts_eqb_eq in Ez. subst z. exact Hz.
  - simpl. rewrite IH. tauto.
Qed.

Lemma nodup_ts_NoDup (l : list Timestamp) : NoDup (nodup_ts l).
Proof.
  induction l as [|y r IH]; simpl; [constructor|].
  destruct (existsb (ts_eqb y) r) eqn:E; [exact IH|].
  constructor; [|exact IH].
  rewrite In_nodup_ts. intros Hy.
  assert (existsb (ts_eqb y) r = true); [|congruence].
  apply existsb_exists. exists y. split; [exact Hy | apply ts_eqb_refl].
Qed.

Lemma filter_ascending (p : Timestamp -> bool) (l : list Timestamp) :
  ascending l -> ascending (filter p l).
Proof.
  unfold ascending. induction 1 as [|y r Hr IH Hy]; simpl; [constructor|].
  destruct (p y); [|exact IH].
  constructor; [exact IH|].
  rewrite Forall_forall in *. intros z Hz. apply filter_In in Hz. apply Hy. tauto.
Qed.

Lemma filter_strictly_ascending (p : Timestamp -> bool) (l : list Timestamp) :
  strictly_ascending l -> strictly_ascending (filter p l).
Proof.
  unfold strictly_ascending. induction 1 as [|y r Hr IH Hy]; simpl; [constructor|].
  destruct (p y); [|exact IH].
  constructor; [exact IH|].
  rewrite Forall_forall in *. intros z Hz. apply filter_In in Hz. apply Hy. tauto.
Qed.

Lemma ts_min_le_l (x z : Timestamp) : ts_le (ts_min x z) x.
Proof.
  unfold ts_min. destruct (ts_ltb z x) eqn:E; [apply ts_lt_le; exact E | apply ts_le_refl].
Qed.

Lemma ts_min_le_r (x z : Timestamp) : ts_le (ts_min x z) z.
Proof.
  unfold ts_min. destruct (ts_ltb z x) eqn:E; [apply ts_le_refl|].
  apply ts_leb_iff. congruence.
Qed.

Lemma ts_max_ge_l (x z : Timestamp) : ts_le x (ts_max x z).
Proof.
  unfold ts_max. destruct (ts_ltb x z) eqn:E; [apply ts_lt_le; exact E | apply ts_le_refl].
Qed.

Lemma ts_max_ge_r (x z : Timestamp) : ts_le z (ts_max x z).
Proof.
  unfold ts_max. destruct (ts_ltb x z) eqn:E; [apply ts_le_refl|].
  apply ts_leb_iff. congruence.
Qed.

Lemma fold_ts_min_le_start (r : list Timestamp) (x : Timestamp) :
  ts_le (fold_left ts_min r x) x.
Proof.
  revert x. induction r as [|z r IH]; intros x; simpl; [apply ts_le_refl|].
  apply ts_le_trans with (ts_min x z); [apply IH | apply ts_min_le_l].
Qed.

Lemma fold_ts_min_le (r : list Timestamp) (x y : Timestamp) :
  In y (x :: r) -> ts_le (fold_left ts_min r x) y.
Proof.
  intros [<- | Hy]; [apply fold_ts_min_le_start|].
  revert x. induction r as [|z r IH]; intros x; simpl; [contradiction|].
  destruct Hy as [<- | Hy].
  - apply ts_le_trans with (ts_min x z); [apply fold_ts_min_le_start | apply ts_min_le_r].
  - apply IH. exact Hy.
Qed.

Lemma fold_ts_max_ge_start (r : list Timestamp) (x : Timestamp) :
  ts_le x (fold_left ts_max r x).
Proof.
  revert x. induction r as [|z r IH]; intros x; simpl; [apply ts_le_refl|].
  apply ts_le_trans with (ts_max x z); [apply ts_max_ge_l | apply IH].
Qed.

Lemma fold_ts_max_ge (r : list Timestamp) (x y : Timestamp) :
  In y (x :: r) -> ts_le y (fold_left ts_max r x).
Proof.
  intros [<- | Hy]; [apply fold_ts_max_ge_start|].
  revert x. induction r as [|z r IH]; intros x; simpl; [contradiction|].
  destruct Hy as [<- | Hy].
  - apply ts_le_trans with (ts_max x z); [apply ts_max_ge_r | apply fold_ts_max_ge_start].
  - apply IH. exact Hy.
Qed.

End DateSorting.


(* ================================================================= *)
(** ** More on the walk-forward splitter *)

Section SplitterWindows.

Lemma split_at_shape rebal_dates train_years test_months c tr te :
  In (tr, te) (split_at rebal_dates train_years test_months c) ->
  tr = filter (fun d => ts_leb (sub_years c train_years) d && ts_ltb d c) rebal_dates
  /\ te = filter (fun d => ts_leb c d && ts_ltb d (add_months c test_months)) rebal_dates
  /\ (min_train_dates <= length tr)%nat
  /\ (1 <= length te)%nat.
Proof.
  unfold split_at.
  set (trd := filter _ rebal_dates). set (ted := filter _ rebal_dates).
  destruct (length trd <? min_train_dates)%nat eqn:E1; simpl; [tauto|].
  destruct (length ted <? 1)%nat eqn:E2; simpl; [tauto|].
  intros [H | []]. inversion H; subst tr te.
  apply Nat.ltb_ge in E1. apply Nat.ltb_ge in E2. auto.
Qed.

(** X1.  Every emitted pair is anchored at a rebalance date [c], its earliest
    test date: the train dates lie in [c - train_years, c), the test
    dates in [c, c + test_months), and there are at least 24 train dates. *)
Theorem split_windows_anchored :
  forall rebal_dates train_years test_months train_dates test_dates,
    In (train_dates, test_dates)
       (make_walkforward_splits rebal_dates train_years test_months) ->
    exists c,
      In c rebal_dates
      /\ min_date test_dates = Some c
      /\ (forall d, In d train_dates -> ts_le (sub_years c train_years) d /\ ts_lt d c)
      /\ (forall d, In d test_dates -> ts_le c d /\ ts_lt d (add_months c test_months))
      /\ (24 <= length train_dates)%nat.
Proof.
  intros rebal ty tm tr te Hin.
  unfold make_walkforward_splits in Hin. apply in_flat_map in Hin.
  destruct Hin as (c & Hc & Hin).
  apply split_at_shape in Hin. destruct Hin as (Etr & Ete & Ltr & Lte).
  assert (Hte : forall d, In d te -> ts_le c d /\ ts_lt d (add_months c tm)).
  { intros d Hd. rewrite Ete in Hd. apply filter_In in Hd. destruct Hd as [_ Hd].
    apply Bool.andb_true_iff in Hd. exact Hd. }
  assert (Hcte : In c te).
  { destruct te as [|d0 te']; [simpl in Lte; lia|].
    destruct (Hte d0 (or_introl eq_refl)) as [H1 H2].
    rewrite Ete. apply filter_In. split; [exact Hc|].
    apply Bool.andb_true_iff. split; [apply ts_le_refl|].
    exact (ts_le_lt_trans H1 H2). }
  exists c. split; [apply In_sort_values; exact Hc|].
  split; [|split; [|split]].
  - destruct te as [|d0 te']; [contradiction|]. simpl. f_equal.
    apply ts_le_antisym.
    + apply fold_ts_min_le. exact Hcte.
    + apply Hte. apply fold_ts_min_in.
  - intros d Hd. rewrite Etr in Hd. apply filter_In in Hd. destruct Hd as [_ Hd].
    apply Bool.andb_true_iff in Hd. exact Hd.
  - exact Hte.
  - exact Ltr.
Qed.

Lemma split_windows_anchored_witness :
  let train := map Toy.month_end (seq 0 24) in
  let test := [Toy.month_end 24; Toy.month_end 25] in
  In (train, test) (make_walkforward_splits Toy.rebal_dates 5 6)
  /\ exists c,
       In c Toy.rebal_dates
       /\ min_date test = Some c
       /\ (forall d, In d train -> ts_le (sub_years c 5) d /\ ts_lt d c)
       /\ (forall d, In d test -> ts_le c d /\ ts_lt d (add_months c 6))
       /\ (24 <= length train)%nat.
Proof.
  assert (H : In (map Toy.month_end (seq 0 24), [Toy.month_end 24; Toy.month_end 25])
                 (make_walkforward_splits Toy.rebal_dates 5 6)).
  { vm_compute. left. reflexivity. }
  split; [exact H|].
  exact (@split_windows_anchored Toy.rebal_dates 5 6 _ _ H).
Defined.

Lemma filter_length_drop (A : Type) (p : A -> bool) (l : list A) (x : A) :
  In x l -> p x = false -> (length (filter p l) < length l)%nat.
Proof.
  induction l as [|y r IH]; simpl; [contradiction|].
  intros [-> | Hin] Hp.
  - rewrite Hp. pose proof (filter_length_le (fun _ => true) p r) as H.
    assert (E : filter (fun x0 => true && p x0) r = filter p r) by (apply filter_ext; reflexivity).
    assert (Hle : (length (filter p r) <= length r)%nat).
    { clear. induction r as [|z r IH]; simpl; [lia|]. destruct (p z); simpl; lia. }
    lia.
  - specialize (IH Hin Hp). destruct (p y); simpl; lia.
Qed.

Lemma flat_map_nil (A B : Type) (f : A -> list B) (l : list A) :
  (forall x, In x l -> f x = []) -> flat_map f l = [].
Proof.
  induction l as [|x r IH]; intros H; [reflexivity|].
  simpl. rewrite (H x (or_introl eq_refl)). simpl.
  apply IH. intros y Hy. apply H. right. exact Hy.
Qed.

(** X2.  With fewer than 25 rebalance dates no pair is emitted: a candidate
    needs 24 earlier dates. *)
Theorem too_few_dates_no_split :
  forall rebal_dates train_years test_months,
    (length rebal_dates < 25)%nat ->
    make_walkforward_splits rebal_dates train_years test_months = [].
Proof.
  intros rebal ty tm Hlen. unfold make_walkforward_splits.
  set (sorted := sort_values rebal).
  assert (Hall : forall c, In c sorted -> split_at sorted ty tm c = []).
  { intros c Hc. unfold split_at.
    set (trd := filter _ sorted).
    assert (Hlt : (length trd < length sorted)%nat).
    { apply filter_length_drop with c; [exact Hc|].
      apply Bool.andb_false_iff. right.
      destruct (ts_ltb c c) eqn:E; [|reflexivity].
      exfalso. exact (ts_lt_irrefl E). }
    assert (Hs : length sorted = length rebal) by apply length_sort_values.
    assert (E : (length trd <? min_train_dates)%nat = true).
    { apply Nat.ltb_lt. unfold min_train_dates. lia. }
    rewrite E. reflexivity. }
  apply flat_map_nil. exact Hall.
Qed.

Lemma too_few_dates_no_split_witness :
  (length (map Toy.month_end (seq 0 24)) < 25)%nat
  /\ make_walkforward_splits (map Toy.month_end (seq 0 24)) 5 6 = [].
Proof.
  assert (H : (length (map Toy.month_end (seq 0 24)) < 25)%nat) by (vm_compute; lia).
  split; [exact H|].
  exact (@too_few_dates_no_split (map Toy.month_end (seq 0 24)) 5 6 H).
Defined.

(** X3.  Both windows of every emitted pair are made of the given rebalance
    dates, in ascending order. *)
Theorem split_windows_sorted_subsets :
  forall rebal_dates train_years test_months train_dates test_dates,
    In (train_dates, test_dates)
       (make_walkforward_splits rebal_dates train_years test_months) ->
    ascending train_dates /\ ascending test_dates
    /\ incl train_dates rebal_dates /\ incl test_dates rebal_dates.
Proof.
  intros rebal ty tm tr te Hin.
  unfold make_walkforward_splits in Hin. apply in_flat_map in Hin.
  destruct Hin as (c & Hc & Hin).
  apply split_at_shape in Hin. destruct Hin as (-> & -> & _ & _).
  split; [apply filter_ascending; apply sort_values_ascending|].
  split; [apply filter_ascending; apply sort_values_ascending|].
  split; intros d Hd; apply filter_In in Hd; apply In_sort_values; tauto.
Qed.

Lemma split_windows_sorted_subsets_witness :
  let train := map Toy.month_end (seq 0 24) in
  let test := [Toy.month_end 24; Toy.month_end 25] in
  In (train, test) (make_walkforward_splits (rev Toy.rebal_dates) 5 6)
  /\ ascending train /\ ascending test
  /\ incl train (rev Toy.rebal_dates) /\ incl test (rev Toy.rebal_dates).
Proof.
  assert (H : In (map Toy.month_end (seq 0 24), [Toy.month_end 24; Toy.month_end 25])
                 (make_walkforward_splits (rev Toy.rebal_dates) 5 6)).
  { vm_compute. left. reflexivity. }
  split; [exact H|].
  exact (@split_windows_sorted_subsets (rev Toy.rebal_dates) 5 6 _ _ H).
Defined.

End SplitterWindows.


(* ================================================================= *)
(** ** More on the position builder *)

Section QuantileFacts.
Local Open Scope Q_scope.

Lemma In_q_insert (x y : Q) (l : list Q) : In x (q_insert y l) <-> x = y \/ In x l.
Proof.
  induction l as [|z r IH]; simpl.
  - intuition congruence.
  - destruct (Qle_bool y z); simpl; [intuition congruence|].
    rewrite IH. intuition congruence.
Qed.

Lemma In_sort_q (x : Q) (l : list Q) : In x (sort_q l) <-> In x l.
Proof.
  induction l as [|y r IH]; simpl; [tauto|].
  rewrite In_q_insert, IH. intuition congruence.
Qed.

Lemma q_insert_sorted (y : Q) (l : list Q) :
  StronglySorted Qle l -> StronglySorted Qle (q_insert y l).
Proof.
  induction 1 as [|z r Hr IH Hz]; simpl.
  - constructor; constructor.
  - destruct (Qle_bool y z) eqn:E.
    + apply Qle_bool_iff in E.
      constructor; [constructor; assumption|].
      constructor; [exact E|].
      rewrite Forall_forall in *. intros u Hu. apply Qle_trans with z; auto.
    + constructor; [exact IH|].
      apply Forall_forall. intros u Hu. apply In_q_insert in Hu.
      destruct Hu as [-> | Hu].
      * apply Qlt_le_weak. apply Qnot_le_lt. intros Hle.
        apply Qle_bool_iff in Hle. congruence.
      * rewrite Forall_forall in Hz. auto.
Qed.

Lemma sort_q_sorted (l : list Q) : StronglySorted Qle (sort_q l).
Proof.
  induction l as [|y r IH]; simpl; [constructor|].
  apply q_insert_sorted. exact IH.
Qed.

Lemma sorted_nth_le (l : list Q) (d : Q) :
  StronglySorted Qle l ->
  forall i j, (i <= j)%nat -> (j < length l)%nat -> nth i l d <= nth j l d.
Proof.
  induction 1 as [|z r Hr IH Hz]; intros i j Hij Hj; simpl in Hj; [lia|].
  destruct i as [|i]; destruct j as [|j]; simpl; try lia.
  - apply Qle_refl.
  - rewrite Forall_forall in Hz. apply Hz. apply nth_In. lia.
  - apply IH; lia.
Qed.

(** A value interpolated between two numbers lies between them. *)
Lemma interpolation_between (lo hi g : Q) :
  lo <= hi -> 0 <= g -> g <= 1 -> lo <= lo + g * (hi - lo) /\ lo + g * (hi - lo) <= hi.
Proof.
  intros Hlh Hg0 Hg1.
  assert (H1 : 0 <= g * (hi - lo)).
  { apply Qmult_le_0_compat; [exact Hg0|]. Lqa.lra. }
  assert (H2 : 0 <= (1 - g) * (hi - lo)).
  { apply Qmult_le_0_compat; Lqa.lra. }
  split; [Lqa.lra|].
  setoid_replace (lo + g * (hi - lo)) with (hi - (1 - g) * (hi - lo)) by ring.
  Lqa.lra.
Qed.

(** On a nonempty series and a level in [0, 1], [quantile] returns a
    number that lies between two values of the series. *)
Lemma quantile_between (s : list Q) (q : Q) :
  s <> [] -> 0 <= q -> q <= 1 ->
  exists c lo hi,
    quantile s q = Ok (Some c) /\ In lo s /\ In hi s /\ lo <= c /\ c <= hi.
Proof.
  intros Hne Hq0 Hq1. unfold quantile.
  assert (E : negb (Qle_bool 0 q && Qle_bool q 1) = false).
  { apply Bool.negb_false_iff. apply Bool.andb_true_iff.
    split; apply Qle_bool_iff; assumption. }
  rewrite E.
  pose proof (sort_q_sorted s) as Hsorted.
  assert (Hin : forall x, In x (sort_q s) -> In x s) by (intros x; apply In_sort_q).
  destruct (sort_q s) as [|x0 rest] eqn:Es.
  { exfalso. destruct s as [|y r]; [congruence|].
    assert (H : In y (sort_q (y :: r))) by (apply In_sort_q; left; reflexivity).
    rewrite Es in H. exact H. }
  set (sorted := x0 :: rest) in *.
  set (n := Z.of_nat (length sorted)).
  assert (Hn : (1 <= n)%Z) by (unfold n, sorted; simpl length; lia).
  set (h := inject_Z (n - 1) * q).
  assert (Hn1 : 0 <= inject_Z (n - 1)).
  { change 0 with (inject_Z 0). rewrite <- Zle_Qle. lia. }
  assert (Hh0 : 0 <= h) by (apply Qmult_le_0_compat; assumption).
  assert (Hh1 : h <= inject_Z (n - 1)).
  { assert (H : 0 <= inject_Z (n - 1) * (1 - q)).
    { apply Qmult_le_0_compat; [exact Hn1 | Lqa.lra]. }
    unfold h.
    setoid_replace (inject_Z (n - 1) * q)
      with (inject_Z (n - 1) - inject_Z (n - 1) * (1 - q)) by ring.
    Lqa.lra. }
  set (i := Qfloor h).
  assert (Hi0 : (0 <= i)%Z).
  { change 0%Z with (Qfloor 0). apply Qfloor_resp_le. exact Hh0. }
  assert (Hi1 : (i <= n - 1)%Z).
  { rewrite <- (Qfloor_Z (n - 1)). apply Qfloor_resp_le. exact Hh1. }
  assert (Hg0 : 0 <= h - inject_Z i).
  { pose proof (Qfloor_le h) as H. fold i in H. Lqa.lra. }
  assert (Hg1 : h - inject_Z i <= 1).
  { pose proof (Qlt_floor h) as H. fold i in H. rewrite inject_Z_plus in H.
    change (inject_Z 1) with 1 in H. Lqa.lra. }
  set (lo := nth (Z.to_nat i) sorted x0).
  set (hi := nth (Z.to_nat (Z.min (i + 1) (n - 1))) sorted x0).
  assert (Hlo : In lo sorted) by (apply nth_In; unfold n in *; lia).
  assert (Hhi : In hi sorted) by (apply nth_In; unfold n in *; lia).
  assert (Hlh : lo <= hi).
  { apply sorted_nth_le; [exact Hsorted | lia | unfold n in *; lia]. }
  destruct (interpolation_between Hlh Hg0 Hg1) as [H1 H2].
  exists (lo + (h - inject_Z i) * (hi - lo)), lo, hi.
  split; [reflexivity|]. repeat split; auto.
Qed.

Lemma quantile_raises_iff (s : list Q) (q : Q) :
  raises (quantile s q) <-> ~ (0 <= q /\ q <= 1).
Proof.
  unfold quantile.
  destruct (Qle_bool 0 q) eqn:E0; destruct (Qle_bool q 1) eqn:E1; simpl.
  - apply Qle_bool_iff in E0. apply Qle_bool_iff in E1. split.
    + intros [e He]. destruct (sort_q s); discriminate.
    + intros H. exfalso. apply H. split; assumption.
  - split; [|intros _; exists ValueError; reflexivity].
    intros _ [_ H]. apply Qle_bool_iff in H. congruence.
  - split; [|intros _; exists ValueError; reflexivity].
    intros _ [H _]. apply Qle_bool_iff in H. congruence.
  - split; [|intros _; exists ValueError; reflexivity].
    intros _ [H _]. apply Qle_bool_iff in H. congruence.
Qed.

End QuantileFacts.


Section PositionBuilderMore.
Local Open Scope Q_scope.
Local Open Scope string_scope.

Lemma In_snd_series (x : Q) (s : Series) :
  In x (map snd s) -> exists t, In (t, x) s.
Proof.
  intros H. apply in_map_iff in H. destruct H as ([t y] & E & Hin).
  simpl in E. subst y. exists t. exact Hin.
Qed.

(** X4.  For a nonempty cross-section with unique tickers and quantile levels
    in [0, 1], the builder returns a weight vector, both legs are nonempty
    (the two guards on the leg sizes always pass) and the negative entries
    sum to minus one. *)
Theorem nonempty_cross_section_has_both_legs :
  forall (top_q bot_q : Q) (s : Series),
    s <> [] ->
    NoDup (map fst s) ->
    0 <= top_q /\ top_q <= 1 ->
    0 <= bot_q /\ bot_q <= 1 ->
    exists long_cut short_cut w,
      quantile (map snd s) (1 - top_q) = Ok (Some long_cut)
      /\ quantile (map snd s) bot_q = Ok (Some short_cut)
      /\ position_weights top_q bot_q s = Ok w
      /\ longs_of (Some long_cut) s <> []
      /\ shorts_of (Some short_cut) s <> []
      /\ sum_negative w == -(1).
Proof.
  intros top_q bot_q s Hne Hnd [Ht0 Ht1] [Hb0 Hb1].
  assert (Hne' : map snd s <> []) by (destruct s; [congruence | discriminate]).
  assert (Hl0 : 0 <= 1 - top_q) by Lqa.lra.
  assert (Hl1 : 1 - top_q <= 1) by Lqa.lra.
  destruct (quantile_between Hne' Hl0 Hl1) as (lc & _ & hi & EL & _ & Hhi & _ & Hlc).
  destruct (quantile_between Hne' Hb0 Hb1) as (sc & lo & _ & ES & Hlo & _ & Hsc & _).
  apply In_snd_series in Hhi. destruct Hhi as (th & Hhi).
  apply In_snd_series in Hlo. destruct Hlo as (tl & Hlo).
  assert (HL : In th (longs_of (Some lc) s)).
  { unfold longs_of. apply in_map_iff. exists (th, hi). split; [reflexivity|].
    apply filter_In. split; [exact Hhi|]. simpl. apply Qle_bool_iff. exact Hlc. }
  assert (HS : In tl (shorts_of (Some sc) s)).
  { unfold shorts_of. apply in_map_iff. exists (tl, lo). split; [reflexivity|].
    apply filter_In. split; [exact Hlo|]. simpl. apply Qle_bool_iff. exact Hsc. }
  exists lc, sc, (assign_weights (Some lc) (Some sc) s).
  split; [exact EL|]. split; [exact ES|].
  split; [unfold position_weights; rewrite EL, ES; reflexivity|].
  split; [intros E; rewrite E in HL; exact HL|].
  split; [intros E; rewrite E in HS; exact HS|].
  apply short_leg_sums_to_minus_one; [exact Hnd|].
  destruct (shorts_of (Some sc) s); [contradiction | simpl; lia].
Qed.

Lemma nonempty_cross_section_witness :
  [("a", 1); ("b", 2); ("c", 3)] <> []
  /\ NoDup (map fst [("a", 1); ("b", 2); ("c", 3)])
  /\ (0 <= (1 # 10) /\ (1 # 10) <= 1)
  /\ (0 <= (1 # 10) /\ (1 # 10) <= 1)
  /\ exists long_cut short_cut w,
       quantile (map snd [("a", 1); ("b", 2); ("c", 3)]) (1 - (1 # 10)) = Ok (Some long_cut)
       /\ quantile (map snd [("a", 1); ("b", 2); ("c", 3)]) (1 # 10) = Ok (Some short_cut)
       /\ position_weights (1 # 10) (1 # 10) [("a", 1); ("b", 2); ("c", 3)] = Ok w
       /\ longs_of (Some long_cut) [("a", 1); ("b", 2); ("c", 3)] <> []
       /\ shorts_of (Some short_cut) [("a", 1); ("b", 2); ("c", 3)] <> []
       /\ sum_negative w == -(1).
Proof.
  assert (H1 : [("a", 1); ("b", 2); ("c", 3)] <> []) by discriminate.
  assert (H2 : NoDup (map fst [("a", 1); ("b", 2); ("c", 3)])).
  { apply unique_labels_NoDup. reflexivity. }
  assert (H3 : 0 <= (1 # 10) /\ (1 # 10) <= 1) by (split; discriminate).
  split; [exact H1|]. split; [exact H2|]. split; [exact H3|]. split; [exact H3|].
  exact (@nonempty_cross_section_has_both_legs (1 # 10) (1 # 10) _ H1 H2 H3 H3).
Defined.

Lemma unit_fraction_le_1 (l : list ticker) : 1 / len l <= 1.
Proof.
  destruct l as [|t r]; [discriminate|].
  apply Qle_shift_div_r; [apply inject_nat_pos; simpl; lia|].
  rewrite Qmult_1_l. unfold len. change 1 with (inject_Z 1). rewrite <- Zle_Qle.
  simpl length. lia.
Qed.

Lemma minus_unit_fraction_ge (l : list ticker) : -(1) <= -(1) / len l.
Proof.
  destruct l as [|t r]; [discriminate|].
  apply Qle_shift_div_l; [apply inject_nat_pos; simpl; lia|].
  assert (H : 1 <= len (t :: r)).
  { unfold len. change 1 with (inject_Z 1). rewrite <- Zle_Qle. simpl length. lia. }
  Lqa.lra.
Qed.

Lemma weight_of_bounds (longs shorts : list ticker) (t : ticker) :
  -(1) <= weight_of longs shorts t /\ weight_of longs shorts t <= 1.
Proof.
  unfold weight_of.
  destruct (mem t shorts && (0 <? length shorts)%nat).
  - split; [apply minus_unit_fraction_ge|].
    apply Qle_trans with 0; [apply short_weight_nonpos | discriminate].
  - destruct (mem t longs && (0 <? length longs)%nat).
    + split; [|apply unit_fraction_le_1].
      apply Qle_trans with 0; [discriminate | apply long_weight_nonneg].
    + split; discriminate.
Qed.

(** X5.  The weight vector lists the tickers of the scores, in the same order,
    and no weight is outside [-1, 1]. *)
Theorem weights_keep_tickers_and_stay_in_unit_range :
  forall (long_cut short_cut : flt) (s : Series),
    map fst (assign_weights long_cut short_cut s) = map fst s
    /\ Forall (fun e => -(1) <= snd e /\ snd e <= 1) (assign_weights long_cut short_cut s).
Proof.
  intros lc sc s. rewrite assign_weights_rows. split.
  - rewrite map_map. reflexivity.
  - apply Forall_forall. intros e He. apply in_map_iff in He.
    destruct He as (e0 & <- & _). simpl. apply weight_of_bounds.
Qed.

(** X6.  With unique tickers, the weight of a ticker follows from its score
    alone: the short weight when the score is at or below the short
    threshold, else the long weight when it is at or above the long
    threshold, else zero. *)
Theorem weight_by_leg :
  forall (long_cut short_cut : flt) (s : Series) (t : ticker) (x : Q),
    NoDup (map fst s) ->
    In (t, x) s ->
    series_get t (assign_weights long_cut short_cut s)
    = Some (if le_cut short_cut x then -(1) / len (shorts_of short_cut s)
            else if ge_cut long_cut x then 1 / len (longs_of long_cut s)
            else 0).
Proof.
  intros lc sc s t x Hnd Hin.
  rewrite assign_weights_rows, (series_get_rows _ s t x Hin). unfold weight_of.
  pose proof (@in_longs lc s Hnd (t, x) Hin) as EL.
  pose proof (@in_shorts sc s Hnd (t, x) Hin) as ES.
  simpl in EL, ES. rewrite EL, ES.
  destruct (le_cut sc x) eqn:Es; simpl.
  - assert (H : (0 <? length (shorts_of sc s))%nat = true).
    { apply nonempty_length with t. apply mem_In. rewrite ES. reflexivity. }
    rewrite H. reflexivity.
  - destruct (ge_cut lc x) eqn:El; simpl; [|reflexivity].
    assert (H : (0 <? length (longs_of lc s))%nat = true).
    { apply nonempty_length with t. apply mem_In. rewrite EL. reflexivity. }
    rewrite H. reflexivity.
Qed.

Lemma weight_by_leg_witness :
  NoDup (map fst [("a", 1); ("b", 2); ("c", 3)])
  /\ In ("c", 3) [("a", 1); ("b", 2); ("c", 3)]
  /\ series_get "c" (assign_weights (Some (5 # 2)) (Some (3 # 2)) [("a", 1); ("b", 2); ("c", 3)])
     = Some (if le_cut (Some (3 # 2)) 3
             then -(1) / len (shorts_of (Some (3 # 2)) [("a", 1); ("b", 2); ("c", 3)])
             else if ge_cut (Some (5 # 2)) 3
                  then 1 / len (longs_of (Some (5 # 2)) [("a", 1); ("b", 2); ("c", 3)])
                  else 0).
Proof.
  assert (H2 : NoDup (map fst [("a", 1); ("b", 2); ("c", 3)])).
  { apply unique_labels_NoDup. reflexivity. }
  assert (H3 : In ("c", 3) [("a", 1); ("b", 2); ("c", 3)]) by (simpl; auto).
  split; [exact H2|]. split; [exact H3|].
  exact (@weight_by_leg (Some (5 # 2)) (Some (3 # 2)) _ "c" 3 H2 H3).
Defined.

(** X7.  The builder raises (the ValueError of [quantile]) exactly when one of
    the two quantile levels is outside [0, 1], whatever the scores. *)
Theorem position_weights_raises_iff_bad_level :
  forall (top_q bot_q : Q) (s : Series),
    raises (position_weights top_q bot_q s)
    <-> ~ ((0 <= top_q /\ top_q <= 1) /\ (0 <= bot_q /\ bot_q <= 1)).
Proof.
  intros top_q bot_q s.
  pose proof (quantile_raises_iff (map snd s) (1 - top_q)) as H1.
  pose proof (quantile_raises_iff (map snd s) bot_q) as H2.
  unfold position_weights, bind.
  destruct (quantile (map snd s) (1 - top_q)) as [lc|e1].
  - destruct (quantile (map snd s) bot_q) as [sc|e2].
    + split.
      * intros [e He]. discriminate He.
      * intros H. exfalso. apply H. split.
        -- assert (Hok : 0 <= 1 - top_q /\ 1 - top_q <= 1).
           { destruct (Qlt_le_dec (1 - top_q) 0) as [Ha | Ha];
               [exfalso; destruct H1 as [_ H1]; destruct H1 as [e He];
                [intros [Hx _]; Lqa.lra | discriminate He]|].
             destruct (Qlt_le_dec 1 (1 - top_q)) as [Hb | Hb];
               [exfalso; destruct H1 as [_ H1]; destruct H1 as [e He];
                [intros [_ Hx]; Lqa.lra | discriminate He]|].
             split; assumption. }
           split; Lqa.lra.
        -- destruct (Qlt_le_dec bot_q 0) as [Ha | Ha];
             [exfalso; destruct H2 as [_ H2]; destruct H2 as [e He];
              [intros [Hx _]; Lqa.lra | discriminate He]|].
           destruct (Qlt_le_dec 1 bot_q) as [Hb | Hb];
             [exfalso; destruct H2 as [_ H2]; destruct H2 as [e He];
              [intros [_ Hx]; Lqa.lra | discriminate He]|].
           split; assumption.
    + split; [|intros _; exists e2; reflexivity].
      intros _ [_ Hb]. apply (proj1 H2); [exists e2; reflexivity | exact Hb].
  - split; [|intros _; exists e1; reflexivity].
    intros _ [[Ha Hb] _]. apply (proj1 H1); [exists e1; reflexivity|].
    split; Lqa.lra.
Qed.

End PositionBuilderMore.


(* ================================================================= *)
(** ** More on the walk-forward loop *)

Section DictKeys.
Variable V : Type.

Lemma In_dict_set (k k' : Timestamp) (v v' : V) (m : dict V) :
  In (k', v') (dict_set k v m) -> (k', v') = (k, v) \/ In (k', v') m.
Proof.
  induction m as [|[k0 v0] r IH]; simpl.
  - intros [H | []]. left. congruence.
  - destruct (ts_eqb k k0); simpl.
    + intros [H | H]; [left; congruence | right; right; exact H].
    + intros [H | H]; [right; left; exact H|].
      destruct (IH H) as [E | Hin]; [left; exact E | right; right; exact Hin].
Qed.

Lemma dict_set_keys (k : Timestamp) (v : V) (m : dict V) (x : Timestamp) :
  In x (map fst (dict_set k v m)) <-> x = k \/ In x (map fst m).
Proof.
  induction m as [|[k0 v0] r IH]; simpl.
  - intuition congruence.
  - destruct (ts_eqb k k0) eqn:E; simpl.
    + apply ts_eqb_eq in E. subst k0. intuition congruence.
    + rewrite IH. intuition congruence.
Qed.

Lemma dict_set_NoDup (k : Timestamp) (v : V) (m : dict V) :
  NoDup (map fst m) -> NoDup (map fst (dict_set k v m)).
Proof.
  induction m as [|[k0 v0] r IH]; simpl; intros H.
  - constructor; [intros [] | constructor].
  - inversion H as [|? ? Hnotin Hr]; subst.
    destruct (ts_eqb k k0) eqn:E; simpl.
    + apply ts_eqb_eq in E. subst k0. constructor; assumption.
    + constructor; [|apply IH; exact Hr].
      rewrite dict_set_keys. intros [-> | Hin]; [|contradiction].
      rewrite ts_eqb_refl in E. discriminate.
Qed.

Lemma dict_get_In (k : Timestamp) (v : V) (m : dict V) :
  dict_get k m = Some v -> In (k, v) m.
Proof.
  induction m as [|[k0 v0] r IH]; simpl; [discriminate|].
  destruct (ts_eqb k k0) eqn:E.
  - apply ts_eqb_eq in E. subst k0. intros H. injection H as <-. left. reflexivity.
  - intros H. right. apply IH. exact H.
Qed.

Lemma In_dict_get (k : Timestamp) (v : V) (m : dict V) :
  NoDup (map fst m) -> In (k, v) m -> dict_get k m = Some v.
Proof.
  induction m as [|[k0 v0] r IH]; simpl; intros Hnd Hin; [contradiction|].
  inversion Hnd as [|? ? Hnotin Hr]; subst.
  destruct Hin as [E | Hin].
  - injection E as -> ->. rewrite ts_eqb_refl. reflexivity.
  - destruct (ts_eqb k k0) eqn:E.
    + apply ts_eqb_eq in E. subst k0. exfalso. apply Hnotin.
      apply in_map_iff. exists (k, v). split; [reflexivity | exact Hin].
    + apply IH; assumption.
Qed.

End DictKeys.

Section Columns.
Local Open Scope string_scope.

Lemma col_pos_None (c : string) (cols : list string) :
  col_pos c cols = None <-> ~ In c cols.
Proof.
  induction cols as [|x r IH]; simpl; [tauto|].
  destruct (String.eqb c x) eqn:E.
  - apply String.eqb_eq in E. subst x. split; [discriminate | intros H; exfalso; auto].
  - apply String.eqb_neq in E.
    destruct (col_pos c r) as [i|] eqn:Ep; simpl.
    + split; [discriminate|]. intros H. exfalso.
      destruct IH as [_ IH]. assert (Hn : ~ In c r) by (intros Hin; apply H; right; exact Hin).
      specialize (IH Hn). discriminate IH.
    + split; [|reflexivity]. intros _ [Hx | Hin]; [congruence|].
      apply (proj1 IH); [reflexivity | exact Hin].
Qed.

Lemma col_positions_outcome (names cols : list string) :
  (exists ps, col_positions names cols = Ok ps /\ forall c, In c names -> In c cols)
  \/ (col_positions names cols = Raise KeyError /\ exists c, In c names /\ ~ In c cols).
Proof.
  induction names as [|c r IH]; simpl.
  - left. exists []. split; [reflexivity | intros c []].
  - destruct (col_pos c cols) as [i|] eqn:E.
    + assert (Hc : In c cols).
      { destruct (in_dec string_dec c cols) as [H | H]; [exact H|].
        apply col_pos_None in H. congruence. }
      destruct IH as [(ps & -> & Hall) | (-> & c' & Hc' & Hn)]; simpl.
      * left. exists (i :: ps). split; [reflexivity|].
        intros c' [<- | H]; auto.
      * right. split; [reflexivity|]. exists c'. split; [right; exact Hc' | exact Hn].
    + right. split; [reflexivity|]. exists c. split; [left; reflexivity|].
      apply col_pos_None. exact E.
Qed.

Lemma dropna_subset_outcome (panel : DataFrame) (feature_cols : list string) :
  (exists usable, dropna_subset panel feature_cols = Ok usable
                  /\ has_columns panel (feature_cols ++ ["y_fwd_3m"]))
  \/ (dropna_subset panel feature_cols = Raise KeyError
      /\ exists c, In c (feature_cols ++ ["y_fwd_3m"]) /\ ~ In c (df_columns panel)).
Proof.
  unfold dropna_subset, has_columns.
  destruct (col_positions_outcome feature_cols (df_columns panel))
    as [(xs & -> & Hx) | (-> & c & Hc & Hn)]; cbn [bind].
  - destruct (col_positions_outcome ["y_fwd_3m"] (df_columns panel))
      as [(ys & -> & Hy) | (-> & c & Hc & Hn)]; cbn [bind].
    + left. eexists. split; [reflexivity|].
      intros c Hc. apply in_app_or in Hc. destruct Hc; auto.
    + right. split; [reflexivity|]. exists c. split; [apply in_or_app; right; exact Hc | exact Hn].
  - right. split; [reflexivity|]. exists c. split; [apply in_or_app; left; exact Hc | exact Hn].
Qed.

End Columns.


Section UniqueKeys.

Lemma key_eqb_eq (a b : Timestamp * ticker) : key_eqb a b = true <-> a = b.
Proof.
  unfold key_eqb. rewrite Bool.andb_true_iff, ts_eqb_eq, String.eqb_eq.
  destruct a, b; simpl. split; [intros [-> ->]; reflexivity | intros H; inversion H; auto].
Qed.

Lemma unique_keys_NoDup (l : list (Timestamp * ticker)) :
  unique_keys l = true -> NoDup l.
Proof.
  induction l as [|k r IH]; simpl; intros H; constructor;
    apply Bool.andb_true_iff in H; destruct H as [H1 H2].
  - apply Bool.negb_true_iff in H1. intros Hin.
    assert (existsb (key_eqb k) r = true); [|congruence].
    apply existsb_exists. exists k. split; [exact Hin | apply key_eqb_eq; reflexivity].
  - apply IH. exact H2.
Qed.

(** A map over a list that keeps at most one element per input, with the
    same key, keeps the keys distinct. *)
Lemma NoDup_flat_map_keys (A B K : Type) (f : A -> K) (h : B -> K)
    (g : A -> list B) (l : list A) :
  (forall x, g x = [] \/ exists y, g x = [y] /\ h y = f x) ->
  NoDup (map f l) -> NoDup (map h (flat_map g l)).
Proof.
  intros Hg. induction l as [|x r IH]; simpl; intros H; [constructor|].
  inversion H as [|? ? Hnotin Hr]; subst.
  destruct (Hg x) as [-> | (y & -> & Ey)]; simpl; [apply IH; exact Hr|].
  constructor; [|apply IH; exact Hr].
  intros Hin. apply Hnotin. rewrite <- Ey.
  apply in_map_iff in Hin. destruct Hin as (y' & Ey' & Hy').
  apply in_flat_map in Hy'. destruct Hy' as (x' & Hx' & Hy').
  rewrite <- Ey'. apply in_map_iff. exists x'. split; [|exact Hx'].
  destruct (Hg x') as [E | (y0 & E & E0)]; rewrite E in Hy'; [contradiction|].
  destruct Hy' as [<- | []]. symmetry. exact E0.
Qed.

Lemma dropna_subset_unique (panel : DataFrame) (feature_cols : list string)
    (usable : list URow) :
  unique_index panel ->
  dropna_subset panel feature_cols = Ok usable ->
  NoDup (map usable_key usable).
Proof.
  unfold unique_index, dropna_subset, bind. intros Hu.
  destruct (col_positions feature_cols (df_columns panel)) as [xs|]; [|discriminate].
  destruct (col_positions _ (df_columns panel)) as [ys|]; [|discriminate].
  intros H. injection H as <-.
  apply NoDup_flat_map_keys with (f := fun r => (r_date r, r_ticker r)); [|exact Hu].
  intros r. destruct (all_present (map (cell r) xs)) as [x|]; [|left; reflexivity].
  destruct (all_present (map (cell r) ys)) as [[|y ?]|]; try (left; reflexivity).
  right. eexists. split; reflexivity.
Qed.

Lemma length_dropna_subset (panel : DataFrame) (feature_cols : list string)
    (usable : list URow) :
  dropna_subset panel feature_cols = Ok usable ->
  (length usable <= length (df_rows panel))%nat.
Proof.
  unfold dropna_subset, bind.
  destruct (col_positions feature_cols (df_columns panel)) as [xs|]; [|discriminate].
  destruct (col_positions _ (df_columns panel)) as [ys|]; [|discriminate].
  intros H. injection H as <-.
  induction (df_rows panel) as [|r rest IH]; simpl; [lia|].
  rewrite length_app.
  destruct (all_present (map (cell r) xs)) as [x|]; simpl; [|lia].
  destruct (all_present (map (cell r) ys)) as [[|y ?]|]; simpl; lia.
Qed.

(** The tickers of one date of [usable] are distinct. *)
Lemma cross_section_unique (usable : list URow) (d : Timestamp) :
  NoDup (map usable_key usable) ->
  NoDup (map u_ticker (filter (fun u => ts_eqb (u_date u) d) usable)).
Proof.
  induction usable as [|u r IH]; simpl; intros H; [constructor|].
  inversion H as [|? ? Hnotin Hr]; subst.
  destruct (ts_eqb (u_date u) d) eqn:E; simpl; [|apply IH; exact Hr].
  constructor; [|apply IH; exact Hr].
  intros Hin. apply Hnotin. apply in_map_iff in Hin.
  destruct Hin as (u' & Et & Hu'). apply filter_In in Hu'. destruct Hu' as [Hu' Ed].
  apply in_map_iff. exists u'. split; [|exact Hu'].
  apply ts_eqb_eq in E. apply ts_eqb_eq in Ed. unfold usable_key. congruence.
Qed.

End UniqueKeys.


Section LoopInvariants.
Local Open Scope Q_scope.
Variable Fitted : Type.
Variable fit : Z -> list (list Q) -> list Q -> Fitted.
Variable predict : Fitted -> list Q -> flt.
Variable usable : list URow.
Variables top_q bot_q : Q.
Variable min_universe : Z.
Variable seed : Z.

Local Notation "'score_date''" := (score_date predict usable top_q bot_q min_universe).
Local Notation "'score_dates''" := (score_dates predict usable top_q bot_q min_universe).
Local Notation "'run_split''" := (run_split fit predict usable top_q bot_q min_universe seed).
Local Notation "'run_splits''" := (run_splits fit predict usable top_q bot_q min_universe seed).

Section Invariant.
(** A property of the entries kept by every step of the loop. *)
Variable P : Timestamp -> Series -> Prop.

Lemma score_dates_invariant model ds :
  forall mp mp',
    score_dates' model ds mp = Ok mp' ->
    (forall d w, In d ds -> score_date' model d = Ok (Some w) -> P d w) ->
    (forall d w, In (d, w) mp -> P d w) ->
    forall d w, In (d, w) mp' -> P d w.
Proof.
  induction ds as [|d0 rest IH]; intros mp mp' Hrun Hnew Hold.
  - simpl in Hrun. injection Hrun as <-. exact Hold.
  - cbn [score_dates] in Hrun.
    destruct (score_date' model d0) as [ow|e] eqn:E; cbn [bind] in Hrun; [|discriminate].
    apply (IH _ _ Hrun).
    + intros d w Hd. apply Hnew. right. exact Hd.
    + destruct ow as [w0|]; [|exact Hold].
      intros d w Hin. apply In_dict_set in Hin. destruct Hin as [Eq | Hin].
      * injection Eq as -> ->. apply Hnew; [left; reflexivity | exact E].
      * apply Hold. exact Hin.
Qed.

Lemma run_splits_invariant splits :
  forall mp mp',
    run_splits' splits mp = Ok mp' ->
    (forall sp model d w,
        In sp splits -> In d (snd sp) -> score_date' model d = Ok (Some w) -> P d w) ->
    (forall d w, In (d, w) mp -> P d w) ->
    forall d w, In (d, w) mp' -> P d w.
Proof.
  induction splits as [|sp rest IH]; intros mp mp' Hrun Hnew Hold.
  - simpl in Hrun. injection Hrun as <-. exact Hold.
  - cbn [run_splits] in Hrun.
    destruct (run_split' mp sp) as [mp1|e] eqn:E; cbn [bind] in Hrun; [|discriminate].
    apply (IH _ _ Hrun).
    + intros sp' model d w Hsp. apply Hnew. right. exact Hsp.
    + unfold run_split in E.
      destruct (length _ <? min_train_rows)%nat; [injection E as <-; exact Hold|].
      apply (score_dates_invariant _ _ _ E); [|exact Hold].
      intros d w Hd Hs. exact (Hnew sp _ d w (or_introl eq_refl) Hd Hs).
Qed.

End Invariant.

Lemma score_dates_NoDup model ds :
  forall mp mp',
    score_dates' model ds mp = Ok mp' -> NoDup (map fst mp) -> NoDup (map fst mp').
Proof.
  induction ds as [|d0 rest IH]; intros mp mp' Hrun Hnd.
  - simpl in Hrun. injection Hrun as <-. exact Hnd.
  - cbn [score_dates] in Hrun.
    destruct (score_date' model d0) as [ow|e]; cbn [bind] in Hrun; [|discriminate].
    apply (IH _ _ Hrun). destruct ow; [apply dict_set_NoDup|]; exact Hnd.
Qed.

Lemma run_splits_NoDup splits :
  forall mp mp',
    run_splits' splits mp = Ok mp' -> NoDup (map fst mp) -> NoDup (map fst mp').
Proof.
  induction splits as [|sp rest IH]; intros mp mp' Hrun Hnd.
  - simpl in Hrun. injection Hrun as <-. exact Hnd.
  - cbn [run_splits] in Hrun.
    destruct (run_split' mp sp) as [mp1|e] eqn:E; cbn [bind] in Hrun; [|discriminate].
    apply (IH _ _ Hrun). unfold run_split in E.
    destruct (length _ <? min_train_rows)%nat; [injection E as <-; exact Hnd|].
    exact (score_dates_NoDup _ _ _ E Hnd).
Qed.

(** What a scored date went through. *)
Lemma score_date_scored model d w :
  score_date' model d = Ok (Some w) ->
  (min_universe <= Z.of_nat (length (filter (fun u => ts_eqb (u_date u) d) usable)))%Z
  /\ position_weights top_q bot_q
       (scores predict model (filter (fun u => ts_eqb (u_date u) d) usable)) = Ok w.
Proof.
  unfold score_date.
  destruct (Z.of_nat _ <? min_universe)%Z eqn:E; [discriminate|].
  apply Z.ltb_ge in E. unfold bind.
  destruct (position_weights top_q bot_q _) as [w'|]; [|discriminate].
  intros H. injection H as <-. split; [exact E | reflexivity].
Qed.

Lemma position_weights_assign (s w : Series) :
  position_weights top_q bot_q s = Ok w ->
  exists long_cut short_cut,
    quantile (map snd s) (1 - top_q) = Ok long_cut
    /\ quantile (map snd s) bot_q = Ok short_cut
    /\ w = assign_weights long_cut short_cut s.
Proof.
  unfold position_weights, bind.
  destruct (quantile (map snd s) (1 - top_q)) as [lc|]; [|discriminate].
  destruct (quantile (map snd s) bot_q) as [sc|]; [|discriminate].
  intros H. injection H as <-. exists lc, sc. auto.
Qed.

Lemma assign_weights_tickers (lc sc : flt) (s : Series) :
  map fst (assign_weights lc sc s) = map fst s.
Proof. rewrite assign_weights_rows, map_map. reflexivity. Qed.

Lemma assign_weights_range (lc sc : flt) (s : Series) :
  Forall (fun e => -(1) <= snd e /\ snd e <= 1) (assign_weights lc sc s).
Proof.
  rewrite assign_weights_rows. apply Forall_forall. intros e He.
  apply in_map_iff in He. destruct He as (e0 & <- & _). simpl. apply weight_of_bounds.
Qed.

Lemma scores_tickers_unique model (X : list URow) :
  NoDup (map u_ticker X) -> NoDup (map fst (scores predict model X)).
Proof.
  unfold scores. apply NoDup_flat_map_keys.
  intros u. destruct (predict model (u_x u)); [|left; reflexivity].
  right. eexists. split; reflexivity.
Qed.

Lemma scores_complete model (X : list URow) :
  (forall u, In u X -> predict model (u_x u) <> None) ->
  length (scores predict model X) = length X.
Proof.
  unfold scores. induction X as [|u r IH]; simpl; intros H; [reflexivity|].
  destruct (predict model (u_x u)) eqn:E.
  - simpl. f_equal. apply IH. intros u' Hu'. apply H. right. exact Hu'.
  - exfalso. apply (H u); [left; reflexivity | exact E].
Qed.

Lemma quantile_ok_level (s : list Q) (q : Q) (c : flt) :
  quantile s q = Ok c -> 0 <= q /\ q <= 1.
Proof.
  unfold quantile.
  destruct (Qle_bool 0 q) eqn:E0; destruct (Qle_bool q 1) eqn:E1; simpl; try discriminate.
  intros _. split; apply Qle_bool_iff; assumption.
Qed.

Lemma quantile_ok_of_level (s : list Q) (q : Q) :
  0 <= q -> q <= 1 -> exists c, quantile s q = Ok c.
Proof.
  intros H0 H1. destruct (quantile s q) as [c|e] eqn:E; [exists c; reflexivity|].
  exfalso. apply (proj1 (quantile_raises_iff s q)); [exists e; exact E | split; assumption].
Qed.

(** A nonempty vector written by the builder on unique tickers has a
    short side that sums to minus one. *)
Lemma written_short_side (s w : Series) :
  NoDup (map fst s) ->
  position_weights top_q bot_q s = Ok w ->
  w <> [] -> sum_negative w == -(1).
Proof.
  intros Hnd Hw Hne.
  destruct (position_weights_assign _ Hw) as (lc & sc & EL & ES & ->).
  assert (Hs : map snd s <> []).
  { destruct s as [|e r]; [|discriminate]. exfalso. apply Hne. reflexivity. }
  destruct (quantile_ok_level _ _ ES) as [Hb0 Hb1].
  destruct (quantile_between Hs Hb0 Hb1) as (c & lo & _ & Ec & Hlo & _ & Hc & _).
  rewrite ES in Ec. injection Ec as ->.
  apply short_leg_sums_to_minus_one; [exact Hnd|].
  apply In_snd_series in Hlo. destruct Hlo as (t & Hlo).
  assert (Hin : In t (shorts_of (Some c) s)).
  { unfold shorts_of. apply in_map_iff. exists (t, lo). split; [reflexivity|].
    apply filter_In. split; [exact Hlo|]. simpl. apply Qle_bool_iff. exact Hc. }
  destruct (shorts_of (Some c) s); [contradiction | simpl; lia].
Qed.

(** With levels in [0, 1] no step of the loop raises. *)
Lemma run_splits_returns splits :
  0 <= top_q /\ top_q <= 1 -> 0 <= bot_q /\ bot_q <= 1 ->
  forall mp, exists mp', run_splits' splits mp = Ok mp'.
Proof.
  intros [Ht0 Ht1] [Hb0 Hb1].
  assert (Hdate : forall model d, exists ow, score_date' model d = Ok ow).
  { intros model d. unfold score_date.
    destruct (Z.of_nat _ <? min_universe)%Z; [eexists; reflexivity|].
    unfold position_weights, bind.
    destruct (@quantile_ok_of_level (map snd (scores predict model
                (filter (fun u => ts_eqb (u_date u) d) usable))) (1 - top_q))
      as [lc ->]; [Lqa.lra | Lqa.lra |].
    destruct (@quantile_ok_of_level (map snd (scores predict model
                (filter (fun u => ts_eqb (u_date u) d) usable))) bot_q)
      as [sc ->]; [assumption | assumption |].
    eexists. reflexivity. }
  assert (Hdates : forall model ds mp, exists mp', score_dates' model ds mp = Ok mp').
  { intros model ds. induction ds as [|d rest IH]; intros mp; [eexists; reflexivity|].
    cbn [score_dates]. destruct (Hdate model d) as [ow ->]. cbn [bind]. apply IH. }
  induction splits as [|sp rest IH]; intros mp; [eexists; reflexivity|].
  cbn [run_splits].
  assert (Hsp : exists mp1, run_split' mp sp = Ok mp1).
  { unfold run_split. destruct (length _ <? min_train_rows)%nat; [eexists; reflexivity|].
    apply Hdates. }
  destruct Hsp as [mp1 ->]. cbn [bind]. apply IH.
Qed.

(** With fewer usable rows than the training floor every split is
    skipped. *)
Lemma run_splits_skips_all splits mp :
  (length usable < min_train_rows)%nat -> run_splits' splits mp = Ok mp.
Proof.
  intros Hlen. induction splits as [|sp rest IH]; [reflexivity|].
  cbn [run_splits]. unfold run_split at 1.
  assert (E : (length (filter (fun u => existsb (ts_eqb (u_date u)) (fst sp)) usable)
               <? min_train_rows)%nat = true).
  { apply Nat.ltb_lt.
    assert (H : (length (filter (fun u => existsb (ts_eqb (u_date u)) (fst sp)) usable)
                 <= length usable)%nat).
    { clear. induction usable as [|u r IH]; simpl; [lia|].
      destruct (existsb _ _); simpl; lia. }
    lia. }
  rewrite E. cbn [bind]. exact IH.
Qed.

Lemma run_splits_raises_ValueError splits :
  forall mp e, run_splits' splits mp = Raise e -> e = ValueError.
Proof.
  assert (Hdates : forall model ds mp e,
             score_dates' model ds mp = Raise e -> e = ValueError).
  { intros model ds. induction ds as [|d rest IH]; intros mp e H; [discriminate|].
    cbn [score_dates] in H.
    destruct (score_date' model d) as [ow|e'] eqn:E; cbn [bind] in H.
    - exact (IH _ _ H).
    - injection H as <-. eapply score_date_raises_ValueError. exact E. }
  induction splits as [|sp rest IH]; intros mp e H; [discriminate|].
  cbn [run_splits] in H.
  destruct (run_split' mp sp) as [mp1|e'] eqn:E; cbn [bind] in H.
  - exact (IH _ _ H).
  - injection H as <-. unfold run_split in E.
    destruct (length _ <? min_train_rows)%nat; [discriminate|].
    exact (Hdates _ _ _ _ E).
Qed.

End LoopInvariants.


(* ================================================================= *)
(** ** The schedule [generate_monthly_positions] returns *)

Section GenerateFacts.
Local Open Scope Q_scope.
Local Open Scope string_scope.
Variable Fitted : Type.
Variable fit : Z -> list (list Q) -> list Q -> Fitted.
Variable predict : Fitted -> list Q -> flt.

Local Notation "'generate'" := (generate_monthly_positions fit predict).

Lemma NoDup_unique_labels (l : list ticker) : NoDup l -> unique_labels l = true.
Proof.
  induction 1 as [|t r Hnotin Hr IH]; simpl; [reflexivity|].
  rewrite IH, Bool.andb_true_r. apply Bool.negb_true_iff.
  destruct (mem t r) eqn:E; [|reflexivity].
  exfalso. apply Hnotin. apply mem_In. exact E.
Qed.

Lemma split_test_dates_given rebal_dates train_years test_months sp d :
  In sp (make_walkforward_splits rebal_dates train_years test_months) ->
  In d (snd sp) -> In d rebal_dates.
Proof.
  intros Hsp Hd. destruct sp as [tr te]. unfold make_walkforward_splits in Hsp.
  apply in_flat_map in Hsp. destruct Hsp as (c & _ & Hsp).
  apply split_at_shape in Hsp. destruct Hsp as (_ & -> & _ & _).
  simpl in Hd. apply filter_In in Hd. apply In_sort_values. tauto.
Qed.

Lemma short_history_no_split rebal_dates train_years test_months :
  (length rebal_dates < 25)%nat ->
  make_walkforward_splits rebal_dates train_years test_months = [].
Proof.
  intros Hlen. unfold make_walkforward_splits.
  set (sorted := sort_values rebal_dates).
  assert (Hall : forall c, In c sorted -> split_at sorted train_years test_months c = []).
  { intros c Hc. unfold split_at.
    set (trd := filter _ sorted).
    assert (Hlt : (length trd < length sorted)%nat).
    { apply filter_length_drop with c; [exact Hc|].
      apply Bool.andb_false_iff. right.
      destruct (ts_ltb c c) eqn:E; [|reflexivity].
      exfalso. exact (ts_lt_irrefl E). }
    assert (Hs : length sorted = length rebal_dates) by apply length_sort_values.
    assert (E : (length trd <? min_train_dates)%nat = true).
    { apply Nat.ltb_lt. unfold min_train_dates. lia. }
    rewrite E. reflexivity. }
  apply flat_map_nil. exact Hall.
Qed.

(** The usable rows of one date come from the panel rows of that date,
    at most one per panel row. *)
Lemma dropna_subset_cross_section (panel : DataFrame) (feature_cols : list string)
    (usable : list URow) (d : Timestamp) :
  dropna_subset panel feature_cols = Ok usable ->
  (forall u, In u (filter (fun u => ts_eqb (u_date u) d) usable) ->
             exists r, In r (rows_on panel d) /\ r_ticker r = u_ticker u)
  /\ (length (filter (fun u => ts_eqb (u_date u) d) usable)
      <= length (rows_on panel d))%nat.
Proof.
  unfold dropna_subset, bind, rows_on.
  destruct (col_positions feature_cols (df_columns panel)) as [xs|]; [|discriminate].
  destruct (col_positions _ (df_columns panel)) as [ys|]; [|discriminate].
  intros H. injection H as <-.
  induction (df_rows panel) as [|r rest [IH1 IH2]]; simpl; [split; [intros u []|lia]|].
  rewrite filter_app, length_app.
  assert (Hr : forall u,
             In u (match all_present (map (cell r) xs), all_present (map (cell r) ys) with
                   | Some x, Some (y :: _) => [mkURow (r_date r) (r_ticker r) x y]
                   | _, _ => []
                   end) -> u_date u = r_date r /\ u_ticker u = r_ticker r).
  { intros u. destruct (all_present (map (cell r) xs)) as [x|]; [|intros []].
    destruct (all_present (map (cell r) ys)) as [[|y ?]|]; [intros [] | | intros []].
    intros [<- | []]. split; reflexivity. }
  assert (Hl : (length (match all_present (map (cell r) xs),
                              all_present (map (cell r) ys) with
                        | Some x, Some (y :: _) => [mkURow (r_date r) (r_ticker r) x y]
                        | _, _ => []
                        end) <= 1)%nat).
  { destruct (all_present (map (cell r) xs)) as [x|]; [|simpl; lia].
    destruct (all_present (map (cell r) ys)) as [[|y ?]|]; simpl; lia. }
  set (g := match all_present (map (cell r) xs), all_present (map (cell r) ys) with
            | Some x, Some (y :: _) => [mkURow (r_date r) (r_ticker r) x y]
            | _, _ => []
            end) in *.
  destruct (ts_eqb (r_date r) d) eqn:E.
  - split.
    + intros u Hu. apply in_app_or in Hu. destruct Hu as [Hu | Hu].
      * apply filter_In in Hu. destruct (Hr u (proj1 Hu)) as [_ Et].
        exists r. split; [left; reflexivity | symmetry; exact Et].
      * destruct (IH1 u Hu) as (r' & Hr' & Et). exists r'. split; [right; exact Hr' | exact Et].
    + pose proof (filter_length_le (fun _ => true) (fun u => ts_eqb (u_date u) d) g) as Hf.
      assert (Hg : (length (filter (fun u => ts_eqb (u_date u) d) g) <= length g)%nat).
      { clear. induction g as [|z g' IHg]; simpl; [lia|]. destruct (ts_eqb _ _); simpl; lia. }
      simpl. lia.
  - assert (Hnone : filter (fun u => ts_eqb (u_date u) d) g = []).
    { destruct (filter (fun u => ts_eqb (u_date u) d) g) as [|u ?] eqn:Ef; [reflexivity|].
      assert (Hu : In u (filter (fun u => ts_eqb (u_date u) d) g)) by (rewrite Ef; left; reflexivity).
      apply filter_In in Hu. destruct Hu as [Hu Hd].
      destruct (Hr u Hu) as [Ed _]. rewrite Ed in Hd. congruence. }
    rewrite Hnone. simpl. split; [exact IH1 | exact IH2].
Qed.

Lemma scores_tickers_given model (X : list URow) (t : ticker) :
  In t (map fst (scores predict model X)) -> exists u, In u X /\ u_ticker u = t.
Proof.
  unfold scores. intros H. apply in_map_iff in H. destruct H as ([t' p] & <- & H).
  apply in_flat_map in H. destruct H as (u & Hu & H).
  destruct (predict model (u_x u)); [|contradiction].
  destruct H as [E | []]. injection E as <- _. exists u. split; [exact Hu | reflexivity].
Qed.

(** X8.  The keys of the returned schedule are pairwise distinct and are
    rebalance dates that were passed in. *)
Theorem schedule_keys_are_distinct_rebalance_dates :
  forall panel feature_cols rebal_dates top_q bot_q min_universe seed m,
    generate panel feature_cols rebal_dates top_q bot_q min_universe seed = Ok m ->
    NoDup (map fst m) /\ forall d w, In (d, w) m -> In d rebal_dates.
Proof.
  intros panel fc rebal top_q bot_q mu seed m H.
  unfold generate_monthly_positions in H.
  destruct (dropna_subset panel fc) as [usable|]; cbn [bind] in H; [|discriminate].
  split.
  - eapply run_splits_NoDup; [exact H | constructor].
  - eapply run_splits_invariant with (P := fun d _ => In d rebal); [exact H | |].
    + intros sp model d w Hsp Hd _. eapply split_test_dates_given; eassumption.
    + intros d w [].
Qed.

(** X9.  Every stored vector covers at least [min_universe] panel rows of its
    date, names only tickers the panel has at that date, and holds
    weights between -1 and 1. *)
Theorem stored_vectors_come_from_the_cross_section :
  forall panel feature_cols rebal_dates top_q bot_q min_universe seed m d w,
    generate panel feature_cols rebal_dates top_q bot_q min_universe seed = Ok m ->
    In (d, w) m ->
    (min_universe <= Z.of_nat (length (rows_on panel d)))%Z
    /\ (forall t, In t (map fst w) -> exists r, In r (rows_on panel d) /\ r_ticker r = t)
    /\ in_unit_range w.
Proof.
  intros panel fc rebal top_q bot_q mu seed m d w H Hin.
  unfold generate_monthly_positions in H.
  destruct (dropna_subset panel fc) as [usable|] eqn:Eu; cbn [bind] in H; [|discriminate].
  revert d w Hin.
  eapply run_splits_invariant
    with (P := fun d w =>
              (mu <= Z.of_nat (length (rows_on panel d)))%Z
              /\ (forall t, In t (map fst w) ->
                            exists r, In r (rows_on panel d) /\ r_ticker r = t)
              /\ in_unit_range w); [exact H | | intros d w []].
  intros sp model d w _ _ Hs.
  apply score_date_scored in Hs. destruct Hs as [Hmu Hw].
  destruct (@dropna_subset_cross_section panel fc usable d Eu) as [Hrows Hlen].
  apply position_weights_assign in Hw. destruct Hw as (lc & sc & _ & _ & ->).
  split; [lia|]. split.
  - intros t Ht. rewrite assign_weights_tickers in Ht.
    apply scores_tickers_given in Ht. destruct Ht as (u & Hu & <-).
    exact (Hrows u Hu).
  - apply assign_weights_range.
Qed.

Lemma generate_on_unique_index :
  forall panel feature_cols rebal_dates top_q bot_q min_universe seed m,
    unique_index panel ->
    generate panel feature_cols rebal_dates top_q bot_q min_universe seed = Ok m ->
    reindexable m = true
    /\ forall d w, In (d, w) m -> w <> [] -> sum_negative w == -(1).
Proof.
  intros panel fc rebal top_q bot_q mu seed m Hu H.
  unfold generate_monthly_positions in H.
  destruct (dropna_subset panel fc) as [usable|] eqn:Eu; cbn [bind] in H; [|discriminate].
  pose proof (@dropna_subset_unique panel fc usable Hu Eu) as Hk.
  assert (Hinv : forall d w, In (d, w) m ->
                   NoDup (map fst w) /\ (w <> [] -> sum_negative w == -(1))).
  { eapply run_splits_invariant
      with (P := fun _ w => NoDup (map fst w) /\ (w <> [] -> sum_negative w == -(1)));
      [exact H | | intros d w []].
    intros sp model d w _ _ Hs.
    apply score_date_scored in Hs. destruct Hs as [_ Hw].
    assert (Hnd : NoDup (map fst (scores predict model
                     (filter (fun u => ts_eqb (u_date u) d) usable)))).
    { apply scores_tickers_unique. apply cross_section_unique. exact Hk. }
    split.
    - apply position_weights_assign in Hw. destruct Hw as (lc & sc & _ & _ & ->).
      rewrite assign_weights_tickers. exact Hnd.
    - eapply written_short_side; eassumption. }
  split.
  - unfold reindexable. apply forallb_forall. intros [d w] Hin. simpl.
    apply NoDup_unique_labels. exact (proj1 (Hinv d w Hin)).
  - intros d w Hin. exact (proj2 (Hinv d w Hin)).
Qed.

(** X10.  On a panel whose (date, ticker) index is unique, every stored vector
    has distinct tickers, so the simulator can reindex the schedule, and
    the short side of every nonempty vector sums to -1. *)
Theorem unique_index_gives_reindexable_schedule :
  forall panel feature_cols rebal_dates top_q bot_q min_universe seed m,
    unique_index panel ->
    generate panel feature_cols rebal_dates top_q bot_q min_universe seed = Ok m ->
    reindexable m = true
    /\ forall d w, In (d, w) m -> w <> [] -> sum_negative w == -(1).
Proof. exact generate_on_unique_index. Qed.

(** X11.  The call raises KeyError exactly when a feature column or the target
    column is missing from the panel. *)
Theorem generate_raises_KeyError_iff_column_missing :
  forall panel feature_cols rebal_dates top_q bot_q min_universe seed,
    generate panel feature_cols rebal_dates top_q bot_q min_universe seed = Raise KeyError
    <-> exists c, In c (needed_columns feature_cols) /\ ~ In c (df_columns panel).
Proof.
  intros panel fc rebal top_q bot_q mu seed. unfold generate_monthly_positions, needed_columns.
  destruct (dropna_subset_outcome panel fc) as [(usable & -> & Hc) | (-> & Hmiss)];
    cbn [bind].
  - split.
    + intros H. apply run_splits_raises_ValueError in H. discriminate.
    + intros (c & Hin & Hn). exfalso. apply Hn. exact (Hc c Hin).
  - split; [intros _; exact Hmiss | reflexivity].
Qed.

(** X12.  A ValueError comes from a quantile level outside [0, 1], on a panel
    that has every needed column; no other exception than these two is
    raised. *)
Theorem generate_raises_ValueError_only_for_bad_level :
  forall panel feature_cols rebal_dates top_q bot_q min_universe seed e,
    generate panel feature_cols rebal_dates top_q bot_q min_universe seed = Raise e ->
    e = KeyError
    \/ (e = ValueError
        /\ has_columns panel (needed_columns feature_cols)
        /\ ~ (valid_level top_q /\ valid_level bot_q)).
Proof.
  intros panel fc rebal top_q bot_q mu seed e. unfold generate_monthly_positions, needed_columns.
  destruct (dropna_subset_outcome panel fc) as [(usable & -> & Hc) | (-> & Hmiss)];
    cbn [bind].
  - intros H. right. split; [eapply run_splits_raises_ValueError; exact H|].
    split; [exact Hc|]. intros [Ht Hb].
    destruct (@run_splits_returns _ fit predict usable top_q bot_q mu seed
                (make_walkforward_splits rebal 5 6) Ht Hb []) as [m' Em].
    rewrite Em in H. discriminate.
  - intros H. injection H as <-. left. reflexivity.
Qed.

Lemma generate_returns :
  forall panel feature_cols rebal_dates top_q bot_q min_universe seed,
    has_columns panel (needed_columns feature_cols) ->
    valid_level top_q -> valid_level bot_q ->
    returns_value
      (generate panel feature_cols rebal_dates top_q bot_q min_universe seed).
Proof.
  intros panel fc rebal top_q bot_q mu seed Hc Ht Hb.
  unfold generate_monthly_positions, needed_columns in *.
  destruct (dropna_subset_outcome panel fc) as [(usable & -> & _) | (_ & c & Hin & Hn)];
    cbn [bind].
  - exact (@run_splits_returns _ fit predict usable top_q bot_q mu seed _ Ht Hb []).
  - exfalso. apply Hn. exact (Hc c Hin).
Qed.

(** X13.  With every needed column present and both levels in [0, 1] the call
    returns a schedule. *)
Theorem generate_returns_on_valid_input :
  forall panel feature_cols rebal_dates top_q bot_q min_universe seed,
    has_columns panel (needed_columns feature_cols) ->
    valid_level top_q -> valid_level bot_q ->
    returns_value
      (generate panel feature_cols rebal_dates top_q bot_q min_universe seed).
Proof. exact generate_returns. Qed.

Lemma little_data_empty_schedule :
  forall panel feature_cols rebal_dates top_q bot_q min_universe seed,
    has_columns panel (needed_columns feature_cols) ->
    (length (df_rows panel) < 1000)%nat \/ (length rebal_dates < 25)%nat ->
    generate panel feature_cols rebal_dates top_q bot_q min_universe seed = Ok [].
Proof.
  intros panel fc rebal top_q bot_q mu seed Hc Hshort.
  unfold generate_monthly_positions, needed_columns in *.
  destruct (dropna_subset_outcome panel fc) as [(usable & Eu & _) | (_ & c & Hin & Hn)];
    [|exfalso; apply Hn; exact (Hc c Hin)].
  rewrite Eu. cbn [bind]. destruct Hshort as [Hrows | Hdates].
  - apply run_splits_skips_all. pose proof (@length_dropna_subset panel fc usable Eu).
    unfold min_train_rows. lia.
  - rewrite short_history_no_split by exact Hdates. reflexivity.
Qed.

(** X14.  With fewer than 1000 rows in the panel, or fewer than 25 rebalance
    dates, the schedule is empty whatever the levels are. *)
Theorem too_little_data_gives_empty_schedule :
  forall panel feature_cols rebal_dates top_q bot_q min_universe seed,
    has_columns panel (needed_columns feature_cols) ->
    (length (df_rows panel) < 1000)%nat \/ (length rebal_dates < 25)%nat ->
    generate panel feature_cols rebal_dates top_q bot_q min_universe seed = Ok [].
Proof. exact little_data_empty_schedule. Qed.

End GenerateFacts.

Section GenerateOnToy.
Local Open Scope Q_scope.
Local Open Scope string_scope.

Lemma toy_generate_schedule :
  generate_monthly_positions Toy.fit Toy.predict Toy.panel ["close"] Toy.rebal_dates
    (1 # 10) (1 # 10) 50 42 = Ok toy_schedule.
Proof. vm_compute. reflexivity. Qed.

Lemma toy_unique_index : unique_index Toy.panel.
Proof. apply unique_keys_NoDup. vm_compute. reflexivity. Qed.

Lemma toy_has_columns : has_columns Toy.panel (needed_columns ["close"]).
Proof. intros c Hc. vm_compute in Hc. vm_compute. tauto. Qed.

Lemma schedule_keys_witness :
  generate_monthly_positions Toy.fit Toy.predict Toy.panel ["close"] Toy.rebal_dates
    (1 # 10) (1 # 10) 50 42 = Ok toy_schedule
  /\ NoDup (map fst toy_schedule)
  /\ forall d w, In (d, w) toy_schedule -> In d Toy.rebal_dates.
Proof.
  split; [exact toy_generate_schedule|].
  exact (@schedule_keys_are_distinct_rebalance_dates _ Toy.fit Toy.predict Toy.panel
           ["close"] Toy.rebal_dates (1 # 10) (1 # 10) 50 42 toy_schedule
           toy_generate_schedule).
Defined.

Lemma toy_entry_stored : In (fst toy_entry, snd toy_entry) toy_schedule.
Proof. vm_compute. left. reflexivity. Qed.

Lemma stored_vectors_witness :
  generate_monthly_positions Toy.fit Toy.predict Toy.panel ["close"] Toy.rebal_dates
    (1 # 10) (1 # 10) 50 42 = Ok toy_schedule
  /\ In (fst toy_entry, snd toy_entry) toy_schedule
  /\ (50 <= Z.of_nat (length (rows_on Toy.panel (fst toy_entry))))%Z
  /\ (forall t, In t (map fst (snd toy_entry)) ->
                exists r, In r (rows_on Toy.panel (fst toy_entry)) /\ r_ticker r = t)
  /\ in_unit_range (snd toy_entry).
Proof.
  split; [exact toy_generate_schedule|]. split; [exact toy_entry_stored|].
  exact (@stored_vectors_come_from_the_cross_section _ Toy.fit Toy.predict Toy.panel
           ["close"] Toy.rebal_dates (1 # 10) (1 # 10) 50 42 toy_schedule
           (fst toy_entry) (snd toy_entry) toy_generate_schedule toy_entry_stored).
Defined.

Lemma unique_index_witness :
  unique_index Toy.panel
  /\ generate_monthly_positions Toy.fit Toy.predict Toy.panel ["close"] Toy.rebal_dates
       (1 # 10) (1 # 10) 50 42 = Ok toy_schedule
  /\ reindexable toy_schedule = true
  /\ forall d w, In (d, w) toy_schedule -> w <> [] -> sum_negative w == -(1).
Proof.
  split; [exact toy_unique_index|]. split; [exact toy_generate_schedule|].
  exact (@unique_index_gives_reindexable_schedule _ Toy.fit Toy.predict Toy.panel
           ["close"] Toy.rebal_dates (1 # 10) (1 # 10) 50 42 toy_schedule
           toy_unique_index toy_generate_schedule).
Defined.

Lemma toy_bad_level_raises :
  generate_monthly_positions Toy.fit Toy.predict Toy.panel ["close"] Toy.rebal_dates
    2 (1 # 10) 50 42 = Raise ValueError.
Proof. vm_compute. reflexivity. Qed.

Lemma bad_level_witness :
  generate_monthly_positions Toy.fit Toy.predict Toy.panel ["close"] Toy.rebal_dates
    2 (1 # 10) 50 42 = Raise ValueError
  /\ (ValueError = KeyError
      \/ (ValueError = ValueError
          /\ has_columns Toy.panel (needed_columns ["close"])
          /\ ~ (valid_level 2 /\ valid_level (1 # 10)))).
Proof.
  split; [exact toy_bad_level_raises|].
  exact (@generate_raises_ValueError_only_for_bad_level _ Toy.fit Toy.predict Toy.panel
           ["close"] Toy.rebal_dates 2 (1 # 10) 50 42 ValueError toy_bad_level_raises).
Defined.

Lemma toy_level_valid : valid_level (1 # 10).
Proof. unfold valid_level. split; Lqa.lra. Qed.

Lemma generate_returns_witness :
  has_columns Toy.panel (needed_columns ["close"])
  /\ valid_level (1 # 10)
  /\ returns_value
       (generate_monthly_positions Toy.fit Toy.predict Toy.panel ["close"]
          Toy.rebal_dates (1 # 10) (1 # 10) 50 42).
Proof.
  split; [exact toy_has_columns|]. split; [exact toy_level_valid|].
  exact (@generate_returns_on_valid_input _ Toy.fit Toy.predict Toy.panel ["close"]
           Toy.rebal_dates (1 # 10) (1 # 10) 50 42
           toy_has_columns toy_level_valid toy_level_valid).
Defined.

Lemma too_little_data_witness :
  has_columns Toy.panel (needed_columns ["close"])
  /\ ((length (df_rows Toy.panel) < 1000)%nat
      \/ (length (map Toy.month_end (seq 0 24)) < 25)%nat)
  /\ generate_monthly_positions Toy.fit Toy.predict Toy.panel ["close"]
       (map Toy.month_end (seq 0 24)) (1 # 10) (1 # 10) 50 42 = Ok [].
Proof.
  assert (H : (length (df_rows Toy.panel) < 1000)%nat
              \/ (length (map Toy.month_end (seq 0 24)) < 25)%nat).
  { right. vm_compute. lia. }
  split; [exact toy_has_columns|]. split; [exact H|].
  exact (@too_little_data_gives_empty_schedule _ Toy.fit Toy.predict Toy.panel ["close"]
           (map Toy.month_end (seq 0 24)) (1 # 10) (1 # 10) 50 42 toy_has_columns H).
Defined.

End GenerateOnToy.


(* ================================================================= *)
(** ** Month ends *)

Section MonthEndFacts.
Local Open Scope Z_scope.

Lemma month_key_same (a b : Timestamp) : month_key a = month_key b <-> same_month a b.
Proof.
  unfold month_key, same_month. split.
  - intros H. injection H as -> ->. split; reflexivity.
  - intros [-> ->]. reflexivity.
Qed.

Lemma month_key_lt (a b : Timestamp) : ts_lt (month_key a) (month_key b) -> ts_lt a b.
Proof. unfold ts_lt. rewrite !ts_ltb_iff. simpl. lia. Qed.

Lemma sorted_by_key (A : Type) (f : A -> Timestamp) (R : A -> A -> Prop) (l : list A) :
  (forall a b, ts_lt (f a) (f b) -> R a b) ->
  StronglySorted ts_lt (map f l) -> StronglySorted R l.
Proof.
  intros HR. induction l as [|x r IH]; simpl; intros H; [constructor|].
  apply StronglySorted_inv in H. destruct H as [Hr Hx].
  constructor; [apply IH; exact Hr|].
  apply Forall_forall. intros y Hy. apply HR.
  rewrite Forall_forall in Hx. apply Hx. apply in_map. exact Hy.
Qed.

(** The maximum of the group of key [k], when the group is not empty. *)
Lemma group_max (s : list Timestamp) (k e : Timestamp) :
  max_date (filter (fun d => ts_eqb (month_key d) k) s) = Some e ->
  In e s /\ month_key e = k
  /\ forall d, In d s -> month_key d = k -> ts_le d e.
Proof.
  intros H. pose proof (max_date_in _ H) as Hin. apply filter_In in Hin.
  destruct Hin as [Hin Hk]. apply ts_eqb_eq in Hk.
  split; [exact Hin|]. split; [exact Hk|].
  intros d Hd Ed.
  assert (Hf : In d (filter (fun d => ts_eqb (month_key d) k) s)).
  { apply filter_In. split; [exact Hd|]. apply ts_eqb_eq. exact Ed. }
  destruct (filter (fun d => ts_eqb (month_key d) k) s) as [|x r]; [contradiction|].
  simpl in H. injection H as <-. apply fold_ts_max_ge. exact Hf.
Qed.

Lemma group_nonempty (s : list Timestamp) (d : Timestamp) :
  In d s -> exists e, max_date (filter (fun x => ts_eqb (month_key x) (month_key d)) s) = Some e.
Proof.
  intros Hd.
  assert (Hf : In d (filter (fun x => ts_eqb (month_key x) (month_key d)) s)).
  { apply filter_In. split; [exact Hd | apply ts_eqb_refl]. }
  destruct (filter _ s) as [|x r]; [contradiction|]. simpl. eexists. reflexivity.
Qed.

Lemma In_groupby_month_max (s : list Timestamp) (e : Timestamp) :
  In e (groupby_month_max s)
  <-> In e s /\ forall d, In d s -> same_month d e -> ts_le d e.
Proof.
  unfold groupby_month_max. rewrite in_flat_map. split.
  - intros (k & _ & He).
    destruct (max_date (filter _ s)) as [e'|] eqn:E; [|contradiction].
    destruct He as [<- | []]. destruct (group_max _ _ E) as (Hin & Hk & Hmax).
    split; [exact Hin|]. intros d Hd Hsame. apply Hmax; [exact Hd|].
    rewrite <- Hk. apply month_key_same. exact Hsame.
  - intros [Hin Hmax]. exists (month_key e). split.
    + apply In_sort_values. apply In_nodup_ts. apply in_map. exact Hin.
    + destruct (group_nonempty s e Hin) as [e' E]. rewrite E.
      destruct (group_max _ _ E) as (Hin' & Hk & Hge).
      left. apply ts_le_antisym.
      * apply Hmax; [exact Hin' | apply month_key_same; exact Hk].
      * apply Hge; [exact Hin | reflexivity].
Qed.

Lemma groupby_month_max_keys (s : list Timestamp) :
  map month_key (groupby_month_max s) = sort_values (nodup_ts (map month_key s)).
Proof.
  unfold groupby_month_max.
  assert (H : forall k, In k (sort_values (nodup_ts (map month_key s))) ->
                        exists d, In d s /\ month_key d = k).
  { intros k Hk. rewrite In_sort_values, In_nodup_ts in Hk.
    apply in_map_iff in Hk. destruct Hk as (d & E & Hd). exists d. auto. }
  induction (sort_values (nodup_ts (map month_key s))) as [|k ks IH]; [reflexivity|].
  simpl. rewrite map_app, IH by (intros k' Hk'; apply H; right; exact Hk').
  destruct (H k (or_introl eq_refl)) as (d & Hd & <-).
  destruct (group_nonempty s d Hd) as [e E]. rewrite E.
  destruct (group_max _ _ E) as (_ & Hk & _). simpl. rewrite Hk. reflexivity.
Qed.

(** X15.  A date is a month end exactly when it is one of the given dates and
    no given date of the same month is later. *)
Theorem month_end_iff_last_given_date_of_its_month :
  forall dates e,
    In e (month_ends dates)
    <-> In e dates /\ forall d, In d dates -> same_month d e -> ts_le d e.
Proof.
  intros dates e. unfold month_ends. rewrite In_groupby_month_max.
  rewrite In_sort_values, In_nodup_ts. split; intros [Hin Hmax]; (split; [exact Hin|]).
  - intros d Hd. apply Hmax. apply In_sort_values. apply In_nodup_ts. exact Hd.
  - intros d Hd. apply Hmax. rewrite In_sort_values, In_nodup_ts in Hd. exact Hd.
Qed.

(** X16.  The month ends come out in strictly ascending order, and so do their
    months: no two of them fall in the same month. *)
Theorem month_ends_ascending_one_per_month :
  forall dates,
    strictly_ascending (month_ends dates)
    /\ strictly_ascending (map month_key (month_ends dates)).
Proof.
  intros dates. unfold month_ends.
  assert (H : strictly_ascending
                (map month_key (groupby_month_max (sort_values (nodup_ts dates))))).
  { rewrite groupby_month_max_keys. apply sort_values_strict. apply nodup_ts_NoDup. }
  split; [|exact H].
  apply sorted_by_key with (f := month_key); [exact month_key_lt | exact H].
Qed.

(** X17.  Every given date has a month end of its own month, on or after it. *)
Theorem every_date_has_its_month_end :
  forall dates d,
    In d dates ->
    exists e, In e (month_ends dates) /\ same_month d e /\ ts_le d e.
Proof.
  intros dates d Hd. unfold month_ends.
  set (s := sort_values (nodup_ts dates)).
  assert (Hs : In d s) by (apply In_sort_values; apply In_nodup_ts; exact Hd).
  destruct (group_nonempty s d Hs) as [e E].
  destruct (group_max _ _ E) as (Hin & Hk & Hge).
  exists e. split; [|split].
  - apply In_groupby_month_max. split; [exact Hin|].
    intros d' Hd' Hsame. destruct (group_max _ _ E) as (_ & _ & Hmax).
    apply Hmax; [exact Hd'|]. rewrite <- Hk. apply month_key_same. exact Hsame.
  - apply month_key_same. symmetry. exact Hk.
  - apply Hge; [exact Hs | reflexivity].
Qed.

Lemma every_date_has_its_month_end_witness :
  In (mkTs 2020 1 15) sample_days
  /\ exists e, In e (month_ends sample_days)
               /\ same_month (mkTs 2020 1 15) e /\ ts_le (mkTs 2020 1 15) e.
Proof.
  assert (H : In (mkTs 2020 1 15) sample_days) by (right; left; reflexivity).
  split; [exact H|].
  exact (@every_date_has_its_month_end sample_days (mkTs 2020 1 15) H).
Defined.

End MonthEndFacts.


(* ================================================================= *)
(** ** More on the portfolio simulator *)

Section SimulatorOutcome.
Local Open Scope Q_scope.
Local Open Scope string_scope.

Lemma has_duplicates_false_iff (l : list (Timestamp * ticker * flt)) :
  has_duplicates l = false <-> NoDup (map fst l).
Proof.
  induction l as [|e r IH]; simpl.
  - split; [intros _; constructor | reflexivity].
  - rewrite Bool.orb_false_iff, IH. split.
    + intros [Hex Hnd]. constructor; [|exact Hnd].
      intros Hin. apply in_map_iff in Hin. destruct Hin as (e' & Ee & He').
      assert (Ht : existsb (same_key (fst (fst e)) (snd (fst e))) r = true); [|congruence].
      apply existsb_exists. exists e'. split; [exact He'|].
      unfold same_key. rewrite <- Ee. rewrite ts_eqb_refl, String.eqb_refl. reflexivity.
    + intros H. inversion H as [|? ? Hnotin Hnd]; subst. split; [|exact Hnd].
      destruct (existsb _ r) eqn:E; [|reflexivity].
      exfalso. apply Hnotin. apply existsb_exists in E. destruct E as (e' & He' & Hk).
      unfold same_key in Hk. apply Bool.andb_true_iff in Hk. destruct Hk as [Hd Ht].
      apply ts_eqb_eq in Hd. apply String.eqb_eq in Ht.
      apply in_map_iff. exists e'. split; [|exact He'].
      destruct e as [[d t] x], e' as [[d' t'] x']. simpl in *. congruence.
Qed.

Lemma close_series_keys (panel : DataFrame) (i : nat) :
  map fst (map (fun r => (r_date r, r_ticker r, cell r i)) (df_rows panel))
  = map (fun r => (r_date r, r_ticker r)) (df_rows panel).
Proof. rewrite map_map. reflexivity. Qed.

Lemma close_series_dates (panel : DataFrame) (i : nat) :
  map (fun e : Timestamp * ticker * flt => fst (fst e))
      (map (fun r => (r_date r, r_ticker r, cell r i)) (df_rows panel))
  = map r_date (df_rows panel).
Proof. rewrite map_map. reflexivity. Qed.

(** What a returned backtest went through. *)
Lemma backtest_positions_inv panel m tc_bps series stats :
  backtest_positions panel m tc_bps = Ok (series, stats) ->
  exists px,
    m <> [] /\ price_panel_ok panel px /\ reindexable m = true
    /\ w_index px = sort_values (nodup_ts (map r_date (df_rows panel)))
    /\ length (w_values px) = length (w_index px)
    /\ series = combine (w_index px) (port_ret (simulate px m tc_bps))
    /\ stats = mkBacktestStats
                 (compute_perf_stats (map Some (port_ret (simulate px m tc_bps))) 252)
                 (mean (turnover (simulate px m tc_bps))).
Proof.
  unfold backtest_positions. destruct m as [|e r]; [discriminate|].
  destruct (getitem panel "close") as [close|] eqn:Ec; cbn [bind]; [|discriminate].
  destruct (unstack_ticker close) as [px|] eqn:Ep; cbn [bind]; [|discriminate].
  destruct (reindexable (e :: r)) eqn:Er; cbn [negb]; [|discriminate].
  intros H. injection H as <- <-. exists px.
  split; [discriminate|]. split; [exists close; auto|]. split; [reflexivity|].
  split; [|split; [eapply unstack_ticker_shape; exact Ep | split; reflexivity]].
  unfold getitem in Ec. destruct (col_pos "close" (df_columns panel)) as [i|]; [|discriminate].
  injection Ec as <-. unfold unstack_ticker in Ep.
  destruct (has_duplicates _); [discriminate|]. injection Ep as <-.
  cbn [w_index]. rewrite close_series_dates. reflexivity.
Qed.

Lemma backtest_outcome :
  forall panel m tc_bps,
    outcome_by_input panel m (backtest_positions panel m tc_bps).
Proof.
  intros panel m tc_bps. unfold outcome_by_input, backtest_positions.
  destruct m as [|e r]; [reflexivity|].
  assert (Hne : e :: r <> []) by discriminate.
  unfold getitem. destruct (col_pos "close" (df_columns panel)) as [i|] eqn:Ec; cbn [bind].
  - assert (Hc : In "close" (df_columns panel)).
    { destruct (in_dec string_dec "close" (df_columns panel)) as [H | H]; [exact H|].
      apply col_pos_None in H. congruence. }
    unfold unstack_ticker.
    destruct (has_duplicates _) eqn:Ed; cbn [bind].
    + split; [exact Hne|]. split; [exact Hc|]. left. intros Hu.
      unfold unique_index in Hu. rewrite <- (close_series_keys panel i) in Hu.
      apply has_duplicates_false_iff in Hu. congruence.
    + assert (Hu : unique_index panel).
      { unfold unique_index. rewrite <- (close_series_keys panel i).
        apply has_duplicates_false_iff. exact Ed. }
      destruct (reindexable (e :: r)) eqn:Er; cbn [negb]; auto.
  - split; [exact Hne|]. apply col_pos_None. exact Ec.
Qed.

(** X18.  The outcome of [backtest_positions] is decided by four facts about
    its input: RuntimeError for an empty schedule; otherwise KeyError
    without a close column; otherwise ValueError when the (date, ticker)
    index of the panel or the tickers of a weight vector repeat; and a
    result in every other case. *)
Theorem backtest_outcome_decided_by_input :
  forall panel m tc_bps,
    outcome_by_input panel m (backtest_positions panel m tc_bps).
Proof. exact backtest_outcome. Qed.

(** X19.  The returned series is indexed by the distinct dates of the panel, in
    strictly ascending order. *)
Theorem returned_index_is_the_sorted_panel_dates :
  forall panel m tc_bps series stats,
    backtest_positions panel m tc_bps = Ok (series, stats) ->
    strictly_ascending (map fst series)
    /\ forall d, In d (map fst series) <-> In d (map r_date (df_rows panel)).
Proof.
  intros panel m tc_bps series stats H.
  apply backtest_positions_inv in H.
  destruct H as (px & _ & _ & _ & Hidx & Hlen & -> & _).
  rewrite map_fst_combine by (symmetry; apply length_port_ret; exact Hlen).
  rewrite Hidx. split.
  - apply sort_values_strict. apply nodup_ts_NoDup.
  - intros d. rewrite In_sort_values, In_nodup_ts. reflexivity.
Qed.

Lemma returned_index_witness :
  backtest_positions Scenario.panel Scenario.schedule 5
  = Ok (combine (dates (simulate Scenario.px Scenario.schedule 5))
                (port_ret (simulate Scenario.px Scenario.schedule 5)),
        mkBacktestStats
          (compute_perf_stats
             (map Some (port_ret (simulate Scenario.px Scenario.schedule 5))) 252)
          (mean (turnover (simulate Scenario.px Scenario.schedule 5))))
  /\ strictly_ascending
       (map fst (combine (dates (simulate Scenario.px Scenario.schedule 5))
                         (port_ret (simulate Scenario.px Scenario.schedule 5))))
  /\ forall d,
       In d (map fst (combine (dates (simulate Scenario.px Scenario.schedule 5))
                              (port_ret (simulate Scenario.px Scenario.schedule 5))))
       <-> In d (map r_date (df_rows Scenario.panel)).
Proof.
  assert (H : backtest_positions Scenario.panel Scenario.schedule 5
              = Ok (combine (dates (simulate Scenario.px Scenario.schedule 5))
                            (port_ret (simulate Scenario.px Scenario.schedule 5)),
                    mkBacktestStats
                      (compute_perf_stats
                         (map Some (port_ret (simulate Scenario.px Scenario.schedule 5))) 252)
                      (mean (turnover (simulate Scenario.px Scenario.schedule 5))))).
  { apply backtest_positions_returns;
      [discriminate | exact scenario_panel_ok | reflexivity]. }
  split; [exact H|].
  exact (@returned_index_is_the_sorted_panel_dates Scenario.panel Scenario.schedule 5 _ _ H).
Defined.

End SimulatorOutcome.


Section TradingDays.
Local Open Scope Q_scope.
Local Open Scope string_scope.

Lemma nth_map2 (A B C : Type) (f : A -> B -> C) (l : list A) :
  forall (m : list B) (i : nat) (da : A) (db : B) (dc : C),
    (i < length l)%nat -> (i < length m)%nat ->
    nth i (map2 f l m) dc = f (nth i l da) (nth i m db).
Proof.
  induction l as [|a l IH]; intros [|b m] [|i] da db dc Hl Hm; simpl in *; try lia.
  - reflexivity.
  - apply IH; lia.
Qed.

Lemma nth_removelast (A : Type) (l : list A) :
  forall (j : nat) (d : A), (S j < length l)%nat -> nth j (removelast l) d = nth j l d.
Proof.
  induction l as [|x r IH]; intros j d H; [simpl in H; lia|].
  destruct r as [|y r']; [simpl in H; lia|].
  change (removelast (x :: y :: r')) with (x :: removelast (y :: r')).
  destruct j as [|j]; [reflexivity|].
  cbn [nth]. apply IH. simpl in *. lia.
Qed.

Lemma nth_shift1 (dw : list (list Q)) (j : nat) :
  (S j < length dw)%nat -> nth (S j) (shift1 dw) [] = map Some (nth j dw []).
Proof.
  intros H. destruct dw as [|r rest]; [simpl in H; lia|].
  unfold shift1. cbn [nth].
  change (@nil flt) with (map (@Some Q) []). rewrite map_nth.
  rewrite nth_removelast by exact H. reflexivity.
Qed.

Lemma fillna_Some_row (row : list Q) : map (fillna 0) (map Some row) = row.
Proof. rewrite map_map. simpl. apply map_id. Qed.

Lemma Forall2_Qeq_refl (l : list Q) : Forall2 Qeq l l.
Proof. induction l; constructor; [reflexivity | assumption]. Qed.

Lemma turnover_first (dw : list (list Q)) : nth 0 (turnover_of dw) 0 == 0.
Proof.
  destruct dw as [|r rest]; [reflexivity|].
  unfold turnover_of, diff. cbn [map nth].
  apply half_zero. apply Qsum_zero.
  pose proof (nan_row_filled r) as H. unfold zero_cells in H.
  induction H as [|x l Hx Hl IH]; simpl; constructor; [|exact IH].
  rewrite Hx. reflexivity.
Qed.

(** The return of a day on which no weight was held overnight and no
    weight changed is zero; so is the return of the first day. *)
Lemma flat_day_earns_nothing px m tc_bps i :
  length (w_values px) = length (w_index px) ->
  (i < length (w_index px))%nat ->
  (i = 0%nat
   \/ exists j, i = S j
        /\ zero_cells (nth j (daily_w (simulate px m tc_bps)) [])
        /\ Forall2 Qeq (nth (S j) (daily_w (simulate px m tc_bps)) [])
                       (nth j (daily_w (simulate px m tc_bps)) [])) ->
  nth i (port_ret (simulate px m tc_bps)) 0 == 0.
Proof.
  intros Hlen Hi Hflat. unfold simulate in *. cbn [port_ret daily_w] in *.
  set (dw := project_weights (w_index px) (w_columns px)
               (position_frame (w_columns px) m)) in *.
  assert (Hdw : length dw = length (w_index px)) by (unfold dw, project_weights; apply length_map).
  set (lagged := map (map (fillna 0)) (shift1 dw)).
  set (rets := pct_change (w_values px)).
  assert (Hlag : length lagged = length (w_index px)).
  { unfold lagged. rewrite length_map, length_shift1. exact Hdw. }
  assert (Hret : length rets = length (w_index px)).
  { unfold rets. rewrite length_pct_change. exact Hlen. }
  rewrite (@nth_map2 _ _ _ Qminus _ _ i 0 0 0);
    [| rewrite map2_length, Hlag, Hret; lia
     | rewrite length_map, length_turnover_of, Hdw; exact Hi].
  rewrite (@nth_map2 _ _ _ (fun w r => nansum (map2 fmul w r)) lagged rets i [] [] 0)
    by (rewrite ?Hlag, ?Hret; exact Hi).
  assert (Hgross : nansum (map2 fmul (nth i lagged []) (nth i rets [])) == 0).
  { apply zero_weights_earn_nothing. unfold lagged.
    change (@nil Q) with (map (fillna 0) []). rewrite map_nth.
    destruct Hflat as [-> | (j & -> & Hz & _)].
    - destruct dw as [|r rest]; [constructor|]. unfold shift1. cbn [nth].
      apply nan_row_filled.
    - rewrite nth_shift1 by (rewrite Hdw; exact Hi).
      rewrite fillna_Some_row. exact Hz. }
  assert (Hcost : nth i (map (fun t => t * (tc_bps / 10000)) (turnover_of dw)) 0 == 0).
  { rewrite (nth_indep _ 0 (0 * (tc_bps / 10000)))
      by (rewrite length_map, length_turnover_of, Hdw; exact Hi).
    rewrite (map_nth (fun t => t * (tc_bps / 10000))).
    assert (Ht : nth i (turnover_of dw) 0 == 0).
    { destruct Hflat as [-> | (j & -> & _ & Hsame)]; [apply turnover_first|].
      apply turnover_unchanged; [rewrite Hdw; exact Hi | exact Hsame]. }
    rewrite Ht. ring. }
  rewrite Hgross, Hcost. ring.
Qed.

(** X20.  The first trading day of a returned backtest has return zero: no
    weight is in force yet and the first weight change is not charged. *)
Theorem first_trading_day_returns_zero :
  forall panel m tc_bps series stats d r rest,
    backtest_positions panel m tc_bps = Ok (series, stats) ->
    series = (d, r) :: rest ->
    r == 0.
Proof.
  intros panel m tc_bps series stats d r rest H Es.
  apply backtest_positions_inv in H.
  destruct H as (px & _ & _ & _ & _ & Hlen & Hs & _).
  assert (Hp : length (port_ret (simulate px m tc_bps)) = length (w_index px))
    by (apply length_port_ret; exact Hlen).
  assert (Hr : r = nth 0 (port_ret (simulate px m tc_bps)) 0).
  { rewrite Es in Hs.
    destruct (w_index px) as [|d0 idx]; [discriminate|].
    destruct (port_ret (simulate px m tc_bps)) as [|r0 rs]; [discriminate|].
    simpl in Hs. injection Hs as _ -> _. reflexivity. }
  rewrite Hr. apply flat_day_earns_nothing; [exact Hlen | | left; reflexivity].
  rewrite Es in Hs. destruct (w_index px); [discriminate | simpl; lia].
Qed.

Lemma scenario_backtest (m : PositionSchedule) (tc_bps : Q) :
  m <> [] -> reindexable m = true ->
  backtest_positions Scenario.panel m tc_bps
  = Ok (scenario_series m tc_bps, scenario_stats m tc_bps).
Proof.
  intros Hne Hr. unfold scenario_series, scenario_stats.
  apply backtest_positions_returns; [exact Hne | exact scenario_panel_ok | exact Hr].
Qed.

Lemma late_schedule_ok : late_schedule <> [] /\ reindexable late_schedule = true.
Proof. split; [discriminate | reflexivity]. Qed.

Lemma first_trading_day_witness :
  backtest_positions Scenario.panel late_schedule 5
  = Ok (scenario_series late_schedule 5, scenario_stats late_schedule 5)
  /\ scenario_series late_schedule 5
     = (Scenario.day 0, nth 0 (port_ret (simulate Scenario.px late_schedule 5)) 0)
       :: tl (scenario_series late_schedule 5)
  /\ nth 0 (port_ret (simulate Scenario.px late_schedule 5)) 0 == 0.
Proof.
  assert (H : backtest_positions Scenario.panel late_schedule 5
              = Ok (scenario_series late_schedule 5, scenario_stats late_schedule 5)).
  { apply scenario_backtest; apply late_schedule_ok. }
  assert (E : scenario_series late_schedule 5
              = (Scenario.day 0, nth 0 (port_ret (simulate Scenario.px late_schedule 5)) 0)
                :: tl (scenario_series late_schedule 5)).
  { vm_compute. reflexivity. }
  split; [exact H|]. split; [exact E|].
  exact (@first_trading_day_returns_zero Scenario.panel late_schedule 5 _ _ _ _ _ H E).
Defined.

Lemma cost_monotone (gross turnover : list Q) (c1 c2 : Q) :
  c1 <= c2 ->
  Forall (fun t => 0 <= t) turnover ->
  Forall2 Qle (map2 Qminus gross (map (fun t => t * c2) turnover))
              (map2 Qminus gross (map (fun t => t * c1) turnover)).
Proof.
  intros Hc Ht. revert gross. induction Ht as [|t ts H0 Hts IH]; intros [|g gs]; simpl;
    try constructor.
  - assert (t * c1 <= t * c2).
    { rewrite (Qmult_comm t c1), (Qmult_comm t c2). apply Qmult_le_compat_r; assumption. }
    unfold Qminus. apply Qplus_le_r. apply Qopp_le_compat. assumption.
  - apply IH.
Qed.

Lemma combine_pointwise (A : Type) (R : Q -> Q -> Prop) (idx : list A) :
  forall p1 p2,
    Forall2 R p2 p1 ->
    Forall2 (fun a b : A * Q => fst a = fst b /\ R (snd b) (snd a))
            (combine idx p1) (combine idx p2).
Proof.
  induction idx as [|d idx IH]; intros p1 p2 H; [constructor|].
  destruct H as [|x2 x1 r2 r1 Hx Hr]; simpl; constructor.
  - simpl. split; [reflexivity | exact Hx].
  - apply IH. exact Hr.
Qed.

(** X21.  A higher cost rate never raises a daily return: the two backtests
    return the same days, each return at the higher rate is at most the
    one at the lower rate, and the average turnover is the same. *)
Theorem higher_cost_never_raises_a_return :
  forall panel m tc1 tc2 s1 st1 s2 st2,
    tc1 <= tc2 ->
    backtest_positions panel m tc1 = Ok (s1, st1) ->
    backtest_positions panel m tc2 = Ok (s2, st2) ->
    Forall2 (fun a b => fst a = fst b /\ snd b <= snd a) s1 s2
    /\ AvgTurnover st1 = AvgTurnover st2.
Proof.
  intros panel m tc1 tc2 s1 st1 s2 st2 Hc H1 H2.
  apply backtest_positions_inv in H1. apply backtest_positions_inv in H2.
  destruct H1 as (px & _ & (close & Hg & Hu) & _ & _ & _ & -> & ->).
  destruct H2 as (px' & _ & (close' & Hg' & Hu') & _ & _ & _ & -> & ->).
  assert (px' = px) as -> by congruence.
  split; [|reflexivity].
  apply combine_pointwise. unfold simulate. cbn [port_ret].
  apply cost_monotone; [|apply turnover_nonneg].
  apply Qmult_le_compat_r; [exact Hc | discriminate].
Qed.

Lemma higher_cost_witness :
  5 <= 50
  /\ backtest_positions Scenario.panel late_schedule 5
     = Ok (scenario_series late_schedule 5, scenario_stats late_schedule 5)
  /\ backtest_positions Scenario.panel late_schedule 50
     = Ok (scenario_series late_schedule 50, scenario_stats late_schedule 50)
  /\ Forall2 (fun a b => fst a = fst b /\ snd b <= snd a)
       (scenario_series late_schedule 5) (scenario_series late_schedule 50)
  /\ AvgTurnover (scenario_stats late_schedule 5)
     = AvgTurnover (scenario_stats late_schedule 50).
Proof.
  assert (Hc : 5 <= 50) by discriminate.
  assert (H1 : backtest_positions Scenario.panel late_schedule 5
               = Ok (scenario_series late_schedule 5, scenario_stats late_schedule 5)).
  { apply scenario_backtest; apply late_schedule_ok. }
  assert (H2 : backtest_positions Scenario.panel late_schedule 50
               = Ok (scenario_series late_schedule 50, scenario_stats late_schedule 50)).
  { apply scenario_backtest; apply late_schedule_ok. }
  split; [exact Hc|]. split; [exact H1|]. split; [exact H2|].
  exact (@higher_cost_never_raises_a_return Scenario.panel late_schedule 5 50 _ _ _ _
           Hc H1 H2).
Defined.

End TradingDays.


Section ForwardFill.
Local Open Scope Q_scope.
Local Open Scope string_scope.

Lemma asof_step_skips (V : Type) (rows : list (Timestamp * V)) (d : Timestamp) :
  forall cur,
    (forall e, In e rows -> ts_lt d (fst e)) ->
    fold_left (fun c e => if ts_leb (fst e) d then Some (snd e) else c) rows cur = cur.
Proof.
  induction rows as [|x r IH]; intros cur H; [reflexivity|].
  cbn [fold_left].
  assert (E : ts_leb (fst x) d = false).
  { unfold ts_leb. rewrite (H x (or_introl eq_refl)). reflexivity. }
  rewrite E. apply IH. intros e He. apply H. right. exact He.
Qed.

Lemma asof_none (V : Type) (rows : list (Timestamp * V)) (d : Timestamp) :
  (forall e, In e rows -> ts_lt d (fst e)) -> asof rows d = None.
Proof. intros H. unfold asof. apply asof_step_skips. exact H. Qed.

Lemma position_frame_keys (cols : list ticker) (m : PositionSchedule) e :
  In e (position_frame cols m) -> In (fst e) (map fst m).
Proof.
  unfold position_frame. intros H. apply in_map_iff in H.
  destruct H as (e0 & <- & H0). apply In_sort_index in H0.
  simpl. apply in_map. exact H0.
Qed.

Lemma no_weights_before_first_rebalance (cols : list ticker) (m : PositionSchedule)
    (d : Timestamp) :
  before_first_rebalance m d ->
  asof (position_frame cols m) d = None.
Proof.
  intros H. apply asof_none. intros e He. apply H.
  exact (position_frame_keys _ _ _ He).
Qed.

Lemma strictly_ascending_nth (l : list Timestamp) (d0 : Timestamp) :
  strictly_ascending l ->
  forall j i, (j < i)%nat -> (i < length l)%nat -> ts_lt (nth j l d0) (nth i l d0).
Proof.
  induction 1 as [|x r Hr IH Hx]; intros j i Hji Hi; [simpl in Hi; lia|].
  destruct i as [|i]; [lia|]. destruct j as [|j]; cbn [nth].
  - rewrite Forall_forall in Hx. apply Hx. apply nth_In. simpl in Hi. lia.
  - apply IH; simpl in Hi; lia.
Qed.

Lemma nth_project_weights idx cols pos_df (i : nat) (d0 : Timestamp) :
  (i < length idx)%nat ->
  nth i (project_weights idx cols pos_df) []
  = match asof pos_df (nth i idx d0) with
    | Some w => w
    | None => zero_row cols
    end.
Proof.
  intros Hi. unfold project_weights.
  rewrite (nth_indep _ [] (match asof pos_df d0 with
                           | Some w => w
                           | None => zero_row cols
                           end)) by (rewrite length_map; exact Hi).
  rewrite (map_nth (fun d => match asof pos_df d with
                             | Some w => w
                             | None => zero_row cols
                             end)).
  reflexivity.
Qed.

(** X22.  Every day before the first rebalance date of the schedule has
    return zero. *)
Theorem no_return_before_first_rebalance :
  forall panel m tc_bps series stats d r,
    backtest_positions panel m tc_bps = Ok (series, stats) ->
    In (d, r) series ->
    before_first_rebalance m d ->
    r == 0.
Proof.
  intros panel m tc_bps series stats d r H Hin Hbefore.
  apply backtest_positions_inv in H.
  destruct H as (px & _ & _ & _ & Hidx & Hlen & -> & _).
  assert (Hp : length (port_ret (simulate px m tc_bps)) = length (w_index px))
    by (apply length_port_ret; exact Hlen).
  assert (Hasc : strictly_ascending (w_index px)).
  { rewrite Hidx. apply sort_values_strict. apply nodup_ts_NoDup. }
  apply (In_nth _ _ (mkTs 0 0 0, 0)) in Hin. destruct Hin as (i & Hi & Hnth).
  rewrite length_combine, Hp, Nat.min_id in Hi.
  rewrite combine_nth in Hnth by (symmetry; exact Hp).
  injection Hnth as Hd Hr. rewrite <- Hr.
  apply flat_day_earns_nothing; [exact Hlen | exact Hi |].
  destruct i as [|j]; [left; reflexivity|]. right. exists j. split; [reflexivity|].
  assert (Hrow : forall k, (k <= S j)%nat ->
                   nth k (daily_w (simulate px m tc_bps)) [] = zero_row (w_columns px)).
  { intros k Hk. unfold simulate. cbn [daily_w].
    rewrite (@nth_project_weights _ _ _ k (mkTs 0 0 0)) by lia.
    rewrite no_weights_before_first_rebalance; [reflexivity|].
    intros key Hkey. specialize (Hbefore key Hkey).
    destruct (Nat.eq_dec k (S j)) as [-> | Hne]; [rewrite Hd; exact Hbefore|].
    apply ts_lt_trans with d; [|exact Hbefore].
    rewrite <- Hd. apply strictly_ascending_nth; [exact Hasc | lia | exact Hi]. }
  rewrite (Hrow j) by lia. rewrite (Hrow (S j)) by lia.
  split; [apply zero_row_cells | apply Forall2_Qeq_refl].
Qed.

Lemma no_return_before_first_rebalance_witness :
  backtest_positions Scenario.panel late_schedule 5
  = Ok (scenario_series late_schedule 5, scenario_stats late_schedule 5)
  /\ In (Scenario.day 0, nth 0 (port_ret (simulate Scenario.px late_schedule 5)) 0)
        (scenario_series late_schedule 5)
  /\ before_first_rebalance late_schedule (Scenario.day 0)
  /\ nth 0 (port_ret (simulate Scenario.px late_schedule 5)) 0 == 0.
Proof.
  assert (H : backtest_positions Scenario.panel late_schedule 5
              = Ok (scenario_series late_schedule 5, scenario_stats late_schedule 5)).
  { apply scenario_backtest; apply late_schedule_ok. }
  assert (Hin : In (Scenario.day 0,
                    nth 0 (port_ret (simulate Scenario.px late_schedule 5)) 0)
                   (scenario_series late_schedule 5)).
  { vm_compute. left. reflexivity. }
  assert (Hb : before_first_rebalance late_schedule (Scenario.day 0)).
  { intros k Hk. simpl in Hk. destruct Hk as [<- | []]. reflexivity. }
  split; [exact H|]. split; [exact Hin|]. split; [exact Hb|].
  exact (@no_return_before_first_rebalance Scenario.panel late_schedule 5 _ _ _ _
           H Hin Hb).
Defined.

Lemma In_row_insert_iff (V : Type) (e x : Timestamp * V) (l : list (Timestamp * V)) :
  In e (row_insert x l) <-> e = x \/ In e l.
Proof.
  induction l as [|y r IH]; simpl; [intuition congruence|].
  destruct (ts_leb (fst x) (fst y)); simpl; [intuition congruence|].
  rewrite IH. intuition congruence.
Qed.

Lemma In_sort_index_iff (V : Type) (e : Timestamp * V) (l : list (Timestamp * V)) :
  In e (sort_index l) <-> In e l.
Proof.
  induction l as [|y r IH]; simpl; [tauto|].
  rewrite In_row_insert_iff, IH. intuition congruence.
Qed.

Lemma sort_index_keys (V : Type) (l : list (Timestamp * V)) :
  map fst (sort_index l) = sort_values (map fst l).
Proof.
  induction l as [|x r IH]; [reflexivity|].
  simpl. rewrite <- IH. clear IH.
  induction (sort_index r) as [|y s IHs]; [reflexivity|].
  simpl. destruct (ts_leb (fst x) (fst y)); simpl; [reflexivity|].
  rewrite IHs. reflexivity.
Qed.

(** On rows with strictly ascending dates, the as-of lookup returns the
    row with the latest date on or before [d]. *)
Lemma asof_latest (V : Type) (rows : list (Timestamp * V)) (d : Timestamp)
    (e : Timestamp * V) :
  StronglySorted ts_lt (map fst rows) ->
  In e rows -> ts_le (fst e) d ->
  (forall e', In e' rows -> ts_le (fst e') d -> ts_le (fst e') (fst e)) ->
  asof rows d = Some (snd e).
Proof.
  unfold asof. generalize (@None V).
  induction rows as [|x r IH]; intros cur Hs Hin Hle Hmax; [contradiction|].
  simpl in Hs. apply StronglySorted_inv in Hs. destruct Hs as [Hr Hx].
  cbn [fold_left]. destruct Hin as [-> | Hin].
  - unfold ts_le in Hle. rewrite Hle. apply asof_step_skips.
    intros e' He'. destruct (ts_ltb d (fst e')) eqn:E; [exact E|].
    exfalso.
    assert (Hle' : ts_le (fst e') d) by (unfold ts_le, ts_leb; rewrite E; reflexivity).
    pose proof (Hmax e' (or_intror He') Hle') as Hback.
    rewrite Forall_forall in Hx.
    pose proof (Hx (fst e') (in_map fst _ _ He')) as Hlt.
    exact (ts_lt_irrefl (ts_lt_le_trans Hlt Hback)).
  - apply IH; [exact Hr | exact Hin | exact Hle|].
    intros e' He'. apply Hmax. right. exact He'.
Qed.

(** X23.  On every trading day the weights are those of the schedule entry in
    force, laid on the price columns: the latest entry dated on or before
    that day, never a later one. *)
Theorem daily_weights_are_those_of_the_entry_in_force :
  forall px m tc_bps i d e,
    NoDup (map fst m) ->
    nth_error (w_index px) i = Some d ->
    in_force m d e ->
    nth_error (daily_w (simulate px m tc_bps)) i
    = Some (on_columns (w_columns px) (snd e)).
Proof.
  intros px m tc_bps i d e Hnd Hi (Hin & Hle & Hmax).
  unfold simulate. cbn [daily_w]. unfold project_weights.
  rewrite nth_error_map, Hi. cbn [option_map]. f_equal.
  set (lay := fun e0 : Timestamp * Series =>
                (fst e0, map (fun t => fillna 0 (series_get t (snd e0))) (w_columns px))).
  assert (Hkeys : map fst (position_frame (w_columns px) m) = sort_values (map fst m)).
  { unfold position_frame. rewrite map_map. simpl. apply sort_index_keys. }
  rewrite (@asof_latest _ (position_frame (w_columns px) m) d (lay e)).
  - reflexivity.
  - rewrite Hkeys. apply sort_values_strict. exact Hnd.
  - unfold position_frame. apply (in_map lay). apply In_sort_index_iff. exact Hin.
  - exact Hle.
  - intros e' He' Hle'. unfold position_frame in He'. apply in_map_iff in He'.
    destruct He' as (e0 & <- & He0). apply In_sort_index in He0.
    cbn [fst] in *. apply Hmax; assumption.
Qed.

Lemma daily_weights_witness :
  NoDup (map fst late_schedule)
  /\ nth_error (w_index Scenario.px) 2 = Some (Scenario.day 2)
  /\ in_force late_schedule (Scenario.day 2)
       (Scenario.day 1, [("A", 1 # 2); ("B", -(1 # 2))])
  /\ nth_error (daily_w (simulate Scenario.px late_schedule 5)) 2
     = Some (on_columns (w_columns Scenario.px) [("A", 1 # 2); ("B", -(1 # 2))]).
Proof.
  assert (Hnd : NoDup (map fst late_schedule)).
  { simpl. constructor; [intros [] | constructor]. }
  assert (Hi : nth_error (w_index Scenario.px) 2 = Some (Scenario.day 2)) by reflexivity.
  assert (Hf : in_force late_schedule (Scenario.day 2)
                 (Scenario.day 1, [("A", 1 # 2); ("B", -(1 # 2))])).
  { split; [left; reflexivity|]. split; [reflexivity|].
    intros e' [<- | []] _. reflexivity. }
  split; [exact Hnd|]. split; [exact Hi|]. split; [exact Hf|].
  exact (@daily_weights_are_those_of_the_entry_in_force Scenario.px late_schedule 5 2
           (Scenario.day 2) _ Hnd Hi Hf).
Defined.

End ForwardFill.


(* ================================================================= *)
(** ** More on the performance analyzer *)

Section AnalyzerBounds.
Local Open Scope Q_scope.

Lemma cummax_from_pos (acc : Q) (l : list Q) :
  0 < acc -> Forall (fun x => 0 < x) (cummax_from acc l).
Proof.
  revert acc. induction l as [|x l IH]; intros acc Hacc; simpl; constructor.
  - apply Qlt_le_trans with acc; [exact Hacc | apply Q.le_max_l].
  - apply IH. apply Qlt_le_trans with acc; [exact Hacc | apply Q.le_max_l].
Qed.

Lemma drawdown_above (equity peak : list Q) :
  Forall (fun x => 0 < x) equity -> Forall (fun x => 0 < x) peak ->
  Forall (fun d => -(1) < d) (dropna (drawdown equity peak)).
Proof.
  intros He. revert peak. induction He as [|e es He Hes IH]; intros peak Hp;
    [constructor|].
  destruct Hp as [|p ps Hp Hps]; [constructor|].
  unfold drawdown. cbn [map2]. fold (drawdown es ps).
  rewrite (fdiv_pos e Hp). cbn [option_map dropna flat_map app].
  constructor; [|apply IH; exact Hps].
  assert (0 < e / p) by (apply Qlt_shift_div_l; [exact Hp | Lqa.lra]).
  Lqa.lra.
Qed.

Lemma fold_min_above (b : Q) (l : list Q) :
  forall x, b < x -> Forall (fun y => b < y) l -> b < fold_left Qmin l x.
Proof.
  induction l as [|y l IH]; intros x Hx Hl; [exact Hx|].
  inversion Hl as [|? ? Hy Hl']; subst. cbn [fold_left]. apply IH; [|exact Hl'].
  apply Q.min_glb_lt; assumption.
Qed.

Lemma last_In (A : Type) (x : A) (l : list A) (d : A) : In (last (x :: l) d) (x :: l).
Proof.
  revert x. induction l as [|y l IH]; intros x; [left; reflexivity|].
  change (last (x :: y :: l) d) with (last (y :: l) d). right. apply IH.
Qed.

(** X24.  With every return above -100%, MaxDD is a number above -1. *)
Theorem maxdd_above_minus_one :
  forall returns freq,
    (forall x, In x (dropna returns) -> -(1) < x) ->
    exists m, MaxDD (compute_perf_stats returns freq) = Some m /\ -(1) < m.
Proof.
  intros returns freq Hgt.
  destruct (dropna returns) as [|x rest] eqn:Er.
  - rewrite (empty_series_stats returns freq Er). exists 0. split; reflexivity.
  - rewrite (MaxDD_nonempty returns freq Er).
    pose proof (equity_curve_pos (x :: rest) Hgt) as Hpos.
    destruct (equity_curve_nonempty x rest) as (e & es & Ee).
    unfold max_drawdown. rewrite Ee in *.
    assert (Hpeak : Forall (fun y => 0 < y) (cummax (e :: es))).
    { inversion Hpos; subst. cbn [cummax]. constructor; [assumption|].
      apply cummax_from_pos. assumption. }
    pose proof (drawdown_above Hpos Hpeak) as Hall.
    destruct (maxdd_positive_equity Hpos) as (m & Em & _).
    exists m. split; [exact Em|].
    unfold nanmin in Em.
    destruct (dropna (drawdown (e :: es) (cummax (e :: es)))) as [|d ds];
      [discriminate|].
    injection Em as <-. inversion Hall; subst. apply fold_min_above; assumption.
Qed.

Lemma maxdd_above_minus_one_witness :
  (forall x, In x (dropna [Some (1 # 10); None; Some (- (1 # 20))]) -> -(1) < x)
  /\ exists m,
       MaxDD (compute_perf_stats [Some (1 # 10); None; Some (- (1 # 20))] 252) = Some m
       /\ -(1) < m.
Proof.
  assert (H : forall x, In x (dropna [Some (1 # 10); None; Some (- (1 # 20))]) -> -(1) < x).
  { simpl. intros x [<- | [<- | []]]; reflexivity. }
  split; [exact H|].
  exact (@maxdd_above_minus_one [Some (1 # 10); None; Some (- (1 # 20))] 252 H).
Defined.

Lemma sign_scaled (m k : R) :
  (0 < k)%R -> ((0 < m * k)%R <-> (0 < m)%R) /\ ((m * k < 0)%R <-> (m < 0)%R).
Proof. intros Hk. split; split; intros H; nra. Qed.

Lemma Q2R_pos_iff (q : Q) : (0 < Q2R q)%R <-> 0 < q.
Proof.
  rewrite <- RMicromega.Q2R_0. split; [apply Rlt_Qlt | apply Qlt_Rlt].
Qed.

Lemma Q2R_neg_iff (q : Q) : (Q2R q < 0)%R <-> q < 0.
Proof.
  rewrite <- RMicromega.Q2R_0. split; [apply Rlt_Qlt | apply Qlt_Rlt].
Qed.

(** X25.  On a series with at least one observation Sharpe is NaN exactly
    when there are fewer than two observations or [freq] is negative. *)
Theorem sharpe_is_nan_iff_single_observation_or_negative_freq :
  forall returns freq,
    dropna returns <> [] ->
    (Sharpe (compute_perf_stats returns freq) = None
     <-> (length (dropna returns) < 2)%nat \/ (freq < 0)%Z).
Proof.
  intros returns freq Hne.
  destruct (dropna returns) as [|x rest] eqn:Er; [contradiction|].
  rewrite (Sharpe_nonempty returns freq Er). unfold np_sqrt.
  destruct rest as [|y rest].
  - cbn [std]. split; [intros _; left; simpl; lia | reflexivity].
  - cbn [std]. destruct (freq <? 0)%Z eqn:E.
    + apply Z.ltb_lt in E. split; [intros _; right; exact E | reflexivity].
    + apply Z.ltb_ge in E. split; [discriminate|].
      intros [H | H]; [simpl in H; lia | lia].
Qed.

Lemma sharpe_is_nan_witness :
  dropna [Some (1 # 10); None] <> []
  /\ (Sharpe (compute_perf_stats [Some (1 # 10); None] 252) = None
      <-> (length (dropna [Some (1 # 10); None]) < 2)%nat \/ (252 < 0)%Z).
Proof.
  assert (H : dropna [Some (1 # 10); None] <> []) by discriminate.
  split; [exact H|].
  exact (@sharpe_is_nan_iff_single_observation_or_negative_freq
           [Some (1 # 10); None] 252 H).
Defined.

(** X26.  With two or more observations and a positive [freq], Sharpe is a
    number with the sign of the mean return. *)
Theorem sharpe_has_the_sign_of_the_mean :
  forall returns freq,
    (0 < freq)%Z ->
    (2 <= length (dropna returns))%nat ->
    exists s,
      Sharpe (compute_perf_stats returns freq) = Some s
      /\ ((0 < s)%R
          <-> 0 < Qsum (dropna returns)
                  / inject_Z (Z.of_nat (length (dropna returns))))
      /\ ((s < 0)%R
          <-> Qsum (dropna returns)
              / inject_Z (Z.of_nat (length (dropna returns))) < 0).
Proof.
  intros returns freq Hfreq Hlen.
  destruct (dropna returns) as [|x [|y rest]] eqn:Er; try (simpl in Hlen; lia).
  rewrite (Sharpe_nonempty returns freq Er). unfold np_sqrt.
  assert (E : (freq <? 0)%Z = false) by (apply Z.ltb_ge; lia).
  rewrite E. cbn [std].
  set (mean_r := Qsum (x :: y :: rest) / inject_Z (Z.of_nat (length (x :: y :: rest)))).
  set (sd := sqrt _).
  eexists. split; [reflexivity|].
  assert (Hsd : (0 <= sd)%R) by apply sqrt_pos.
  assert (Heps : (0 < Q2R eps)%R) by (apply Q2R_pos_iff; reflexivity).
  assert (Hf : (0 < sqrt (IZR freq))%R).
  { apply sqrt_lt_R0. apply IZR_lt. exact Hfreq. }
  assert (Hk : (0 < / (sd + Q2R eps) * sqrt (IZR freq))%R).
  { apply Rmult_lt_0_compat; [|exact Hf]. apply Rinv_0_lt_compat. lra. }
  replace (Q2R mean_r / (sd + Q2R eps) * sqrt (IZR freq))%R
    with (Q2R mean_r * (/ (sd + Q2R eps) * sqrt (IZR freq)))%R
    by (unfold Rdiv; ring).
  destruct (sign_scaled (Q2R mean_r) Hk) as [Hp Hn].
  rewrite Hp, Hn, Q2R_pos_iff, Q2R_neg_iff. split; reflexivity.
Qed.

Lemma sharpe_sign_witness :
  (0 < 252)%Z
  /\ (2 <= length (dropna [Some (1 # 10); None; Some (- (1 # 20))]))%nat
  /\ exists s,
       Sharpe (compute_perf_stats [Some (1 # 10); None; Some (- (1 # 20))] 252) = Some s
       /\ ((0 < s)%R
           <-> 0 < Qsum (dropna [Some (1 # 10); None; Some (- (1 # 20))])
                   / inject_Z (Z.of_nat
                       (length (dropna [Some (1 # 10); None; Some (- (1 # 20))]))))
       /\ ((s < 0)%R
           <-> Qsum (dropna [Some (1 # 10); None; Some (- (1 # 20))])
               / inject_Z (Z.of_nat
                   (length (dropna [Some (1 # 10); None; Some (- (1 # 20))]))) < 0).
Proof.
  assert (Hf : (0 < 252)%Z) by lia.
  assert (Hl : (2 <= length (dropna [Some (1 # 10); None; Some (- (1 # 20))]))%nat)
    by (simpl; lia).
  split; [exact Hf|]. split; [exact Hl|].
  exact (@sharpe_has_the_sign_of_the_mean
           [Some (1 # 10); None; Some (- (1 # 20))] 252 Hf Hl).
Defined.

(** X27.  With every return above -100% and a positive [freq], CAGR is a
    number above -1; it is positive exactly when the final equity is
    above 1 and negative exactly when it is below 1. *)
Theorem cagr_follows_the_final_equity :
  forall returns freq,
    (0 < freq)%Z ->
    dropna returns <> [] ->
    (forall x, In x (dropna returns) -> -(1) < x) ->
    exists c,
      CAGR (compute_perf_stats returns freq) = Some c
      /\ (-1 < c)%R
      /\ ((0 < c)%R <-> 1 < last (equity_curve (dropna returns)) 0)
      /\ ((c < 0)%R <-> last (equity_curve (dropna returns)) 0 < 1).
Proof.
  intros returns freq Hfreq Hne Hgt.
  destruct (dropna returns) as [|x rest] eqn:Er; [contradiction|].
  rewrite (CAGR_nonempty returns freq Er).
  assert (E : (0 <? freq)%Z = true) by (apply Z.ltb_lt; exact Hfreq).
  rewrite E.
  set (years := inject_Z (Z.of_nat (length (x :: rest))) / inject_Z freq).
  assert (Hy : 0 < years).
  { unfold years. apply Qlt_shift_div_l.
    - change 0 with (inject_Z 0). rewrite <- Zlt_Qlt. exact Hfreq.
    - rewrite Qmult_0_l. apply inject_nat_pos. simpl. lia. }
  assert (Ey : Qlt_bool 0 years = true) by (apply Qlt_bool_iff; exact Hy).
  rewrite Ey.
  set (b := last (equity_curve (x :: rest)) 0).
  assert (Hb : 0 < b).
  { pose proof (equity_curve_pos (x :: rest) Hgt) as Hpos.
    destruct (equity_curve_nonempty x rest) as (e & es & Ee).
    unfold b. rewrite Ee in *. rewrite Forall_forall in Hpos.
    apply Hpos. apply last_In. }
  unfold np_power. assert (Eb : Qlt_bool 0 b = true) by (apply Qlt_bool_iff; exact Hb).
  rewrite Eb. cbn [option_map].
  set (e := Q2R (1 / years)).
  assert (He : (0 < e)%R).
  { unfold e. apply Q2R_pos_iff. apply Qlt_shift_div_l; [exact Hy | Lqa.lra]. }
  assert (HbR : (0 < Q2R b)%R) by (apply Q2R_pos_iff; exact Hb).
  assert (Hone : Q2R 1 = 1%R) by apply Q2R_one.
  eexists. split; [reflexivity|]. split; [|split].
  - unfold Rpower. pose proof (exp_pos (e * ln (Q2R b))). lra.
  - split.
    + intros Hc. apply Qnot_le_lt. intros Hle.
      apply Qle_Rle in Hle. rewrite Hone in Hle.
      destruct Hle as [Hlt | Heq].
      * pose proof (@Rlt_Rpower_l (Q2R b) 1 e He (conj HbR Hlt)) as H.
        rewrite Rpower_one in H. lra.
      * rewrite Heq, Rpower_one in Hc. lra.
    + intros H1. apply Qlt_Rlt in H1. rewrite Hone in H1.
      pose proof (@Rlt_Rpower_l 1 (Q2R b) e He (conj Rlt_0_1 H1)) as H.
      rewrite Rpower_one in H. lra.
  - split.
    + intros Hc. apply Qnot_le_lt. intros Hle.
      apply Qle_Rle in Hle. rewrite Hone in Hle.
      destruct Hle as [Hlt | Heq].
      * pose proof (@Rlt_Rpower_l 1 (Q2R b) e He (conj Rlt_0_1 Hlt)) as H.
        rewrite Rpower_one in H. lra.
      * rewrite <- Heq, Rpower_one in Hc. lra.
    + intros H1. apply Qlt_Rlt in H1. rewrite Hone in H1.
      pose proof (@Rlt_Rpower_l (Q2R b) 1 e He (conj HbR H1)) as H.
      rewrite Rpower_one in H. lra.
Qed.

Lemma cagr_witness :
  (0 < 252)%Z
  /\ dropna [Some (1 # 10); None; Some (- (1 # 20))] <> []
  /\ (forall x, In x (dropna [Some (1 # 10); None; Some (- (1 # 20))]) -> -(1) < x)
  /\ exists c,
       CAGR (compute_perf_stats [Some (1 # 10); None; Some (- (1 # 20))] 252) = Some c
       /\ (-1 < c)%R
       /\ ((0 < c)%R
           <-> 1 < last (equity_curve (dropna [Some (1 # 10); None; Some (- (1 # 20))])) 0)
       /\ ((c < 0)%R
           <-> last (equity_curve (dropna [Some (1 # 10); None; Some (- (1 # 20))])) 0 < 1).
Proof.
  assert (Hf : (0 < 252)%Z) by lia.
  assert (Hne : dropna [Some (1 # 10); None; Some (- (1 # 20))] <> []) by discriminate.
  assert (H : forall x, In x (dropna [Some (1 # 10); None; Some (- (1 # 20))]) -> -(1) < x).
  { simpl. intros x [<- | [<- | []]]; reflexivity. }
  split; [exact Hf|]. split; [exact Hne|]. split; [exact H|].
  exact (@cagr_follows_the_final_equity
           [Some (1 # 10); None; Some (- (1 # 20))] 252 Hf Hne H).
Defined.

End AnalyzerBounds.


(* ================================================================= *)
(** ** run.py *)

Section BenchmarkStats.
Local Open Scope Q_scope.

Lemma np_power_ext (b e1 e2 : Q) : e1 == e2 -> np_power b e1 = np_power b e2.
Proof.
  intros H. unfold np_power.
  rewrite (Qeq_eqR _ _ H), (Qred_complete _ _ H). reflexivity.
Qed.

Lemma half_power_is_sqrt (freq : positive) :
  Rpower (IZR (Zpos freq)) (Q2R (1 # 2)) = sqrt (IZR (Zpos freq)).
Proof.
  replace (Q2R (1 # 2)) with (/ 2)%R by (unfold Q2R; simpl; lra).
  apply Rpower_sqrt. apply IZR_lt. reflexivity.
Qed.

(** X28.  For a positive [freq], [_perf_stats] and [compute_perf_stats] return
    the same three numbers on every series with an observation; on a
    series without one the first returns three NaN and the second three
    zeros. *)
Theorem benchmark_stats_agree_except_on_empty_series :
  forall (r : list flt) (freq : positive),
    match dropna r with
    | [] =>
        _perf_stats r freq = mkPerfStats None None NaN
        /\ compute_perf_stats r (Zpos freq) = mkPerfStats (Some 0%R) (Some 0%R) (Some 0)
    | _ :: _ => _perf_stats r freq = compute_perf_stats r (Zpos freq)
    end.
Proof.
  intros r freq. unfold _perf_stats, compute_perf_stats.
  destruct (dropna r) as [|x rest] eqn:Er; [split; reflexivity|].
  set (n := inject_Z (Z.of_nat (length (x :: rest)))).
  assert (Hn : 0 < n) by (apply inject_nat_pos; simpl; lia).
  assert (Hf : 0 < inject_Z (Zpos freq)) by reflexivity.
  cbn [Z.ltb Z.compare].
  assert (Hy : Qlt_bool 0 (n / inject_Z (Zpos freq)) = true).
  { apply Qlt_bool_iff. apply Qlt_shift_div_l; [exact Hf | rewrite Qmult_0_l; exact Hn]. }
  rewrite Hy.
  assert (He : inject_Z (Zpos freq) / n == 1 / (n / inject_Z (Zpos freq))).
  { field. split; intros H;
      first [ apply (Qlt_not_eq _ _ Hn); symmetry; exact H
            | apply (Qlt_not_eq _ _ Hf); symmetry; exact H ]. }
  rewrite (np_power_ext _ He).
  unfold np_sqrt. cbn [Z.ltb Z.compare]. rewrite half_power_is_sqrt.
  unfold max_drawdown. reflexivity.
Qed.

End BenchmarkStats.

Section MainPipeline.
Local Open Scope Q_scope.
Local Open Scope string_scope.
Variable Fitted : Type.
Variable fit : Z -> list (list Q) -> list Q -> Fitted.
Variable predict : Fitted -> list Q -> flt.

Lemma feature_columns_present (panel : DataFrame) :
  In "y_fwd_3m" (df_columns panel) ->
  has_columns panel (needed_columns (feature_columns panel)).
Proof.
  intros Hy c Hc. unfold needed_columns in Hc. apply in_app_or in Hc.
  destruct Hc as [Hc | [<- | []]]; [|exact Hy].
  unfold feature_columns in Hc. apply filter_In in Hc. tauto.
Qed.

Lemma tenth_is_valid : valid_level (1 # 10).
Proof. unfold valid_level. split; discriminate. Qed.

(** X29.  When the panel has the target column but fewer than 1000 rows, or
    fewer than 25 month ends, the pipeline stops with the RuntimeError
    of the simulator: no position was generated. *)
Theorem main_stops_on_short_history :
  forall panel tc_bps,
    In "y_fwd_3m" (df_columns panel) ->
    (length (df_rows panel) < 1000)%nat
    \/ (length (month_ends (map r_date (df_rows panel))) < 25)%nat ->
    main fit predict panel tc_bps = Raise RuntimeError.
Proof.
  intros panel tc_bps Hy Hshort. unfold main.
  rewrite (@little_data_empty_schedule _ fit predict panel (feature_columns panel)
             (month_ends (map r_date (df_rows panel))) (1 # 10) (1 # 10) 50 42
             (feature_columns_present panel Hy) Hshort).
  reflexivity.
Qed.

(** X30.  On a panel with a unique (date, ticker) index, the target column and
    the close column, the pipeline raises neither KeyError nor
    ValueError: a schedule is generated, and the pipeline returns when
    the schedule has an entry and stops with RuntimeError when it has
    none. *)
Theorem main_returns_unless_no_position :
  forall panel tc_bps,
    unique_index panel ->
    In "y_fwd_3m" (df_columns panel) ->
    In "close" (df_columns panel) ->
    exists m,
      generate_monthly_positions fit predict panel (feature_columns panel)
        (month_ends (map r_date (df_rows panel))) (1 # 10) (1 # 10) 50 42 = Ok m
      /\ ((m = [] /\ main fit predict panel tc_bps = Raise RuntimeError)
          \/ (m <> [] /\ returns_value (main fit predict panel tc_bps))).
Proof.
  intros panel tc_bps Hu Hy Hc. unfold main.
  destruct (@generate_returns _ fit predict panel (feature_columns panel)
              (month_ends (map r_date (df_rows panel))) (1 # 10) (1 # 10) 50 42
              (feature_columns_present panel Hy) tenth_is_valid tenth_is_valid)
    as [m Em].
  exists m. split; [exact Em|]. rewrite Em. cbn [bind].
  destruct (@generate_on_unique_index _ fit predict panel _ _ _ _ _ _ m Hu Em)
    as [Hr _].
  pose proof (backtest_outcome panel m tc_bps) as Ho. unfold outcome_by_input in Ho.
  destruct (backtest_positions panel m tc_bps) as [res | [| |]].
  - right. split; [tauto | exists res; reflexivity].
  - left. split; [exact Ho | reflexivity].
  - exfalso. tauto.
  - exfalso. destruct Ho as (_ & _ & [Hn | Hf]); [exact (Hn Hu) | congruence].
Qed.

End MainPipeline.

Section MainOnSamples.
Local Open Scope Q_scope.
Local Open Scope string_scope.

Lemma main_short_history_witness :
  In "y_fwd_3m" (df_columns small_panel)
  /\ ((length (df_rows small_panel) < 1000)%nat
      \/ (length (month_ends (map r_date (df_rows small_panel))) < 25)%nat)
  /\ main Toy.fit Toy.predict small_panel 5 = Raise RuntimeError.
Proof.
  assert (Hy : In "y_fwd_3m" (df_columns small_panel)) by (right; left; reflexivity).
  assert (Hs : (length (df_rows small_panel) < 1000)%nat
               \/ (length (month_ends (map r_date (df_rows small_panel))) < 25)%nat).
  { left. simpl. lia. }
  split; [exact Hy|]. split; [exact Hs|].
  exact (@main_stops_on_short_history _ Toy.fit Toy.predict small_panel 5 Hy Hs).
Defined.

Lemma main_returns_witness :
  unique_index Toy.panel
  /\ In "y_fwd_3m" (df_columns Toy.panel)
  /\ In "close" (df_columns Toy.panel)
  /\ exists m,
       generate_monthly_positions Toy.fit Toy.predict Toy.panel (feature_columns Toy.panel)
         (month_ends (map r_date (df_rows Toy.panel))) (1 # 10) (1 # 10) 50 42 = Ok m
       /\ ((m = [] /\ main Toy.fit Toy.predict Toy.panel 5 = Raise RuntimeError)
           \/ (m <> [] /\ returns_value (main Toy.fit Toy.predict Toy.panel 5))).
Proof.
  assert (Hy : In "y_fwd_3m" (df_columns Toy.panel)) by (right; left; reflexivity).
  assert (Hc : In "close" (df_columns Toy.panel)) by (left; reflexivity).
  split; [exact toy_unique_index|]. split; [exact Hy|]. split; [exact Hc|].
  exact (@main_returns_unless_no_position _ Toy.fit Toy.predict Toy.panel 5
           toy_unique_index Hy Hc).
Defined.

End MainOnSamples.
